(** * MusicScripts: cover-art tools for an MP3 library

    A shallow embedding of the three scripts of [artwork-update/]
    ([embed-artwork.py], [export-coverart.py], [id3tocovr.py]) and the
    properties of their decision logic.

    The scripts are glue around three libraries: Pillow (image decoding and
    encoding), mutagen (ID3 tags) and the HTTP clients of the artwork
    providers.  The libraries are modelled by what the scripts observe of
    them; the scripts themselves are translated function by function. *)

From Stdlib Require Import ZArith List String Ascii Bool Lia.
From Stdlib Require Import Permutation Sorting.Sorted.
Import ListNotations.

Local Open Scope string_scope.
Local Open Scope list_scope.
Local Open Scope Z_scope.

(** ** Python strings *)

Module Str.

(** [s.startswith(p)] *)
Definition startswith (s p : string) : bool := String.prefix p s.

(** [s.endswith(suf)]: some tail of [s] is [suf]. *)
Fixpoint endswith (s suf : string) : bool :=
  String.eqb s suf ||
  match s with
  | EmptyString => false
  | String _ s' => endswith s' suf
  end.

(** [sub in s] *)
Fixpoint contains (s sub : string) : bool :=
  String.prefix sub s ||
  match s with
  | EmptyString => false
  | String _ s' => contains s' sub
  end.

(** Truth value of a string: the empty string is false. *)
Definition truthy (s : string) : bool :=
  match s with EmptyString => false | _ => true end.

(** [os.path.join(a, b)] for a relative [b] (directory entries are). *)
Definition join (a b : string) : string :=
  if startswith b "/" then b
  else if negb (truthy a) || endswith a "/" then a ++ b
  else a ++ "/" ++ b.

(** [names.sort()]: insertion into a sorted list, by code points. *)
Fixpoint insert_sorted {A : Type} (key : A -> string) (x : A) (l : list A)
  : list A :=
  match l with
  | [] => [x]
  | y :: l' =>
      if String.leb (key x) (key y) then x :: l
      else y :: insert_sorted key x l'
  end.

Definition sort_by {A : Type} (key : A -> string) (l : list A) : list A :=
  fold_right (insert_sorted key) [] l.

(** [s.lower()] on ASCII letters. *)
Definition lower_ascii (c : ascii) : ascii :=
  let n := nat_of_ascii c in
  if (Nat.leb 65 n && Nat.leb n 90)%bool then ascii_of_nat (n + 32) else c.

Fixpoint lower (s : string) : string :=
  match s with
  | EmptyString => EmptyString
  | String c s' => String (lower_ascii c) (lower s')
  end.

End Str.

(** ** Exceptions

    A Python call either returns or raises; every [except] clause of the
    scripts that is modelled catches [Exception], so one constructor for
    the raising case is enough. *)

Inductive result (A : Type) : Type :=
| Ok (a : A)
| Raise.

Arguments Ok {A} a.
Arguments Raise {A}.

Definition bind {A B : Type} (r : result A) (k : A -> result B) : result B :=
  match r with
  | Ok a => k a
  | Raise => Raise
  end.

Notation "x <- r ;; k" := (bind r (fun x => k))
  (at level 61, r at next level, right associativity).
Notation "' p <- r ;; k" := (bind r (fun p => k))
  (at level 61, p pattern, r at next level, right associativity).

(** ** Pillow

    What the scripts see of an image: its container format, its colour
    mode and its size in pixels.  A file (or a byte string) either decodes
    to such an image or is something Pillow refuses. *)

Module PIL.

Record image : Type := mkImage {
  format : string;
  mode : string;
  width : Z;
  height : Z
}.

(** Contents of a file or of a byte string. *)
Inductive data : Type :=
| Picture (img : image)
| Raw (raw : list Byte.byte).

(** [os.path.getsize(path) == 0] *)
Definition is_empty (d : data) : bool :=
  match d with
  | Raw [] => true
  | _ => false
  end.

(** [Image.open]: raises on anything that is not an image. *)
Definition open (d : data) : result image :=
  match d with
  | Picture img => Ok img
  | Raw _ => Raise
  end.

Definition size (img : image) : Z * Z := (width img, height img).

(** [img.convert('RGB')] *)
Definition convert_RGB (img : image) : image :=
  mkImage (format img) "RGB" (width img) (height img).

(** [img.resize((w, h))]: Pillow raises [ValueError] ("height and width
    must be > 0") for a size below one pixel. *)
Definition resize (img : image) (w h : Z) : result image :=
  if (w <? 1) || (h <? 1) then Raise
  else Ok (mkImage (format img) (mode img) w h).

(** [img.save] to a JPEG can raise: Pillow's JPEG writer refuses some
    colour modes and sizes.  What the writer does with a mode and a size
    is a parameter of the model: the mode the written file has when it
    is opened again, or [None] when the writer raises. *)
Definition jpeg_writer : Type := string -> Z -> Z -> option string.

(** [img.save(path)] with a [.jpg] path, or with [format="JPEG"]: the
    contents of the written file. *)
Definition save_jpeg (writer : jpeg_writer) (img : image) : result data :=
  match writer (mode img) (width img) (height img) with
  | Some m => Ok (Picture (mkImage "JPEG" m (width img) (height img)))
  | None => Raise
  end.

(** Whether the writer takes an image of this mode and size. *)
Definition accepts (writer : jpeg_writer) (m : string) (w h : Z) : bool :=
  match writer m w h with
  | Some _ => true
  | None => false
  end.

(** The writer of Pillow: it takes the modes of its [RAWMODE] table and
    raises [OSError] ("cannot write mode ... as JPEG") for every other
    one, and libjpeg takes no side above 65500 pixels. *)
Definition jpeg_rawmode (m : string) : option string :=
  if String.eqb m "1" then Some "L"
  else if String.eqb m "L" then Some "L"
  else if String.eqb m "RGB" then Some "RGB"
  else if String.eqb m "RGBX" then Some "RGB"
  else if String.eqb m "CMYK" then Some "CMYK"
  else if String.eqb m "YCbCr" then Some "RGB"
  else None.

Definition pillow_writer : jpeg_writer :=
  fun m w h =>
    if (1 <=? w) && (w <=? 65500) && (1 <=? h) && (h <=? 65500)
    then jpeg_rawmode m
    else None.

(** A valid JPEG image. *)
Definition is_jpeg (d : data) : bool :=
  match d with
  | Picture img => String.eqb (format img) "JPEG"
  | Raw _ => false
  end.

(** Pixel dimensions of an image file, when it has any. *)
Definition dimensions (d : data) : option (Z * Z) :=
  match d with
  | Picture img => Some (size img)
  | Raw _ => None
  end.

End PIL.

(** ** mutagen

    An ID3 tag is a dictionary from hash keys to frames, kept in insertion
    order as Python dictionaries are. *)

Module Mutagen.

Inductive frame : Type :=
| APIC (encoding : Z) (mime : string) (type : Z) (desc : string)
       (data : PIL.data)
| TextFrame (id : string) (text : list string)
| OtherFrame (id : string).

Definition HashKey (f : frame) : string :=
  match f with
  | APIC _ _ _ desc _ => "APIC:" ++ desc
  | TextFrame id _ => id
  | OtherFrame id => id
  end.

Definition ID3 : Type := list (string * frame).

Definition keys (t : ID3) : list string := map fst t.
Definition values (t : ID3) : list frame := map snd t.

Definition has_key (k : string) (t : ID3) : bool :=
  existsb (String.eqb k) (keys t).

Fixpoint get (k : string) (t : ID3) : option frame :=
  match t with
  | [] => None
  | (k', f) :: t' => if String.eqb k k' then Some f else get k t'
  end.

(** [del t[k]] *)
Definition delete (k : string) (t : ID3) : ID3 :=
  filter (fun kf => negb (String.eqb k (fst kf))) t.

(** [t[k] = f]: an existing key keeps its place. *)
Fixpoint set (k : string) (f : frame) (t : ID3) : ID3 :=
  match t with
  | [] => [(k, f)]
  | (k', f') :: t' =>
      if String.eqb k k' then (k, f) :: t' else (k', f') :: set k f t'
  end.

(** [isinstance(tag, APIC)] *)
Definition is_APIC (f : frame) : bool :=
  match f with
  | APIC _ _ _ _ _ => true
  | _ => false
  end.

(** [t.add(frame)] stores the frame under its hash key.  (When the key is
    taken, recent mutagen versions merge or rename instead of overwriting;
    the scripts add a picture only after deleting every picture key, so
    the key is always free there: see [remove_artwork_frees_key].) *)
Definition add (f : frame) (t : ID3) : ID3 := set (HashKey f) f t.

(** Number of picture frames of a tag. *)
Definition count_APIC (t : ID3) : nat :=
  List.length (filter is_APIC (values t)).

(** The picture frames of a tag, in order, and the other frames. *)
Definition pictures (t : ID3) : list frame := filter is_APIC (values t).

Definition other_frames (t : ID3) : ID3 :=
  filter (fun kf => negb (is_APIC (snd kf))) t.

(** ["APIC"] is the frame id of pictures. *)
Definition picture_key (k : string) : bool := Str.startswith k "APIC".

(** Tags as mutagen loads them: every frame sits under its own hash key,
    and only pictures have a key that starts with [APIC]. *)
Definition keyed (t : ID3) : Prop :=
  Forall (fun kf => fst kf = HashKey (snd kf)
                    /\ picture_key (fst kf) = is_APIC (snd kf)) t.

End Mutagen.

(** ** Folders

    A folder holds at most one [cover.jpg] and, besides it, the entries
    [os.listdir] reports, in the order it reports them.  An entry carries
    the ID3 tag mutagen loads from it, or nothing when the file has no
    ID3 header and [ID3(path)] raises.  The file system itself does not
    fail: a file that is there can be read, and it never refuses a write
    to a path of the folder or to the scratch file. *)

Record folder : Type := mkFolder {
  path : string;
  cover : option PIL.data;
  listing : list (string * option Mutagen.ID3)
}.

(** [[f for f in os.listdir(folder_path) if f.endswith(".mp3")]] *)
Definition mp3_entries (f : folder) : list (string * option Mutagen.ID3) :=
  filter (fun e => Str.endswith (fst e) ".mp3") (listing f).

(** [music_files[0]], when there is one. *)
Definition first_mp3 (f : folder) : option (string * option Mutagen.ID3) :=
  hd_error (mp3_entries f).

(** The rule the specification words for the same choice: the first MP3
    in sorted filename order. *)
Definition sorted_first_mp3 (f : folder) : option string :=
  hd_error
    (Str.sort_by (fun name => name)
       (filter (fun name => Str.endswith name ".mp3") (map fst (listing f)))).

(** Names in code-point order. *)
Definition name_le (a b : string) : Prop := String.leb a b = true.

(** Entries in the order of their keys. *)
Definition key_le {A : Type} (key : A -> string) (x y : A) : Prop :=
  name_le (key x) (key y).

(** ** Command line and library tree

    The three scripts declare the same flags: [-a/--all] and [-c/--cd]
    ([store_true]) and [-i/--input] (a string, [None] when absent). *)

Record args : Type := mkArgs {
  all : bool;
  cd : bool;
  input : option string
}.

(** Truth value of [args.input]. *)
Definition input_given (a : args) : bool :=
  match input a with
  | Some s => Str.truthy s
  | None => false
  end.

(** The string [args.input] holds when it is given. *)
Definition input_value (a : args) : string :=
  match input a with
  | Some s => s
  | None => ""
  end.

(** [any(vars(args).values())] *)
Definition any_flag (a : args) : bool :=
  all a || cd a || input_given a.

(** A run of a script ends in [sys.exit(status)] or returns after having
    handed some folders, in this order, to its per-folder function. *)
Inductive run : Type :=
| Exit (status : Z)
| Visited (folders : list string).

(** Directory entries, in the order the file system enumerates them. *)
#[warnings="-register-all"]
Inductive node : Type :=
| File
| Dir (entries : list (string * node)).

(** [os.path.isdir] on an entry. *)
Definition is_dir (n : node) : bool :=
  match n with
  | Dir _ => true
  | File => false
  end.

(** Names of the subdirectories among some entries. *)
Definition dirnames (entries : list (string * node)) : list string :=
  map fst (filter (fun e => is_dir (snd e)) entries).

(** [os.walk(top)], top-down: the pairs [(root, dirs)] it yields ([files]
    is not used by the scripts). *)
Fixpoint walk (top : string) (n : node) : list (string * list string) :=
  match n with
  | File => []
  | Dir entries =>
      (top, dirnames entries)
      :: flat_map (fun e => walk (Str.join top (fst e)) (snd e)) entries
  end.

(** [for root, dirs, files in os.walk(top): for dir_name in dirs: ...]
    with a test on [dir_name]: the paths [os.path.join(root, dir_name)]
    that pass, in order. *)
Definition walk_dirs (keep : string -> bool) (top : string) (n : node)
  : list string :=
  flat_map
    (fun rd => map (Str.join (fst rd)) (filter keep (snd rd)))
    (walk top n).

(** ** embed-artwork.py *)

Module EmbedArtwork.

Import PIL Mutagen.

(** The lines the script prints, one constructor per [print]. *)
Inductive message : Type :=
| CoverNotFound (folder_path : string)
| CoverEmpty (folder_path : string)
| FoundCover (folder_path fmt : string)
| Converting (fmt : string)
| Converted
| CoverInvalid (folder_path : string)
| ResolutionError (folder_path : string)
| AlreadySmaller (folder_path : string)
| CreatedResized
| ResizeError (folder_path : string)
| Processing (music_path : string)
| FoundEmbedded (w h : Z)
| SkippingEmbedding
| RemovedArtwork (filename : string)
| EmbeddedArtwork (music_path : string)
| FileError (music_path : string).

(** [check_cover_resolution(cover_path)] *)
Definition check_cover_resolution (cover_file : data) : result (Z * Z) :=
  img <- PIL.open cover_file ;;
  Ok (size img).

(** [img.mode in ['RGBA', 'P']] *)
Definition needs_RGB (img : image) : bool :=
  String.eqb (mode img) "RGBA" || String.eqb (mode img) "P".

(** [create_temp_cover(original_cover_path, temp_res)]: the contents it
    leaves in [/tmp/temp_cover.jpg], the path it returns. *)
Definition create_temp_cover (writer : jpeg_writer) (original_cover : data)
    (temp_res : Z) : result data :=
  img <- PIL.open original_cover ;;
  let img := if needs_RGB img then convert_RGB img else img in
  img <- (if (width img >=? temp_res) && (height img >=? temp_res)
          then resize img temp_res temp_res
          else Ok img) ;;
  save_jpeg writer img.

(** The colour mode [create_temp_cover] hands to the JPEG writer. *)
Definition mode_to_save (img : image) : string :=
  if needs_RGB img then "RGB" else mode img.

(** [get_embedded_artwork_resolution(audio_file)]: the size of the first
    picture frame, [None] without one; [Image.open] may raise. *)
Fixpoint first_picture_size (tags : list frame) : result (option (Z * Z)) :=
  match tags with
  | [] => Ok None
  | APIC _ _ _ _ d :: _ =>
      img <- PIL.open d ;;
      Ok (Some (size img))
  | _ :: tags' => first_picture_size tags'
  end.

Definition get_embedded_artwork_resolution (audio_file : ID3)
  : result (option (Z * Z)) :=
  first_picture_size (values audio_file).

(** [remove_artwork(audio_file)]: deletes every key that starts with
    [APIC]; returns the flag, the tag and the lines printed. *)
Definition remove_artwork (filename : string) (audio_file : ID3)
  : bool * ID3 * list message :=
  fold_left
    (fun (acc : bool * ID3 * list message) (tag : string) =>
       let '(artwork_removed, t, out) := acc in
       if Str.startswith tag "APIC"
       then (true, delete tag t, out ++ [RemovedArtwork filename])
       else acc)
    (keys audio_file)
    (false, audio_file, []).

(** The picture frame the script embeds. *)
Definition cover_frame (cover_data : data) : frame :=
  APIC 3 "image/jpeg" 3 "Cover" cover_data.

(** Body of the loop of [process_folder] over the music files: what one
    file holds afterwards and what is printed.  [new_cover] is the file at
    [temp_cover_path]. *)
Definition process_music_file (folder_path : string) (new_cover : data)
    (entry : string * option ID3) : option ID3 * list message :=
  let music_path := Str.join folder_path (fst entry) in
  match snd entry with
  | None => (None, [Processing music_path; FileError music_path])
  | Some audio_file =>
      let embed (printed : list message) :=
        let '(_, t, out) := remove_artwork music_path audio_file in
        (Some (add (cover_frame new_cover) t),
         printed ++ out ++ [EmbeddedArtwork music_path]) in
      match get_embedded_artwork_resolution audio_file with
      | Raise => (Some audio_file, [Processing music_path; FileError music_path])
      | Ok None => embed [Processing music_path]
      | Ok (Some (embedded_width, embedded_height)) =>
          let found := [Processing music_path;
                        FoundEmbedded embedded_width embedded_height] in
          match PIL.open new_cover with
          | Raise => (Some audio_file, found ++ [FileError music_path])
          | Ok new_artwork =>
              let '(new_width, new_height) := size new_artwork in
              if (embedded_width >=? new_width)
                 && (embedded_height >=? new_height)
              then (Some audio_file, found ++ [SkippingEmbedding])
              else embed found
          end
      end
  end.

(** What embedding leaves in a tag: [remove_artwork], then [add]. *)
Definition embedded (music_path : string) (new_cover : data) (t : ID3) : ID3 :=
  add (cover_frame new_cover) (snd (fst (remove_artwork music_path t))).

Section Config.

(** The JPEG writer of the installed Pillow, and [TEMP_RES], read from
    the configuration file. *)
Variable writer : jpeg_writer.
Variable TEMP_RES : Z.

(** The files [process_folder] works on: the folder and the scratch file
    [/tmp/temp_cover.jpg]. *)
Record files : Type := mkFiles {
  album : folder;
  temp_cover : option data
}.

(** First half of [process_folder] (up to the resize): the cover that will
    be embedded, or [None] when the folder is skipped, with the scratch
    file and the lines printed. *)
Definition prepare_cover (fs : files)
  : option data * option data * list message :=
  let folder_path := path (album fs) in
  match cover (album fs) with
  | None => (None, temp_cover fs, [CoverNotFound folder_path])
  | Some cover_file =>
      if is_empty cover_file
      then (None, temp_cover fs, [CoverEmpty folder_path])
      else
        match PIL.open cover_file with
        | Raise => (None, temp_cover fs, [CoverInvalid folder_path])
        | Ok img =>
            let found := [FoundCover folder_path (format img)] in
            (* conversion of a cover that is not a JPEG *)
            let converted : result (option data * list message) :=
              if negb (String.eqb (format img) "JPEG")
              then
                d <- save_jpeg writer
                       (if needs_RGB img then convert_RGB img else img) ;;
                Ok (Some d, found ++ [Converting (format img); Converted])
              else Ok (temp_cover fs, found) in
            match converted with
            | Raise =>
                (None, temp_cover fs,
                 found ++ [Converting (format img); CoverInvalid folder_path])
            | Ok (tmp, out) =>
                match check_cover_resolution cover_file with
                | Raise => (None, tmp, out ++ [ResolutionError folder_path])
                | Ok (cover_width, cover_height) =>
                    if (cover_width <? TEMP_RES) && (cover_height <? TEMP_RES)
                    then (Some cover_file, tmp,
                          out ++ [AlreadySmaller folder_path])
                    else
                      match create_temp_cover writer cover_file TEMP_RES with
                      | Raise => (None, tmp, out ++ [ResizeError folder_path])
                      | Ok d => (Some d, Some d, out ++ [CreatedResized])
                      end
                end
            end
        end
  end.

(** The loop over the music files, in listing order. *)
Fixpoint process_music_files (folder_path : string) (new_cover : data)
    (entries : list (string * option ID3))
  : list (string * option ID3) * list message :=
  match entries with
  | [] => ([], [])
  | entry :: rest =>
      let '(after, out) :=
        if Str.endswith (fst entry) ".mp3"
        then process_music_file folder_path new_cover entry
        else (snd entry, []) in
      let '(rest', out') := process_music_files folder_path new_cover rest in
      ((fst entry, after) :: rest', out ++ out')
  end.

(** [process_folder(folder_path)] *)
Definition process_folder (fs : files) : files * list message :=
  match prepare_cover fs with
  | (None, tmp, out) => (mkFiles (album fs) tmp, out)
  | (Some new_cover, tmp, out) =>
      let '(entries, out') :=
        process_music_files (path (album fs)) new_cover (listing (album fs)) in
      (mkFiles (mkFolder (path (album fs)) (cover (album fs)) entries) tmp,
       out ++ out')
  end.

End Config.

Section Library.

(** [ROOT_MUSIC_DIR] and the tree found there; [isdir] answers
    [os.path.isdir] for the argument of [-i]. *)
Variable ROOT_MUSIC_DIR : string.
Variable library : node.
Variable isdir : string -> bool.

(** [embed_artwork_in_folder(folder_path, recursive)]: the folders it
    hands to [process_folder]. *)
Definition embed_artwork_in_folder (folder_path : string) (tree : node)
    (recursive : bool) : list string :=
  if recursive
  then walk_dirs (fun _ => true) folder_path tree
  else [folder_path].

(** [process_cd_folders()] *)
Definition process_cd_folders : list string :=
  walk_dirs (fun dir_name => Str.startswith dir_name "CD ")
            ROOT_MUSIC_DIR library.

(** [main()], from the arguments that [parser.parse_args()] returned (on
    [-h] and on a command line it does not accept, argparse itself ends
    the run there, with status 0 and status 2). *)
Definition main (a : args) : run :=
  if negb (any_flag a) then Exit 1
  else if input_given a then
    if negb (isdir (input_value a)) then Exit 1
    else Visited (embed_artwork_in_folder (input_value a) File false)
  else if all a then
    Visited (embed_artwork_in_folder ROOT_MUSIC_DIR library true)
  else if cd a then Visited process_cd_folders
  else Visited [].

End Library.

End EmbedArtwork.

(** ** export-coverart.py *)

Module ExportCoverart.

Import PIL Mutagen.

Inductive message : Type :=
| NoMp3Found (folder_path : string)
| Exported (first_mp3 folder_path : string)
| ErrorProcessing (first_mp3 : string)
| CoverNotFound (folder_path : string)
| CouldNotExport (folder_path : string)
| CoverExists (folder_path : string).

(** [for tag in audio_file.values(): if isinstance(tag, APIC): ...]: the
    data of the first picture frame. *)
Fixpoint first_picture (tags : list frame) : option data :=
  match tags with
  | [] => None
  | APIC _ _ _ _ d :: _ => Some d
  | _ :: tags' => first_picture tags'
  end.

(** [export_cover_from_mp3(folder_path)]: its return value, the folder
    afterwards and the lines printed. *)
Definition export_cover_from_mp3 (f : folder)
  : bool * folder * list message :=
  match mp3_entries f with
  | [] => (false, f, [NoMp3Found (path f)])
  | first :: _ =>
      let first_mp3 := Str.join (path f) (fst first) in
      match snd first with
      | None => (false, f, [ErrorProcessing first_mp3])
      | Some audio_file =>
          match first_picture (values audio_file) with
          | Some tag_data =>
              (true, mkFolder (path f) (Some tag_data) (listing f),
               [Exported first_mp3 (path f)])
          | None => (false, f, [])
          end
      end
  end.

(** [process_folder(folder_path)] *)
Definition process_folder (f : folder) : folder * list message :=
  match cover f with
  | None =>
      let '(exported, f', out) := export_cover_from_mp3 f in
      (f', [CoverNotFound (path f)] ++ out ++
           (if exported then [] else [CouldNotExport (path f)]))
  | Some _ => (f, [CoverExists (path f)])
  end.

Section Library.

Variable ROOT_MUSIC_DIR : string.
Variable library : node.
Variable isdir : string -> bool.

(** [process_cd_folders()] *)
Definition process_cd_folders : list string :=
  walk_dirs (fun dir_name => Str.startswith dir_name "CD ")
            ROOT_MUSIC_DIR library.

(** [main()], from the arguments that [parser.parse_args()] returned (on
    [-h] and on a command line it does not accept, argparse itself ends
    the run there, with status 0 and status 2). *)
Definition main (a : args) : run :=
  if negb (any_flag a) then Exit 1
  else if input_given a then
    if negb (isdir (input_value a)) then Exit 1
    else Visited [input_value a]
  else if all a then
    Visited (walk_dirs (fun _ => true) ROOT_MUSIC_DIR library)
  else if cd a then Visited process_cd_folders
  else Visited [].

End Library.

End ExportCoverart.

(** ** id3tocovr.py *)

Module Id3tocovr.

Import PIL Mutagen.

(** Calls that leave the machine. *)
Inductive request : Type :=
| MusicBrainzSearch (artist album : string)
| CoverArtArchive (release_id : string)
| ITunesSearch (album : string)
| LastFmAlbum (artist album : string)
| Download (url : string).

(** Lines printed or logged. *)
Inductive line : Type :=
| Id3Failed
| ITunesFailed
| MusicBrainzFailed
| CoverArtFailed
| SkippingLastFm
| LastFmFailed
| NotAnImage (url : string)
| SavedTo (save_path : string)
| DownloadError
| CoverExists (folder_path : string)
| NoMp3Files (folder_path : string)
| ProcessingFolder (folder_path artist album : string)
| ArtworkSaved (artist album cover_path : string)
| DownloadFailed (artist album : string)
| NoArtworkFound (artist album : string).

(** What a run leaves behind besides the folder: the requests sent, the
    lines printed and the lines appended to [album-artwork.log]. *)
Record world : Type := mkWorld {
  requests : list request;
  printed : list line;
  logged : list line
}.

Definition M (A : Type) : Type := world -> A * world.

Definition ret {A : Type} (a : A) : M A := fun w => (a, w).

Definition bindM {A B : Type} (m : M A) (k : A -> M B) : M B :=
  fun w => let '(a, w') := m w in k a w'.

Notation "x <~ m ;; k" := (bindM m (fun x => k))
  (at level 61, m at next level, right associativity).
Notation "m ;;; k" := (bindM m (fun _ => k))
  (at level 61, right associativity).

Definition send (r : request) : M unit :=
  fun w => (tt, mkWorld (requests w ++ [r]) (printed w) (logged w)).

Definition print (l : line) : M unit :=
  fun w => (tt, mkWorld (requests w) (printed w ++ [l]) (logged w)).

Definition log (l : line) : M unit :=
  fun w => (tt, mkWorld (requests w) (printed w) (logged w ++ [l])).

(** Truth value of a string that may be [None]. *)
Definition truthy (s : option string) : bool :=
  match s with
  | Some s => Str.truthy s
  | None => false
  end.

(** [response.iter_content(chunk_size=8192)] as [download_artwork]
    consumes it, one [file.write] per chunk: every chunk arrives and the
    chunks together are [content]; or an exception is raised after the
    chunks that make [received] (possibly none) have been written. *)
Inductive stream : Type :=
| Complete (content : data)
| Interrupted (received : data).

(** [requests.get(url, stream=True)] as far as [download_artwork] reads
    it: the status line and the headers have arrived, the body is read
    afterwards. *)
Record response : Type := mkResponse {
  status : Z;
  content_type : option string;
  body : stream
}.

(** The answers whose body [download_artwork] writes to the file: those
    that pass [raise_for_status] (a status outside 400..599) and whose
    content type mentions "image". *)
Definition image_answer (resp : response) : Prop :=
  ~ (400 <= status resp /\ status resp < 600)
  /\ Str.contains
       (match content_type resp with Some c => c | None => "" end) "image"
     = true.

(** The sections and fields [validate_config] requires, in the order of
    the dictionary [required_fields]. *)
Definition required_fields : list (string * list string) :=
  [("musicbrainz", ["useragent_email"]);
   ("credentials", ["lastfm-apikey"]);
   ("settings",
    ["USE_HIRES"; "MIN_RES"; "USE_FALLBACK"; "USE_HIRES_PRIORITY";
     "USE_MUSICBRAINZ"; "NO_LOW_RES"]);
   ("paths", ["rootmusicdir"])].

(** The two messages [validate_config] prints before [sys.exit(1)]. *)
Inductive config_error : Type :=
| MissingSection (section : string)
| MissingField (field section : string).

Section Validation.

(** The parsed configuration file, as [validate_config] questions it:
    [section in config] and [field in config[section]]. *)
Variable has_section : string -> bool.
Variable has_option : string -> string -> bool.

(** [for field in fields: ...] *)
Fixpoint check_fields (section : string) (fields : list string)
  : option config_error :=
  match fields with
  | [] => None
  | field :: rest =>
      if negb (has_option section field)
      then Some (MissingField field section)
      else check_fields section rest
  end.

(** [for section, fields in required_fields.items(): ...] *)
Fixpoint check_sections (required : list (string * list string))
  : option config_error :=
  match required with
  | [] => None
  | (section, fields) :: rest =>
      if negb (has_section section) then Some (MissingSection section)
      else
        match check_fields section fields with
        | Some e => Some e
        | None => check_sections rest
        end
  end.

(** [validate_config(config)]: the error it exits on, [None] when it
    returns. *)
Definition validate_config : option config_error :=
  check_sections required_fields.

End Validation.

(** [meets_resolution(image_path, min_res)]; [None] is a path without a
    file. *)
Definition meets_resolution (image : option data) (min_res : Z) : bool :=
  match image with
  | None => false
  | Some d =>
      match PIL.open d with
      | Ok img => (width img >=? min_res) && (height img >=? min_res)
      | Raise => false
      end
  end.

(** What a step returns and which requests it sends, started with
    nothing sent, printed or logged. *)
Definition value_of {A : Type} (m : M A) : A := fst (m (mkWorld [] [] [])).

Definition sent_by {A : Type} (m : M A) : list request :=
  requests (snd (m (mkWorld [] [] []))).

(** A step whose value does not depend on the world it starts in and
    that only appends to what was sent. *)
Definition steady {A : Type} (m : M A) : Prop :=
  forall w, fst (m w) = value_of m
            /\ requests (snd (m w)) = requests w ++ sent_by m.

(** The provider a request goes to. *)
Definition to_musicbrainz (r : request) : bool :=
  match r with
  | MusicBrainzSearch _ _ | CoverArtArchive _ => true
  | _ => false
  end.

Definition to_itunes (r : request) : bool :=
  match r with
  | ITunesSearch _ => true
  | _ => false
  end.

Definition to_lastfm (r : request) : bool :=
  match r with
  | LastFmAlbum _ _ => true
  | _ => false
  end.

(** Place of a request in the priority order of the sources. *)
Definition rank (r : request) : nat :=
  match r with
  | MusicBrainzSearch _ _ => 0
  | CoverArtArchive _ => 1
  | ITunesSearch _ => 2
  | LastFmAlbum _ _ => 3
  | Download _ => 4
  end.

(** The cover a run of [fetch_artwork_for_folder] leaves in the folder. *)
Definition cover_after (r : result folder) : option (option data) :=
  match r with
  | Ok f => Some (cover f)
  | Raise => None
  end.

Section Config.

(** Settings of [artwork-config.ini] that the code reads. *)
Variable USE_HIRES_PRIORITY : bool.
Variable USE_MUSICBRAINZ : bool.
Variable NO_LOW_RES : bool.

(** Python's [str.lower] and [str(frame)]. *)
Variable lower : string -> string.
Variable frame_str : frame -> string.

(** Answers of the providers; [Raise] is any exception of the client.
    - [search_releases]: the ids of the ["release-list"], [None] when the
      answer is empty or has no such list;
    - [caa_release]: the ["images"] of the release, each with its
      ["front"] flag and its ["image"] URL, [None] without that key;
    - [search_album]: artist name and [artwork_url_600] of each result;
    - [lastfm_cover]: the cover image of the album, possibly [None];
    - [http_get]: the answer to a GET. *)
Variable search_releases : string -> string -> result (option (list string)).
Variable caa_release : string -> result (option (list (bool * string))).
Variable search_album : string -> result (list (string * string)).
Variable lastfm_cover : string -> string -> result (option string).
Variable http_get : string -> result response.

(** [audio.get(key)] followed by [tag.text[0]] or [str(tag)]; an empty
    [text] raises [IndexError]. *)
Definition tag_text (key default : string) (audio : ID3) : result string :=
  match get key audio with
  | Some (TextFrame _ (t :: _)) => Ok t
  | Some (TextFrame _ []) => Raise
  | Some f => Ok (frame_str f)
  | None => Ok default
  end.

(** [get_artist_album_from_id3(file_path)]: only [ID3Error] is caught. *)
Definition get_artist_album_from_id3 (file : option ID3)
  : M (result (string * string)) :=
  match file with
  | None => log Id3Failed ;;; ret (Ok ("Unknown Artist", "Unknown Album"))
  | Some audio =>
      ret (artist <- tag_text "TPE1" "Unknown Artist" audio ;;
           album <- tag_text "TALB" "Unknown Album" audio ;;
           Ok (artist, album))
  end.

(** [fetch_itunes_artwork(artist, album)] *)
Definition fetch_itunes_artwork (artist album : string) : M (option string) :=
  send (ITunesSearch album) ;;;
  match search_album album with
  | Ok results =>
      ret (option_map snd
             (find (fun r => String.eqb (lower (fst r)) (lower artist))
                   results))
  | Raise => log ITunesFailed ;;; ret None
  end.

(** [fetch_musicbrainz_release_id(artist, album)] *)
Definition fetch_musicbrainz_release_id (artist album : string)
  : M (option string) :=
  send (MusicBrainzSearch artist album) ;;;
  match search_releases artist album with
  | Ok (Some (id :: _)) => ret (Some id)
  | Ok (Some []) => log MusicBrainzFailed ;;; ret None
  | Ok None => ret None
  | Raise => log MusicBrainzFailed ;;; ret None
  end.

(** [fetch_caa_artwork(release_id)] *)
Definition fetch_caa_artwork (release_id : string) : M (option string) :=
  send (CoverArtArchive release_id) ;;;
  match caa_release release_id with
  | Ok (Some images) => ret (option_map snd (find fst images))
  | Ok None => ret None
  | Raise => log CoverArtFailed ;;; ret None
  end.

(** [fetch_lastfm_artwork(artist, album)] *)
Definition fetch_lastfm_artwork (artist album : string) : M (option string) :=
  if NO_LOW_RES then
    print SkippingLastFm ;;; log SkippingLastFm ;;; ret None
  else
    send (LastFmAlbum artist album) ;;;
    match lastfm_cover artist album with
    | Ok image => ret image
    | Raise => log LastFmFailed ;;; ret None
    end.

(** [download_artwork(url, save_path)]: the value returned, and what
    [save_path] holds once [open(save_path, "wb")] has been reached
    ([None] when the function returns before it and the path is left as it
    was).  The file is opened before the body is read, so an exception
    while the chunks are read or written leaves the chunks written so far
    in the file, and [False] is returned. *)
Definition download_artwork (url save_path : string)
  : M (bool * option data) :=
  send (Download url) ;;;
  match http_get url with
  | Raise => log DownloadError ;;; ret (false, None)
  | Ok resp =>
      if (400 <=? status resp) && (status resp <? 600)
      then log DownloadError ;;; ret (false, None)
      else if negb (Str.contains
                      (match content_type resp with Some c => c | None => "" end)
                      "image")
      then log (NotAnImage url) ;;; ret (false, None)
      else
        match body resp with
        | Complete content =>
            log (SavedTo save_path) ;;; ret (true, Some content)
        | Interrupted received =>
            log DownloadError ;;; ret (false, Some received)
        end
  end.

(** The MusicBrainz step of [fetch_artwork_for_folder]: the release id,
    then the Cover Art Archive when there is one. *)
Definition musicbrainz_artwork (artist album : string) : M (option string) :=
  release_id <~ fetch_musicbrainz_release_id artist album ;;
  match release_id with
  | Some id => if Str.truthy id then fetch_caa_artwork id else ret None
  | None => ret None
  end.

(** The source chain of [fetch_artwork_for_folder] ("Fetch artwork from
    various sources"): the URL it settles on. *)
Definition resolve_artwork (artist album : string) : M (option string) :=
  artwork_url <~
    (if USE_MUSICBRAINZ then musicbrainz_artwork artist album
     else ret None) ;;
  artwork_url <~
    (if negb (truthy artwork_url) && USE_HIRES_PRIORITY
     then fetch_itunes_artwork artist album
     else ret artwork_url) ;;
  artwork_url <~
    (if negb (truthy artwork_url) && negb NO_LOW_RES
     then fetch_lastfm_artwork artist album
     else ret artwork_url) ;;
  ret artwork_url.

(** [fetch_artwork_for_folder(folder_path)]: the folder afterwards, or
    [Raise] when an exception escapes. *)
Definition fetch_artwork_for_folder (f : folder) : M (result folder) :=
  let cover_path := Str.join (path f) "cover.jpg" in
  match cover f with
  | Some _ =>
      print (CoverExists (path f)) ;;; log (CoverExists (path f)) ;;;
      ret (Ok f)
  | None =>
      match mp3_entries f with
      | [] =>
          print (NoMp3Files (path f)) ;;; log (NoMp3Files (path f)) ;;;
          ret (Ok f)
      | first :: _ =>
          identity <~ get_artist_album_from_id3 (snd first) ;;
          match identity with
          | Raise => ret Raise
          | Ok (artist, album) =>
              print (ProcessingFolder (path f) artist album) ;;;
              artwork_url <~ resolve_artwork artist album ;;
              match artwork_url with
              | Some url =>
                  if Str.truthy url then
                    saved <~ download_artwork url cover_path ;;
                    let after :=
                      match snd saved with
                      | Some bytes =>
                          mkFolder (path f) (Some bytes) (listing f)
                      | None => f
                      end in
                    if fst saved then
                      print (ArtworkSaved artist album cover_path) ;;;
                      log (ArtworkSaved artist album cover_path) ;;;
                      ret (Ok after)
                    else
                      print (DownloadFailed artist album) ;;;
                      log (DownloadFailed artist album) ;;;
                      ret (Ok after)
                  else
                    print (NoArtworkFound artist album) ;;;
                    log (NoArtworkFound artist album) ;;;
                    ret (Ok f)
              | None =>
                  print (NoArtworkFound artist album) ;;;
                  log (NoArtworkFound artist album) ;;;
                  ret (Ok f)
              end
          end
      end
  end.

(** Body of the loop of [process_folder] over the album folders of an
    artist: the folders handed to [fetch_artwork_for_folder]. *)
Definition process_album (artist_path : string) (process_cd_folders : bool)
    (album_entry : string * node) : list string :=
  let album_path := Str.join artist_path (fst album_entry) in
  match snd album_entry with
  | File => []
  | Dir entries =>
      let cd_folders :=
        filter (fun f => Str.startswith (lower f) "cd") (dirnames entries) in
      match cd_folders with
      | _ :: _ =>
          if process_cd_folders
          then map (Str.join album_path) cd_folders
          else [album_path]
      | [] => [album_path]
      end
  end.

(** [process_folder(root_folder, process_cd_folders)]: the folders handed
    to [fetch_artwork_for_folder], artist by artist in sorted order. *)
Definition process_folder (root_folder : string) (tree : node)
    (process_cd_folders : bool) : list string :=
  match tree with
  | File => []
  | Dir entries =>
      let artist_folders :=
        Str.sort_by fst (filter (fun e => is_dir (snd e)) entries) in
      flat_map
        (fun artist_entry =>
           let artist_path := Str.join root_folder (fst artist_entry) in
           match snd artist_entry with
           | File => []
           | Dir albums =>
               flat_map (process_album artist_path process_cd_folders) albums
           end)
        artist_folders
  end.

Variable ROOT_MUSIC_DIR : string.
Variable library : node.
Variable isdir : string -> bool.

(** [main()], from the arguments that [parser.parse_args()] returned (on
    [-h] and on a command line it does not accept, argparse itself ends
    the run there, with status 0 and status 2). *)
Definition main (a : args) : run :=
  if negb (any_flag a) then Exit 1
  else if input_given a then
    if negb (isdir (input_value a)) then Exit 1
    else Visited [input_value a]
  else if all a then
    if negb (is_dir library) then Exit 1
    else Visited (process_folder ROOT_MUSIC_DIR library (cd a))
  else Visited [].

End Config.

End Id3tocovr.

(** ** Sample data *)

Module Sample.

Import PIL Mutagen.

Definition jpeg (w h : Z) : data := Picture (mkImage "JPEG" "RGB" w h).
Definition png (m : string) (w h : Z) : data := Picture (mkImage "PNG" m w h).

(** A tag with an artist, an album and one picture. *)
Definition tag_with (d : data) : ID3 :=
  [("TPE1", TextFrame "TPE1" ["Zac Brown Band"]);
   ("TALB", TextFrame "TALB" ["Uncaged"]);
   ("APIC:", APIC 3 "image/jpeg" 3 "" d)].

Definition album_path : string := "/music/Zac Brown Band/Uncaged (2012)".

(** A folder without cover whose files each carry one picture. *)
Definition album_of (files : list (string * data)) : folder :=
  mkFolder album_path None
    (map (fun nd => (fst nd, Some (tag_with (snd nd)))) files).

(** A provider that serves a PNG image. *)
Definition png_server (url : string) : result Id3tocovr.response :=
  Ok (Id3tocovr.mkResponse 200 (Some "image/png")
        (Id3tocovr.Complete (png "RGB" 500 500))).

(** A provider whose connection breaks after the first bytes of a JPEG
    file have arrived. *)
Definition first_bytes : data :=
  Raw [Byte.xff; Byte.xd8; Byte.xff; Byte.xe0].
Definition broken_server (url : string) : result Id3tocovr.response :=
  Ok (Id3tocovr.mkResponse 200 (Some "image/jpeg")
        (Id3tocovr.Interrupted first_bytes)).

Definition quiet : Id3tocovr.world := Id3tocovr.mkWorld [] [] [].

(** Providers that know no album. *)
Definition no_release (artist album : string)
  : result (option (list string)) := Ok None.
Definition no_images (release_id : string)
  : result (option (list (bool * string))) := Ok None.
Definition no_album (album : string) : result (list (string * string)) :=
  Ok [].
Definition no_cover (artist album : string) : result (option string) :=
  Ok None.
Definition frame_name (f : frame) : string := HashKey f.

(** Two enumerations of the same two files. *)
Definition b_then_a : folder :=
  album_of [("b.mp3", jpeg 300 300); ("a.mp3", jpeg 500 500)].
Definition a_then_b : folder :=
  album_of [("a.mp3", jpeg 500 500); ("b.mp3", jpeg 300 300)].

(** A library with one artist and one album of two discs. *)
Definition library : node :=
  Dir [("Zac Brown Band",
        Dir [("Uncaged (2012)",
              Dir [("CD 1", Dir [("01.mp3", File)]);
                   ("CD 2", Dir [("01.mp3", File)]);
                   ("cover.jpg", File)])])].

Definition everything_is_dir (p : string) : bool := true.

(** [-a -c], [-a] and [-c] *)
Definition all_and_cd : args := mkArgs true true None.
Definition all_only : args := mkArgs true false None.
Definition cd_only : args := mkArgs false true None.

(** Providers that know one release with a back and a front image. *)
Definition one_release (artist album : string)
  : result (option (list string)) := Ok (Some ["mbid-1"]).
Definition back_and_front (release_id : string)
  : result (option (list (bool * string))) :=
  Ok (Some [(false, "https://coverartarchive.org/back.jpg");
            (true, "https://coverartarchive.org/front.png")]).

(** A configuration file with every section and field but [MIN_RES]. *)
Definition any_section (section : string) : bool := true.
Definition all_but_min_res (section field : string) : bool :=
  negb (String.eqb field "MIN_RES").

(** A folder with a cover and no other entry, and an empty scratch file. *)
Definition cover_only (d : data) : EmbedArtwork.files :=
  EmbedArtwork.mkFiles (mkFolder album_path (Some d) []) None.

End Sample.

(** * Properties *)

(** ** The model on sample data *)

Module Tests.

Import PIL Mutagen.

Example endswith_mp3 :
  Str.endswith "01 - Jump Right In.mp3" ".mp3" = true
  /\ Str.endswith "01.mp3.bak" ".mp3" = false
  /\ Str.endswith "mp3" ".mp3" = false.
Proof. repeat split. Qed.

Example join_paths :
  Str.join "/music" "CD 1" = "/music/CD 1"
  /\ Str.join "/music/" "CD 1" = "/music/CD 1".
Proof. repeat split. Qed.

Example sort_names :
  Str.sort_by (fun name => name) ["b"; "a"; "B"; "ab"] = ["B"; "a"; "ab"; "b"].
Proof. reflexivity. Qed.

Example large_cover_resized :
  EmbedArtwork.create_temp_cover pillow_writer (Sample.jpeg 1400 1000) 600
  = Ok (Sample.jpeg 600 600).
Proof. reflexivity. Qed.

Example palette_cover_converted :
  EmbedArtwork.create_temp_cover pillow_writer (Sample.png "P" 300 200) 600
  = Ok (Sample.jpeg 300 200).
Proof. reflexivity. Qed.

Example remove_artwork_sample :
  EmbedArtwork.remove_artwork "01.mp3" (Sample.tag_with (Sample.jpeg 300 300))
  = (true,
     [("TPE1", TextFrame "TPE1" ["Zac Brown Band"]);
      ("TALB", TextFrame "TALB" ["Uncaged"])],
     [EmbedArtwork.RemovedArtwork "01.mp3"]).
Proof. reflexivity. Qed.

(** A folder with a cover of 1400 by 1400 pixels: the file that holds
    the same picture is kept, the file with a smaller one gets the
    resized cover. *)
Example embedding_pass :
  listing
    (EmbedArtwork.album
       (fst (EmbedArtwork.process_folder pillow_writer 600
               (EmbedArtwork.mkFiles
                  (mkFolder Sample.album_path (Some (Sample.jpeg 1400 1400))
                     [("01.mp3", Some (Sample.tag_with (Sample.jpeg 1400 1400)));
                      ("02.mp3", Some (Sample.tag_with (Sample.jpeg 300 300)));
                      ("notes.txt", None)])
                  None))))
  = [("01.mp3", Some (Sample.tag_with (Sample.jpeg 1400 1400)));
     ("02.mp3",
      Some [("TPE1", TextFrame "TPE1" ["Zac Brown Band"]);
            ("TALB", TextFrame "TALB" ["Uncaged"]);
            ("APIC:Cover",
             APIC 3 "image/jpeg" 3 "Cover" (Sample.jpeg 600 600))]);
     ("notes.txt", None)].
Proof. reflexivity. Qed.

(** Only the first picture of a tag is compared with the cover: a tag
    that opens with an icon of 32 by 32 pixels loses its second picture
    of 2000 by 2000 pixels to a cover of 600 by 600 pixels. *)
Example first_picture_decides :
  fst (EmbedArtwork.process_music_file Sample.album_path
         (Sample.jpeg 600 600)
         ("01.mp3",
          Some [("APIC:icon",
                 APIC 3 "image/png" 1 "icon" (Sample.png "RGB" 32 32));
                ("APIC:", APIC 3 "image/jpeg" 3 "" (Sample.jpeg 2000 2000))]))
  = Some [("APIC:Cover",
           APIC 3 "image/jpeg" 3 "Cover" (Sample.jpeg 600 600))].
Proof. reflexivity. Qed.

(** With every source switched off nothing is requested. *)
Example no_source_enabled :
  Id3tocovr.resolve_artwork false false true Str.lower Sample.no_release
    Sample.no_images Sample.no_album Sample.no_cover
    "Zac Brown Band" "Uncaged" Sample.quiet
  = (None, Sample.quiet).
Proof. reflexivity. Qed.

(** A transfer that breaks off: the bytes received stay in [cover.jpg]
    and the run reports a failed download. *)
Example broken_transfer_leaves_cover :
  Id3tocovr.fetch_artwork_for_folder true true false Str.lower
    Sample.frame_name Sample.one_release Sample.back_and_front
    Sample.no_album Sample.no_cover Sample.broken_server
    (Sample.album_of [("01.mp3", Sample.jpeg 300 300)]) Sample.quiet
  = (Ok (mkFolder Sample.album_path (Some Sample.first_bytes)
           [("01.mp3", Some (Sample.tag_with (Sample.jpeg 300 300)))]),
     Id3tocovr.mkWorld
       [Id3tocovr.MusicBrainzSearch "Zac Brown Band" "Uncaged";
        Id3tocovr.CoverArtArchive "mbid-1";
        Id3tocovr.Download "https://coverartarchive.org/front.png"]
       [Id3tocovr.ProcessingFolder Sample.album_path
          "Zac Brown Band" "Uncaged";
        Id3tocovr.DownloadFailed "Zac Brown Band" "Uncaged"]
       [Id3tocovr.DownloadError;
        Id3tocovr.DownloadFailed "Zac Brown Band" "Uncaged"]).
Proof. reflexivity. Qed.

(** [id3tocovr.py -c] without [-a] visits nothing. *)
Example id3tocovr_cd_alone :
  Id3tocovr.main Str.lower "/music" Sample.library Sample.everything_is_dir
    Sample.cd_only
  = Visited [].
Proof. reflexivity. Qed.

End Tests.

(** ** Tags *)

Module TagFacts.

Import PIL Mutagen EmbedArtwork.

Lemma filter_twice {A : Type} (f g : A -> bool) (l : list A) :
  filter f (filter g l) = filter (fun x => g x && f x) l.
Proof.
  induction l as [|x l IH]; simpl; [reflexivity|].
  destruct (g x); simpl; [destruct (f x)|]; rewrite IH; reflexivity.
Qed.

Lemma remove_artwork_fold (filename : string) (ks : list string) :
  forall (b : bool) (t : ID3) (out : list message),
    snd (fst
      (fold_left
         (fun (acc : bool * ID3 * list message) (tag : string) =>
            let '(artwork_removed, t, out) := acc in
            if Str.startswith tag "APIC"
            then (true, delete tag t, out ++ [RemovedArtwork filename])
            else acc)
         ks (b, t, out)))
    = filter
        (fun kf =>
           negb (existsb (fun k => picture_key k && String.eqb k (fst kf)) ks))
        t.
Proof.
  induction ks as [|k ks IH]; intros b t out; simpl.
  - symmetry. apply forallb_filter_id. apply forallb_forall. reflexivity.
  - fold (picture_key k). destruct (picture_key k) eqn:Hk.
    + rewrite IH. unfold delete. rewrite filter_twice.
      apply filter_ext. intros [k' f]; simpl.
      destruct (String.eqb k k'); simpl; reflexivity.
    + rewrite IH. reflexivity.
Qed.

(** [remove_artwork] leaves exactly the entries whose key does not start
    with [APIC]. *)
Lemma remove_artwork_tag (filename : string) (t : ID3) :
  snd (fst (remove_artwork filename t))
  = filter (fun kf => negb (picture_key (fst kf))) t.
Proof.
  unfold remove_artwork. rewrite remove_artwork_fold.
  apply filter_ext_in. intros [k f] Hin; simpl. f_equal.
  destruct (picture_key k) eqn:Hk.
  - apply existsb_exists. exists k. split.
    + unfold keys. apply in_map_iff. exists (k, f). auto.
    + rewrite Hk, String.eqb_refl. reflexivity.
  - destruct (existsb _ (keys t)) eqn:He; [|reflexivity].
    apply existsb_exists in He. destruct He as [k' [_ Hk']].
    apply andb_true_iff in Hk'. destruct Hk' as [Hp He].
    apply String.eqb_eq in He. subst k'. congruence.
Qed.

Lemma get_none_not_key (k : string) (t : ID3) :
  (forall kf, In kf t -> fst kf <> k) -> get k t = None.
Proof.
  induction t as [|[k' f] t IH]; intros H; simpl; [reflexivity|].
  destruct (String.eqb k k') eqn:E.
  - apply String.eqb_eq in E. exfalso. apply (H (k', f)); simpl; auto.
  - apply IH. intros kf Hin. apply H. simpl; auto.
Qed.

Lemma set_fresh (k : string) (f : frame) (t : ID3) :
  (forall kf, In kf t -> fst kf <> k) -> set k f t = t ++ [(k, f)].
Proof.
  induction t as [|[k' f'] t IH]; intros H; simpl; [reflexivity|].
  destruct (String.eqb k k') eqn:E.
  - apply String.eqb_eq in E. exfalso. apply (H (k', f')); simpl; auto.
  - f_equal. apply IH. intros kf Hin. apply H. simpl; auto.
Qed.

(** After [remove_artwork] the key of the new picture is free. *)
Lemma remove_artwork_frees_key (filename : string) (t : ID3) (d : data) :
  get (HashKey (cover_frame d)) (snd (fst (remove_artwork filename t))) = None.
Proof.
  apply get_none_not_key. intros [k f] Hin. rewrite remove_artwork_tag in Hin.
  apply filter_In in Hin. destruct Hin as [_ Hk]. simpl in *.
  intros ->. discriminate Hk.
Qed.

Lemma count_APIC_pictures (t : ID3) :
  count_APIC t = List.length (pictures t).
Proof. reflexivity. Qed.

Lemma keyed_removed (t : ID3) :
  keyed t ->
  filter (fun kf => negb (picture_key (fst kf))) t = other_frames t.
Proof.
  intros H. unfold other_frames. apply filter_ext_in.
  intros kf Hin. unfold keyed in H. rewrite Forall_forall in H.
  destruct (H kf Hin) as [_ ->]. reflexivity.
Qed.

Lemma pictures_other_frames (t : ID3) : pictures (other_frames t) = [].
Proof.
  unfold pictures, other_frames, values.
  induction t as [|[k f] t IH]; simpl; [reflexivity|].
  destruct (is_APIC f) eqn:E; simpl; [exact IH|]. rewrite E. exact IH.
Qed.

Lemma embedded_keyed (music_path : string) (new_cover : data) (t : ID3) :
  keyed t ->
  embedded music_path new_cover t
  = other_frames t ++ [("APIC:Cover", cover_frame new_cover)].
Proof.
  intros H. unfold embedded, add.
  rewrite set_fresh.
  - rewrite remove_artwork_tag, keyed_removed by assumption. reflexivity.
  - intros [k f] Hin. rewrite remove_artwork_tag in Hin.
    apply filter_In in Hin. destruct Hin as [_ Hk]. simpl in *.
    intros ->. discriminate Hk.
Qed.

Lemma embedded_pictures (music_path : string) (new_cover : data) (t : ID3) :
  keyed t ->
  pictures (embedded music_path new_cover t) = [cover_frame new_cover].
Proof.
  intros H. rewrite embedded_keyed by assumption.
  unfold pictures, values. rewrite map_app, filter_app.
  fold (values (other_frames t)). fold (pictures (other_frames t)).
  rewrite pictures_other_frames. reflexivity.
Qed.

End TagFacts.

(** ** The embedding decision *)

Module EmbedFacts.

Import PIL Mutagen EmbedArtwork TagFacts.

(** The two outcomes of the comparison in [process_music_file]. *)
Lemma process_music_file_compare (folder_path : string) (new_cover : data)
    (name : string) (audio : ID3) (ew eh nw nh : Z) :
  get_embedded_artwork_resolution audio = Ok (Some (ew, eh)) ->
  dimensions new_cover = Some (nw, nh) ->
  let music_path := Str.join folder_path name in
  process_music_file folder_path new_cover (name, Some audio)
  = if (ew >=? nw) && (eh >=? nh)
    then (Some audio,
          [Processing music_path; FoundEmbedded ew eh; SkippingEmbedding])
    else (Some (embedded music_path new_cover audio),
          [Processing music_path; FoundEmbedded ew eh]
          ++ snd (remove_artwork music_path audio)
          ++ [EmbeddedArtwork music_path]).
Proof.
  intros He Hd music_path.
  destruct new_cover as [img|raw]; [|discriminate Hd].
  injection Hd as <- <-.
  unfold process_music_file. cbn [fst snd]. fold music_path.
  rewrite He. cbn [PIL.open size].
  destruct ((ew >=? width img) && (eh >=? height img)); [reflexivity|].
  unfold embedded.
  destruct (remove_artwork music_path audio) as [[b t] out]. reflexivity.
Qed.

End EmbedFacts.

Import PIL Mutagen.

(** C1, as the code has it: the candidate cover is compared with the
    first picture frame of the tag, the one whose size
    [get_embedded_artwork_resolution] returns.  The file gets the
    candidate exactly when the candidate is strictly larger than that
    first picture in at least one dimension (width or height); then every
    picture frame is deleted, the candidate is the only picture and the
    other frames are kept.  When that first picture is at least as wide
    and at least as high as the candidate nothing is replaced: the tag is
    left as it was. *)
Theorem embedded_artwork_replaced_iff_smaller_in_a_dimension
    (folder_path : string) (new_cover : data) (name : string)
    (audio : ID3) (ew eh nw nh : Z) :
  keyed audio ->
  EmbedArtwork.get_embedded_artwork_resolution audio = Ok (Some (ew, eh)) ->
  dimensions new_cover = Some (nw, nh) ->
  let music_path := Str.join folder_path name in
  let after :=
    fst (EmbedArtwork.process_music_file folder_path new_cover
           (name, Some audio)) in
  let out :=
    snd (EmbedArtwork.process_music_file folder_path new_cover
           (name, Some audio)) in
  (ew < nw \/ eh < nh ->
   exists t, after = Some t
             /\ pictures t = [EmbedArtwork.cover_frame new_cover]
             /\ other_frames t = other_frames audio
             /\ In (EmbedArtwork.EmbeddedArtwork music_path) out)
  /\ (nw <= ew /\ nh <= eh ->
      after = Some audio
      /\ ~ In (EmbedArtwork.EmbeddedArtwork music_path) out).
Proof.
  intros Hk He Hd music_path after out. subst after out.
  rewrite (@EmbedFacts.process_music_file_compare
             folder_path new_cover name audio ew eh nw nh He Hd).
  fold music_path. split.
  - intros Hlt.
    assert (Hb : (ew >=? nw) && (eh >=? nh) = false).
    { apply andb_false_iff. rewrite !Z.geb_leb, !Z.leb_gt. lia. }
    rewrite Hb. simpl fst. simpl snd.
    exists (EmbedArtwork.embedded music_path new_cover audio).
    split; [reflexivity|]. split.
    + apply TagFacts.embedded_pictures. exact Hk.
    + split.
      * rewrite TagFacts.embedded_keyed by exact Hk.
        unfold other_frames. rewrite filter_app. simpl.
        rewrite app_nil_r. rewrite TagFacts.filter_twice.
        apply filter_ext. intros kf. apply andb_diag.
      * right. right. apply in_or_app. right. simpl. auto.
  - intros [Hw Hh].
    assert (Hb : (ew >=? nw) && (eh >=? nh) = true).
    { apply andb_true_iff. rewrite !Z.geb_leb, !Z.leb_le. lia. }
    rewrite Hb. simpl. split; [reflexivity|].
    intros [H|[H|[H|[]]]]; discriminate H.
Qed.

Lemma embedded_artwork_replaced_iff_smaller_in_a_dimension_witness :
  keyed (Sample.tag_with (Sample.jpeg 500 300))
  /\ EmbedArtwork.get_embedded_artwork_resolution
       (Sample.tag_with (Sample.jpeg 500 300)) = Ok (Some (500, 300))
  /\ dimensions (Sample.jpeg 400 400) = Some (400, 400)
  /\ exists t,
       fst (EmbedArtwork.process_music_file Sample.album_path
              (Sample.jpeg 400 400)
              ("01.mp3", Some (Sample.tag_with (Sample.jpeg 500 300))))
       = Some t
       /\ pictures t = [EmbedArtwork.cover_frame (Sample.jpeg 400 400)].
Proof.
  assert (Hk : keyed (Sample.tag_with (Sample.jpeg 500 300))).
  { repeat constructor. }
  split; [exact Hk|]. split; [reflexivity|]. split; [reflexivity|].
  destruct (@embedded_artwork_replaced_iff_smaller_in_a_dimension
              Sample.album_path (Sample.jpeg 400 400) "01.mp3"
              (Sample.tag_with (Sample.jpeg 500 300)) 500 300 400 400
              Hk eq_refl eq_refl) as [Hreplace _].
  assert (Hlt : 500 < 400 \/ 300 < 400) by (right; lia).
  destruct (Hreplace Hlt) as [t [Ht [Hp _]]].
  exists t. split; assumption.
Defined.

(** C1 as stated fails: artwork of 500x300 pixels is replaced by a
    candidate of 400x400 pixels, which is larger in height only. *)
Lemma replaced_by_candidate_larger_in_height_only :
  ~ (forall (folder_path : string) (new_cover : data) (name : string)
            (audio : ID3) (ew eh nw nh : Z),
        keyed audio ->
        EmbedArtwork.get_embedded_artwork_resolution audio
        = Ok (Some (ew, eh)) ->
        dimensions new_cover = Some (nw, nh) ->
        In (EmbedArtwork.EmbeddedArtwork (Str.join folder_path name))
           (snd (EmbedArtwork.process_music_file folder_path new_cover
                   (name, Some audio))) ->
        ew < nw /\ eh < nh).
Proof.
  intros H.
  assert (Hk : keyed (Sample.tag_with (Sample.jpeg 500 300))).
  { repeat constructor. }
  specialize (H Sample.album_path (Sample.jpeg 400 400) "01.mp3"
                (Sample.tag_with (Sample.jpeg 500 300)) 500 300 400 400
                Hk eq_refl eq_refl).
  assert (Hin : In (EmbedArtwork.EmbeddedArtwork
                      (Str.join Sample.album_path "01.mp3"))
                   (snd (EmbedArtwork.process_music_file Sample.album_path
                           (Sample.jpeg 400 400)
                           ("01.mp3",
                            Some (Sample.tag_with (Sample.jpeg 500 300)))))).
  { vm_compute. right. right. right. left. reflexivity. }
  destruct (H Hin) as [Hw _]. lia.
Qed.

(** ** The image normalizer *)

Module NormalizerFacts.

Import EmbedArtwork.

Section Writer.

Variable writer : jpeg_writer.

Lemma save_jpeg_accepted (f m : string) (w h : Z) :
  accepts writer m w h = true ->
  exists m',
    save_jpeg writer (mkImage f m w h) = Ok (Picture (mkImage "JPEG" m' w h)).
Proof.
  unfold accepts, save_jpeg. cbn [mode width height].
  destruct (writer m w h) as [m'|]; [|discriminate].
  intros _. exists m'. reflexivity.
Qed.

Lemma save_jpeg_refused (f m : string) (w h : Z) :
  accepts writer m w h = false ->
  save_jpeg writer (mkImage f m w h) = Raise.
Proof.
  unfold accepts, save_jpeg. cbn [mode width height].
  destruct (writer m w h); [discriminate|reflexivity].
Qed.

(** The image that is saved, after the conversion to RGB. *)
Lemma save_converted (img : image) :
  save_jpeg writer (if needs_RGB img then convert_RGB img else img)
  = save_jpeg writer
      (mkImage (format img) (mode_to_save img) (width img) (height img)).
Proof.
  unfold mode_to_save. destruct (needs_RGB img); [reflexivity|].
  destruct img; reflexivity.
Qed.

(** Without a resize the image is written at its own size. *)
Lemma create_temp_cover_keep (img : image) (temp_res : Z) :
  (width img >=? temp_res) && (height img >=? temp_res) = false ->
  create_temp_cover writer (Picture img) temp_res
  = save_jpeg writer
      (mkImage (format img) (mode_to_save img) (width img) (height img)).
Proof.
  intros Hc. rewrite <- save_converted.
  unfold create_temp_cover. cbn [PIL.open bind].
  destruct (needs_RGB img); cbn [convert_RGB width height]; rewrite Hc;
    reflexivity.
Qed.

(** With a resize it is written at [temp_res] by [temp_res]. *)
Lemma create_temp_cover_resize (img : image) (temp_res : Z) :
  (width img >=? temp_res) && (height img >=? temp_res) = true ->
  1 <= temp_res ->
  create_temp_cover writer (Picture img) temp_res
  = save_jpeg writer
      (mkImage (format img) (mode_to_save img) temp_res temp_res).
Proof.
  intros Hc HR. unfold create_temp_cover, mode_to_save. cbn [PIL.open bind].
  assert (Hr : (temp_res <? 1) || (temp_res <? 1) = false).
  { apply orb_false_iff. rewrite Z.ltb_ge. split; exact HR. }
  destruct (needs_RGB img); cbn [convert_RGB width height]; rewrite Hc;
    unfold resize; rewrite Hr; reflexivity.
Qed.

(** Below one pixel the resize raises. *)
Lemma create_temp_cover_no_pixel (img : image) (temp_res : Z) :
  (width img >=? temp_res) && (height img >=? temp_res) = true ->
  temp_res < 1 ->
  create_temp_cover writer (Picture img) temp_res = Raise.
Proof.
  intros Hc HR. unfold create_temp_cover. cbn [PIL.open bind].
  assert (Hr : (temp_res <? 1) || (temp_res <? 1) = true).
  { apply orb_true_iff. left. apply Z.ltb_lt. exact HR. }
  destruct (needs_RGB img); cbn [convert_RGB width height]; rewrite Hc;
    unfold resize; rewrite Hr; reflexivity.
Qed.

End Writer.

End NormalizerFacts.

Module PrepareFacts.

Import EmbedArtwork NormalizerFacts.

(** [prepare_cover] on a cover that decodes and that the conversion step
    lets through: below the threshold it is taken as it is, otherwise
    [create_temp_cover] decides. *)
Lemma prepare_cover_picture (writer : jpeg_writer) (TEMP_RES : Z)
    (fs : files) (img : image) :
  cover (album fs) = Some (Picture img) ->
  String.eqb (format img) "JPEG" = true
  \/ accepts writer (mode_to_save img) (width img) (height img) = true ->
  exists tmp,
    fst (prepare_cover writer TEMP_RES fs)
    = if (width img <? TEMP_RES) && (height img <? TEMP_RES)
      then (Some (Picture img), tmp)
      else match create_temp_cover writer (Picture img) TEMP_RES with
           | Ok d => (Some d, Some d)
           | Raise => (None, tmp)
           end.
Proof.
  intros Hc Hok. unfold prepare_cover. rewrite Hc.
  cbn [is_empty PIL.open check_cover_resolution bind size].
  destruct (String.eqb (format img) "JPEG") eqn:Hf; cbn [negb].
  - exists (temp_cover fs).
    destruct ((width img <? TEMP_RES) && (height img <? TEMP_RES));
      [reflexivity|].
    destruct (create_temp_cover writer (Picture img) TEMP_RES); reflexivity.
  - destruct Hok as [Hok|Hok]; [discriminate|].
    rewrite save_converted.
    destruct (save_jpeg_accepted writer (format img) _ _ _ Hok) as [m' Hs].
    rewrite Hs. cbn [bind].
    exists (Some (Picture (mkImage "JPEG" m' (width img) (height img)))).
    destruct ((width img <? TEMP_RES) && (height img <? TEMP_RES));
      [reflexivity|].
    destruct (create_temp_cover writer (Picture img) TEMP_RES); reflexivity.
Qed.

(** [prepare_cover] on a cover that is not a JPEG file and that the
    writer refuses: the folder is given up at the conversion step. *)
Lemma prepare_cover_refused (writer : jpeg_writer) (TEMP_RES : Z)
    (fs : files) (img : image) :
  cover (album fs) = Some (Picture img) ->
  String.eqb (format img) "JPEG" = false ->
  accepts writer (mode_to_save img) (width img) (height img) = false ->
  prepare_cover writer TEMP_RES fs
  = (None, temp_cover fs,
     [FoundCover (path (album fs)) (format img);
      Converting (format img);
      CoverInvalid (path (album fs))]).
Proof.
  intros Hc Hf Hno. unfold prepare_cover. rewrite Hc.
  cbn [is_empty PIL.open]. rewrite Hf. cbn [negb].
  rewrite save_converted.
  rewrite (save_jpeg_refused writer (format img) _ _ _ Hno). reflexivity.
Qed.

(** The lines [prepare_cover] prints for a cover that decodes and that
    the conversion step lets through. *)
Lemma prepare_cover_lines (writer : jpeg_writer) (TEMP_RES : Z)
    (fs : files) (img : image) :
  cover (album fs) = Some (Picture img) ->
  String.eqb (format img) "JPEG" = true
  \/ accepts writer (mode_to_save img) (width img) (height img) = true ->
  snd (prepare_cover writer TEMP_RES fs)
  = (FoundCover (path (album fs)) (format img)
     :: (if String.eqb (format img) "JPEG" then []
         else [Converting (format img); Converted]))
    ++ [if (width img <? TEMP_RES) && (height img <? TEMP_RES)
        then AlreadySmaller (path (album fs))
        else match create_temp_cover writer (Picture img) TEMP_RES with
             | Ok _ => CreatedResized
             | Raise => ResizeError (path (album fs))
             end].
Proof.
  intros Hc Hok. unfold prepare_cover. rewrite Hc.
  cbn [is_empty PIL.open check_cover_resolution bind size].
  destruct (String.eqb (format img) "JPEG") eqn:Hf; cbn [negb].
  - destruct ((width img <? TEMP_RES) && (height img <? TEMP_RES));
      [reflexivity|].
    destruct (create_temp_cover writer (Picture img) TEMP_RES); reflexivity.
  - destruct Hok as [Hok|Hok]; [discriminate|].
    rewrite save_converted.
    destruct (save_jpeg_accepted writer (format img) _ _ _ Hok) as [m' Hs].
    rewrite Hs. cbn [bind].
    destruct ((width img <? TEMP_RES) && (height img <? TEMP_RES));
      [reflexivity|].
    destruct (create_temp_cover writer (Picture img) TEMP_RES); reflexivity.
Qed.

(** A folder for which [prepare_cover] has no cover is left as it is. *)
Lemma process_folder_skipped (writer : jpeg_writer) (TEMP_RES : Z)
    (fs : files) :
  fst (fst (prepare_cover writer TEMP_RES fs)) = None ->
  album (fst (process_folder writer TEMP_RES fs)) = album fs
  /\ snd (process_folder writer TEMP_RES fs)
     = snd (prepare_cover writer TEMP_RES fs).
Proof.
  unfold process_folder.
  destruct (prepare_cover writer TEMP_RES fs) as [[[c|] tmp] out];
    cbn [fst snd]; [discriminate|].
  intros _. split; reflexivity.
Qed.

(** What a folder given up at the conversion step looks like. *)
Lemma skipped_at_conversion (writer : jpeg_writer) (TEMP_RES : Z)
    (fs : files) (img : image) :
  cover (album fs) = Some (Picture img) ->
  String.eqb (format img) "JPEG" = false ->
  accepts writer (mode_to_save img) (width img) (height img) = false ->
  fst (fst (prepare_cover writer TEMP_RES fs)) = None
  /\ album (fst (process_folder writer TEMP_RES fs)) = album fs
  /\ snd (process_folder writer TEMP_RES fs)
     = [FoundCover (path (album fs)) (format img);
        Converting (format img);
        CoverInvalid (path (album fs))].
Proof.
  intros Hc Hf Hno.
  pose proof (prepare_cover_refused writer TEMP_RES fs img Hc Hf Hno) as Hp.
  assert (Hn : fst (fst (prepare_cover writer TEMP_RES fs)) = None)
    by (rewrite Hp; reflexivity).
  destruct (process_folder_skipped writer TEMP_RES fs Hn) as [Ha Ho].
  split; [exact Hn|]. split; [exact Ha|]. rewrite Ho, Hp. reflexivity.
Qed.

(** What a folder given up at the call of [create_temp_cover] looks
    like. *)
Lemma skipped_at_resize (writer : jpeg_writer) (TEMP_RES : Z)
    (fs : files) (img : image) :
  cover (album fs) = Some (Picture img) ->
  String.eqb (format img) "JPEG" = true
  \/ accepts writer (mode_to_save img) (width img) (height img) = true ->
  (width img <? TEMP_RES) && (height img <? TEMP_RES) = false ->
  create_temp_cover writer (Picture img) TEMP_RES = Raise ->
  fst (fst (prepare_cover writer TEMP_RES fs)) = None
  /\ album (fst (process_folder writer TEMP_RES fs)) = album fs
  /\ snd (process_folder writer TEMP_RES fs)
     = (FoundCover (path (album fs)) (format img)
        :: (if String.eqb (format img) "JPEG" then []
            else [Converting (format img); Converted]))
       ++ [ResizeError (path (album fs))].
Proof.
  intros Hc Hok Hbig Hraise.
  destruct (prepare_cover_picture writer TEMP_RES fs img Hc Hok) as [tmp Hp].
  rewrite Hbig, Hraise in Hp.
  assert (Hn : fst (fst (prepare_cover writer TEMP_RES fs)) = None)
    by (rewrite Hp; reflexivity).
  destruct (process_folder_skipped writer TEMP_RES fs Hn) as [Ha Ho].
  split; [exact Hn|]. split; [exact Ha|].
  rewrite Ho, (prepare_cover_lines writer TEMP_RES fs img Hc Hok).
  rewrite Hbig, Hraise. reflexivity.
Qed.

End PrepareFacts.

(** C3, as the code has it: for a source image whose width and height are
    both below the target resolution, [create_temp_cover] keeps the pixel
    dimensions and writes a JPEG when the JPEG writer takes the image (in
    its colour mode after RGBA and P have become RGB), and raises when it
    does not.  The engine does not call [create_temp_cover] for such a
    cover: a cover file that is a JPEG is the cover it embeds, as it is,
    and nothing is written to the scratch file; a cover file in another
    format that the writer refuses makes it give the folder up at the
    conversion step, with no audio file changed. *)
Theorem small_image_keeps_dimensions (writer : jpeg_writer) (temp_res : Z)
    (img : image) :
  width img < temp_res ->
  height img < temp_res ->
  (accepts writer (EmbedArtwork.mode_to_save img) (width img) (height img)
   = true ->
   exists out,
     EmbedArtwork.create_temp_cover writer (Picture img) temp_res = Ok out
     /\ is_jpeg out = true
     /\ dimensions out = Some (width img, height img))
  /\ (accepts writer (EmbedArtwork.mode_to_save img) (width img) (height img)
      = false ->
      EmbedArtwork.create_temp_cover writer (Picture img) temp_res = Raise)
  /\ (forall fs : EmbedArtwork.files,
        cover (EmbedArtwork.album fs) = Some (Picture img) ->
        (String.eqb (format img) "JPEG" = true ->
         EmbedArtwork.prepare_cover writer temp_res fs
         = (Some (Picture img), EmbedArtwork.temp_cover fs,
            [EmbedArtwork.FoundCover (path (EmbedArtwork.album fs))
               (format img);
             EmbedArtwork.AlreadySmaller (path (EmbedArtwork.album fs))]))
        /\ (String.eqb (format img) "JPEG" = false ->
            accepts writer (EmbedArtwork.mode_to_save img)
              (width img) (height img) = false ->
            fst (fst (EmbedArtwork.prepare_cover writer temp_res fs)) = None
            /\ EmbedArtwork.album
                 (fst (EmbedArtwork.process_folder writer temp_res fs))
               = EmbedArtwork.album fs
            /\ snd (EmbedArtwork.process_folder writer temp_res fs)
               = [EmbedArtwork.FoundCover (path (EmbedArtwork.album fs))
                    (format img);
                  EmbedArtwork.Converting (format img);
                  EmbedArtwork.CoverInvalid
                    (path (EmbedArtwork.album fs))])).
Proof.
  intros Hw Hh.
  assert (Hc : (width img >=? temp_res) && (height img >=? temp_res) = false).
  { apply andb_false_iff. left. rewrite Z.geb_leb. apply Z.leb_gt. exact Hw. }
  assert (Hs : (width img <? temp_res) && (height img <? temp_res) = true).
  { apply andb_true_iff. rewrite !Z.ltb_lt. split; assumption. }
  split; [|split].
  - intros He. rewrite NormalizerFacts.create_temp_cover_keep by exact Hc.
    destruct (NormalizerFacts.save_jpeg_accepted writer (format img) _ _ _ He)
      as [m' Hm].
    rewrite Hm. eexists. split; [reflexivity|]. split; reflexivity.
  - intros He. rewrite NormalizerFacts.create_temp_cover_keep by exact Hc.
    apply NormalizerFacts.save_jpeg_refused. exact He.
  - intros fs Hcov. split.
    + intros Hf. unfold EmbedArtwork.prepare_cover. rewrite Hcov.
      cbn [is_empty PIL.open EmbedArtwork.check_cover_resolution bind size].
      rewrite Hf, Hs. reflexivity.
    + intros Hf Hno.
      exact (PrepareFacts.skipped_at_conversion writer temp_res fs img
               Hcov Hf Hno).
Qed.

(** An RGBA image of 300 by 200 pixels, normalized for 600 pixels. *)
Lemma small_image_keeps_dimensions_witness :
  width (mkImage "PNG" "RGBA" 300 200) < 600
  /\ height (mkImage "PNG" "RGBA" 300 200) < 600
  /\ exists out,
       EmbedArtwork.create_temp_cover pillow_writer
         (Sample.png "RGBA" 300 200) 600 = Ok out
       /\ is_jpeg out = true
       /\ dimensions out = Some (300, 200).
Proof.
  assert (Hw : width (mkImage "PNG" "RGBA" 300 200) < 600) by (simpl; lia).
  assert (Hh : height (mkImage "PNG" "RGBA" 300 200) < 600) by (simpl; lia).
  split; [exact Hw|]. split; [exact Hh|].
  destruct (@small_image_keeps_dimensions pillow_writer 600
              (mkImage "PNG" "RGBA" 300 200) Hw Hh) as [Hnorm _].
  exact (Hnorm eq_refl).
Defined.

(** C3 as stated fails on both readings of "Image Normalizer": a small
    grey image with an alpha channel (mode LA) makes [create_temp_cover]
    raise, and a small PNG cover goes through the engine without being
    re-encoded. *)
Lemma small_image_not_always_reencoded :
  ~ (forall (temp_res : Z) (img : image),
        width img < temp_res -> height img < temp_res ->
        exists out,
          EmbedArtwork.create_temp_cover pillow_writer (Picture img) temp_res
          = Ok out
          /\ is_jpeg out = true
          /\ dimensions out = Some (width img, height img))
  /\ ~ (forall (temp_res : Z) (img : image) (fs : EmbedArtwork.files),
          width img < temp_res -> height img < temp_res ->
          cover (EmbedArtwork.album fs) = Some (Picture img) ->
          exists out,
            fst (fst (EmbedArtwork.prepare_cover pillow_writer temp_res fs))
            = Some out
            /\ is_jpeg out = true
            /\ dimensions out = Some (width img, height img)).
Proof.
  split.
  - intros H.
    destruct (H 600 (mkImage "PNG" "LA" 300 200)) as [out [Ho _]];
      [simpl; lia|simpl; lia|].
    vm_compute in Ho. discriminate Ho.
  - intros H.
    destruct (H 600 (mkImage "PNG" "RGB" 300 200)
                (Sample.cover_only (Sample.png "RGB" 300 200)))
      as [out [Ho [Hj _]]]; [simpl; lia|simpl; lia|reflexivity|].
    vm_compute in Ho. injection Ho as <-. vm_compute in Hj. discriminate Hj.
Qed.

(** C4, as the code has it: for a target resolution of at least one pixel
    and a source image at least that wide and that high, [create_temp_cover]
    writes a JPEG of exactly [temp_res] by [temp_res] pixels when the JPEG
    writer takes the resized image (in its colour mode after RGBA and P
    have become RGB), and raises when it does not.  In the engine that
    file is the cover to embed when the cover file is a JPEG or passed the
    conversion step.  The folder is given up, with no audio file changed,
    when the writer refuses: at the conversion step for a cover file that
    is not a JPEG and is refused at its own size, at the call of
    [create_temp_cover] otherwise. *)
Theorem large_image_resized_to_square (writer : jpeg_writer) (temp_res : Z)
    (img : image) :
  1 <= temp_res ->
  temp_res <= width img ->
  temp_res <= height img ->
  (accepts writer (EmbedArtwork.mode_to_save img) temp_res temp_res = true ->
   exists out,
     EmbedArtwork.create_temp_cover writer (Picture img) temp_res = Ok out
     /\ is_jpeg out = true
     /\ dimensions out = Some (temp_res, temp_res)
     /\ forall fs : EmbedArtwork.files,
          cover (EmbedArtwork.album fs) = Some (Picture img) ->
          String.eqb (format img) "JPEG" = true
          \/ accepts writer (EmbedArtwork.mode_to_save img)
               (width img) (height img) = true ->
          fst (EmbedArtwork.prepare_cover writer temp_res fs)
          = (Some out, Some out))
  /\ (accepts writer (EmbedArtwork.mode_to_save img) temp_res temp_res
      = false ->
      EmbedArtwork.create_temp_cover writer (Picture img) temp_res = Raise)
  /\ (forall fs : EmbedArtwork.files,
        cover (EmbedArtwork.album fs) = Some (Picture img) ->
        (String.eqb (format img) "JPEG" = false ->
         accepts writer (EmbedArtwork.mode_to_save img)
           (width img) (height img) = false ->
         fst (fst (EmbedArtwork.prepare_cover writer temp_res fs)) = None
         /\ EmbedArtwork.album
              (fst (EmbedArtwork.process_folder writer temp_res fs))
            = EmbedArtwork.album fs
         /\ snd (EmbedArtwork.process_folder writer temp_res fs)
            = [EmbedArtwork.FoundCover (path (EmbedArtwork.album fs))
                 (format img);
               EmbedArtwork.Converting (format img);
               EmbedArtwork.CoverInvalid (path (EmbedArtwork.album fs))])
        /\ (String.eqb (format img) "JPEG" = true
            \/ accepts writer (EmbedArtwork.mode_to_save img)
                 (width img) (height img) = true ->
            accepts writer (EmbedArtwork.mode_to_save img) temp_res temp_res
            = false ->
            fst (fst (EmbedArtwork.prepare_cover writer temp_res fs)) = None
            /\ EmbedArtwork.album
                 (fst (EmbedArtwork.process_folder writer temp_res fs))
               = EmbedArtwork.album fs
            /\ snd (EmbedArtwork.process_folder writer temp_res fs)
               = (EmbedArtwork.FoundCover (path (EmbedArtwork.album fs))
                    (format img)
                  :: (if String.eqb (format img) "JPEG" then []
                      else [EmbedArtwork.Converting (format img);
                            EmbedArtwork.Converted]))
                 ++ [EmbedArtwork.ResizeError
                       (path (EmbedArtwork.album fs))])).
Proof.
  intros HR Hw Hh.
  assert (Hc : (width img >=? temp_res) && (height img >=? temp_res) = true).
  { apply andb_true_iff. rewrite !Z.geb_leb, !Z.leb_le. split; assumption. }
  assert (Hs' : (width img <? temp_res) && (height img <? temp_res) = false).
  { apply andb_false_iff. left. apply Z.ltb_ge. exact Hw. }
  assert (Hno : accepts writer (EmbedArtwork.mode_to_save img)
                  temp_res temp_res = false ->
                EmbedArtwork.create_temp_cover writer (Picture img) temp_res
                = Raise).
  { intros He. rewrite NormalizerFacts.create_temp_cover_resize by assumption.
    apply NormalizerFacts.save_jpeg_refused. exact He. }
  split; [|split].
  - intros He.
    destruct (NormalizerFacts.save_jpeg_accepted writer (format img) _ _ _ He)
      as [m' Hs].
    exists (Picture (mkImage "JPEG" m' temp_res temp_res)).
    assert (Hct : EmbedArtwork.create_temp_cover writer (Picture img) temp_res
                  = Ok (Picture (mkImage "JPEG" m' temp_res temp_res))).
    { rewrite NormalizerFacts.create_temp_cover_resize by assumption.
      exact Hs. }
    split; [exact Hct|]. split; [reflexivity|]. split; [reflexivity|].
    intros fs Hcov Hok.
    destruct (PrepareFacts.prepare_cover_picture writer temp_res fs img
                Hcov Hok) as [tmp Hp].
    rewrite Hp, Hct, Hs'. reflexivity.
  - exact Hno.
  - intros fs Hcov. split.
    + intros Hf He.
      exact (PrepareFacts.skipped_at_conversion writer temp_res fs img
               Hcov Hf He).
    + intros Hok He.
      exact (PrepareFacts.skipped_at_resize writer temp_res fs img
               Hcov Hok Hs' (Hno He)).
Qed.

(** A JPEG of 1400 by 1000 pixels, normalized for 600 pixels. *)
Lemma large_image_resized_to_square_witness :
  1 <= 600
  /\ 600 <= width (mkImage "JPEG" "RGB" 1400 1000)
  /\ 600 <= height (mkImage "JPEG" "RGB" 1400 1000)
  /\ exists out,
       EmbedArtwork.create_temp_cover pillow_writer
         (Sample.jpeg 1400 1000) 600 = Ok out
       /\ is_jpeg out = true
       /\ dimensions out = Some (600, 600).
Proof.
  assert (HR : 1 <= 600) by lia.
  assert (Hw : 600 <= width (mkImage "JPEG" "RGB" 1400 1000)) by (simpl; lia).
  assert (Hh : 600 <= height (mkImage "JPEG" "RGB" 1400 1000)) by (simpl; lia).
  split; [exact HR|]. split; [exact Hw|]. split; [exact Hh|].
  destruct (@large_image_resized_to_square pillow_writer 600
              (mkImage "JPEG" "RGB" 1400 1000) HR Hw Hh) as [Hyes _].
  destruct (Hyes eq_refl) as [out [Ho [Hj [Hd _]]]].
  exists out. split; [exact Ho|]. split; [exact Hj|exact Hd].
Defined.

(** C4 as stated fails: a large grey image with an alpha channel (mode
    LA) is not converted, and the JPEG writer refuses it. *)
Lemma large_image_not_always_resized :
  ~ (forall (temp_res : Z) (img : image),
        temp_res <= width img -> temp_res <= height img ->
        exists out,
          EmbedArtwork.create_temp_cover pillow_writer (Picture img) temp_res
          = Ok out
          /\ is_jpeg out = true
          /\ dimensions out = Some (temp_res, temp_res)).
Proof.
  intros H.
  destruct (H 600 (mkImage "PNG" "LA" 1400 1000)) as [out [Ho _]];
    [simpl; lia|simpl; lia|].
  vm_compute in Ho. discriminate Ho.
Qed.

(** C10, as the code has it: when exactly one dimension of the source
    image reaches the target resolution, nothing is resized:
    [create_temp_cover] writes a JPEG at the original width and height
    when the JPEG writer takes the image (in its colour mode after RGBA
    and P have become RGB), and the engine takes that file as the cover
    to embed.  When the writer refuses the image, [create_temp_cover]
    raises and the engine gives the folder up, with no audio file
    changed: at the conversion step for a cover file that is not a JPEG,
    at the call of [create_temp_cover] for one that is. *)
Theorem mixed_image_not_resized (writer : jpeg_writer) (temp_res : Z)
    (img : image) :
  (temp_res <= width img /\ height img < temp_res)
  \/ (width img < temp_res /\ temp_res <= height img) ->
  (accepts writer (EmbedArtwork.mode_to_save img) (width img) (height img)
   = true ->
   exists out,
     EmbedArtwork.create_temp_cover writer (Picture img) temp_res = Ok out
     /\ is_jpeg out = true
     /\ dimensions out = Some (width img, height img)
     /\ forall fs : EmbedArtwork.files,
          cover (EmbedArtwork.album fs) = Some (Picture img) ->
          fst (EmbedArtwork.prepare_cover writer temp_res fs)
          = (Some out, Some out))
  /\ (accepts writer (EmbedArtwork.mode_to_save img) (width img) (height img)
      = false ->
      EmbedArtwork.create_temp_cover writer (Picture img) temp_res = Raise
      /\ forall fs : EmbedArtwork.files,
           cover (EmbedArtwork.album fs) = Some (Picture img) ->
           fst (fst (EmbedArtwork.prepare_cover writer temp_res fs)) = None
           /\ EmbedArtwork.album
                (fst (EmbedArtwork.process_folder writer temp_res fs))
              = EmbedArtwork.album fs
           /\ snd (EmbedArtwork.process_folder writer temp_res fs)
              = EmbedArtwork.FoundCover (path (EmbedArtwork.album fs))
                  (format img)
                :: (if String.eqb (format img) "JPEG"
                    then [EmbedArtwork.ResizeError
                            (path (EmbedArtwork.album fs))]
                    else [EmbedArtwork.Converting (format img);
                          EmbedArtwork.CoverInvalid
                            (path (EmbedArtwork.album fs))])).
Proof.
  intros Hmix.
  assert (Hc : (width img >=? temp_res) && (height img >=? temp_res) = false).
  { apply andb_false_iff. rewrite !Z.geb_leb, !Z.leb_gt. lia. }
  assert (Hs' : (width img <? temp_res) && (height img <? temp_res) = false).
  { apply andb_false_iff. rewrite !Z.ltb_ge. lia. }
  split.
  - intros He.
    destruct (NormalizerFacts.save_jpeg_accepted writer (format img) _ _ _ He)
      as [m' Hs].
    exists (Picture (mkImage "JPEG" m' (width img) (height img))).
    assert (Hct : EmbedArtwork.create_temp_cover writer (Picture img) temp_res
                  = Ok (Picture (mkImage "JPEG" m' (width img) (height img)))).
    { rewrite NormalizerFacts.create_temp_cover_keep by assumption. exact Hs. }
    split; [exact Hct|]. split; [reflexivity|]. split; [reflexivity|].
    intros fs Hcov.
    destruct (PrepareFacts.prepare_cover_picture writer temp_res fs img
                Hcov (or_intror He)) as [tmp Hp].
    rewrite Hp, Hct, Hs'. reflexivity.
  - intros He.
    assert (Hraise : EmbedArtwork.create_temp_cover writer (Picture img)
                       temp_res = Raise).
    { rewrite NormalizerFacts.create_temp_cover_keep by assumption.
      apply NormalizerFacts.save_jpeg_refused. exact He. }
    split; [exact Hraise|].
    intros fs Hcov.
    destruct (String.eqb (format img) "JPEG") eqn:Hf.
    + destruct (PrepareFacts.skipped_at_resize writer temp_res fs img
                  Hcov (or_introl Hf) Hs' Hraise) as [Hn [Ha Ho]].
      split; [exact Hn|]. split; [exact Ha|].
      rewrite Ho, Hf. reflexivity.
    + exact (PrepareFacts.skipped_at_conversion writer temp_res fs img
               Hcov Hf He).
Qed.

(** A JPEG of 1400 by 400 pixels, normalized for 600 pixels. *)
Lemma mixed_image_not_resized_witness :
  ((600 <= width (mkImage "JPEG" "RGB" 1400 400)
    /\ height (mkImage "JPEG" "RGB" 1400 400) < 600)
   \/ (width (mkImage "JPEG" "RGB" 1400 400) < 600
       /\ 600 <= height (mkImage "JPEG" "RGB" 1400 400)))
  /\ exists out,
       EmbedArtwork.create_temp_cover pillow_writer
         (Sample.jpeg 1400 400) 600 = Ok out
       /\ is_jpeg out = true
       /\ dimensions out = Some (1400, 400).
Proof.
  assert (Hmix : (600 <= width (mkImage "JPEG" "RGB" 1400 400)
                  /\ height (mkImage "JPEG" "RGB" 1400 400) < 600)
                 \/ (width (mkImage "JPEG" "RGB" 1400 400) < 600
                     /\ 600 <= height (mkImage "JPEG" "RGB" 1400 400))).
  { left. simpl. lia. }
  split; [exact Hmix|].
  destruct (@mixed_image_not_resized pillow_writer 600
              (mkImage "JPEG" "RGB" 1400 400) Hmix) as [Hyes _].
  destruct (Hyes eq_refl) as [out [Ho [Hj [Hd _]]]].
  exists out. split; [exact Ho|]. split; [exact Hj|exact Hd].
Defined.

(** C10 as stated fails: a wide grey image with an alpha channel (mode
    LA) is not converted, and the JPEG writer refuses it. *)
Lemma mixed_image_not_always_reencoded :
  ~ (forall (temp_res : Z) (img : image),
        (temp_res <= width img /\ height img < temp_res)
        \/ (width img < temp_res /\ temp_res <= height img) ->
        exists out,
          EmbedArtwork.create_temp_cover pillow_writer (Picture img) temp_res
          = Ok out
          /\ is_jpeg out = true
          /\ dimensions out = Some (width img, height img)).
Proof.
  intros H.
  destruct (H 600 (mkImage "PNG" "LA" 1400 400)) as [out [Ho _]];
    [left; simpl; lia|].
  vm_compute in Ho. discriminate Ho.
Qed.

(** ** Writing [cover.jpg] *)

Module CoverFacts.

Import ExportCoverart.

(** What [export_cover_from_mp3] does, by the first MP3 of the listing. *)
Lemma export_cover_from_mp3_first (f : folder) :
  export_cover_from_mp3 f
  = match first_mp3 f with
    | None => (false, f, [NoMp3Found (path f)])
    | Some (name, None) =>
        (false, f, [ErrorProcessing (Str.join (path f) name)])
    | Some (name, Some audio) =>
        match first_picture (values audio) with
        | Some d =>
            (true, mkFolder (path f) (Some d) (listing f),
             [Exported (Str.join (path f) name) (path f)])
        | None => (false, f, [])
        end
    end.
Proof.
  unfold export_cover_from_mp3, first_mp3.
  destruct (mp3_entries f) as [|[name [audio|]] rest]; reflexivity.
Qed.

Lemma export_true (f f' : folder) (out : list message) :
  export_cover_from_mp3 f = (true, f', out) ->
  exists name audio d,
    first_mp3 f = Some (name, Some audio)
    /\ first_picture (values audio) = Some d
    /\ f' = mkFolder (path f) (Some d) (listing f).
Proof.
  rewrite export_cover_from_mp3_first.
  destruct (first_mp3 f) as [[name [audio|]]|]; try discriminate.
  destruct (first_picture (values audio)) as [d|] eqn:Hd; try discriminate.
  intros [= <- _]. exists name, audio, d. auto.
Qed.

Lemma export_false (f f' : folder) (out : list message) :
  export_cover_from_mp3 f = (false, f', out) -> f' = f.
Proof.
  rewrite export_cover_from_mp3_first.
  destruct (first_mp3 f) as [[name [audio|]]|]; try (intros [= <- _]; reflexivity).
  destruct (first_picture (values audio)); [discriminate|].
  intros [= <- _]; reflexivity.
Qed.

(** The first picture of a tag is the head of its picture frames. *)
Lemma first_picture_head (tags : list frame) (d : data) :
  first_picture tags = Some d ->
  exists e m ty desc rest, filter is_APIC tags = APIC e m ty desc d :: rest.
Proof.
  induction tags as [|t tags IH]; [discriminate|].
  destruct t as [e m ty desc d'|id text|id];
    cbn [first_picture filter is_APIC]; try exact IH.
  intros [= ->]. exists e, m, ty, desc, (filter is_APIC tags). reflexivity.
Qed.

Import Id3tocovr.

(** [download_artwork], outcome by outcome. *)
Lemma download_artwork_cases (http_get : string -> result response)
    (url save_path : string) (w : world) :
  let r := download_artwork http_get url save_path w in
  (fst r = (false, None)
   /\ (http_get url = Raise
       \/ exists resp, http_get url = Ok resp /\ ~ image_answer resp))
  \/ (exists resp content,
         http_get url = Ok resp /\ image_answer resp
         /\ body resp = Complete content
         /\ fst r = (true, Some content))
  \/ (exists resp received,
         http_get url = Ok resp /\ image_answer resp
         /\ body resp = Interrupted received
         /\ fst r = (false, Some received)).
Proof.
  intros r. subst r. unfold download_artwork, bindM, send, log, ret.
  unfold image_answer.
  destruct (http_get url) as [resp|]; [|left; cbn; auto].
  destruct ((400 <=? status resp) && (status resp <? 600)) eqn:Hs.
  { left. cbn. split; [reflexivity|]. right. exists resp.
    split; [reflexivity|]. intros [Hn _]. apply Hn.
    apply andb_true_iff in Hs. rewrite Z.leb_le, Z.ltb_lt in Hs. exact Hs. }
  assert (Hns : ~ (400 <= status resp /\ status resp < 600)).
  { intros [H1 H2]. apply andb_false_iff in Hs.
    rewrite Z.leb_gt, Z.ltb_ge in Hs. lia. }
  destruct (Str.contains _ "image") eqn:Hc; cbn [negb].
  - right. destruct (body resp) as [content|received] eqn:Hb.
    + left. exists resp, content. cbn. auto.
    + right. exists resp, received. cbn. auto.
  - left. cbn. split; [reflexivity|]. right. exists resp.
    split; [reflexivity|]. intros [_ H]. rewrite Hc in H. discriminate H.
Qed.

End CoverFacts.

(** C2, as the code has it: what is written to [cover.jpg] is never
    checked or re-encoded.  The export writes the data of the first
    picture frame of the first MP3 as it is.  The download opens the file
    only for an answer whose status is no error and whose content type
    mentions "image", and writes the body as it arrives: the whole body
    when it returns [True]; when the transfer breaks off it returns
    [False] and the file holds the part received.  So the file is a valid
    JPEG only when those bytes are. *)
Theorem cover_written_verbatim :
  (forall (f f' : folder) (out : list ExportCoverart.message),
      ExportCoverart.export_cover_from_mp3 f = (true, f', out) ->
      exists name audio e m ty desc d rest,
        first_mp3 f = Some (name, Some audio)
        /\ pictures audio = APIC e m ty desc d :: rest
        /\ cover f' = Some d
        /\ listing f' = listing f)
  /\ (forall (f f' : folder) (out : list ExportCoverart.message),
         ExportCoverart.export_cover_from_mp3 f = (false, f', out) -> f' = f)
  /\ (forall (http_get : string -> result Id3tocovr.response)
             (url save_path : string) (w : Id3tocovr.world),
         let r := Id3tocovr.download_artwork http_get url save_path w in
         (forall bytes : data,
             snd (fst r) = Some bytes ->
             exists resp,
               http_get url = Ok resp
               /\ ~ (400 <= Id3tocovr.status resp
                     /\ Id3tocovr.status resp < 600)
               /\ Str.contains
                    (match Id3tocovr.content_type resp with
                     | Some c => c
                     | None => ""
                     end) "image" = true
               /\ ((fst (fst r) = true
                    /\ Id3tocovr.body resp = Id3tocovr.Complete bytes)
                   \/ (fst (fst r) = false
                       /\ Id3tocovr.body resp = Id3tocovr.Interrupted bytes)))
         /\ (fst (fst r) = true -> exists bytes, snd (fst r) = Some bytes)
         /\ (forall resp : Id3tocovr.response,
                http_get url = Ok resp ->
                ~ (400 <= Id3tocovr.status resp
                   /\ Id3tocovr.status resp < 600) ->
                Str.contains
                  (match Id3tocovr.content_type resp with
                   | Some c => c
                   | None => ""
                   end) "image" = true ->
                fst r
                = match Id3tocovr.body resp with
                  | Id3tocovr.Complete content => (true, Some content)
                  | Id3tocovr.Interrupted received => (false, Some received)
                  end)).
Proof.
  split; [|split].
  - intros f f' out H.
    destruct (CoverFacts.export_true f f' out H) as [name [audio [d [H1 [H2 ->]]]]].
    destruct (CoverFacts.first_picture_head _ _ H2)
      as [e [m [ty [desc [rest Hp]]]]].
    exists name, audio, e, m, ty, desc, d, rest. auto.
  - intros f f' out H. exact (CoverFacts.export_false f f' out H).
  - intros http_get url save_path w r. subst r.
    destruct (CoverFacts.download_artwork_cases http_get url save_path w)
      as [[Hr _]|[[resp [content [Hg [[Hs Hc] [Hb Hr]]]]]
                 |[resp [received [Hg [[Hs Hc] [Hb Hr]]]]]]];
      rewrite Hr; cbn [fst snd]; (split; [|split]).
    + intros bytes H. discriminate H.
    + intros H. discriminate H.
    + intros resp Hg Hs Hc.
      destruct (CoverFacts.download_artwork_cases http_get url save_path w)
        as [[_ [H|[resp' [Hg' Hn]]]]
           |[[resp' [content [Hg' [_ [_ Hr']]]]]
            |[resp' [received [Hg' [_ [_ Hr']]]]]]].
      * congruence.
      * exfalso. apply Hn. assert (resp' = resp) as -> by congruence.
        split; assumption.
      * rewrite Hr in Hr'. discriminate Hr'.
      * rewrite Hr in Hr'. discriminate Hr'.
    + intros bytes [= <-]. exists resp. auto 7.
    + intros _. exists content. reflexivity.
    + intros resp' Hg' _ _. assert (resp' = resp) as -> by congruence.
      rewrite Hb. reflexivity.
    + intros bytes [= <-]. exists resp. auto 7.
    + intros H. discriminate H.
    + intros resp' Hg' _ _. assert (resp' = resp) as -> by congruence.
      rewrite Hb. reflexivity.
Qed.

Lemma cover_written_verbatim_witness :
  exists e m ty desc d rest,
    pictures (Sample.tag_with (Sample.jpeg 500 500))
    = APIC e m ty desc d :: rest
    /\ cover (snd (fst (ExportCoverart.export_cover_from_mp3
                          (Sample.album_of [("01.mp3", Sample.jpeg 500 500)]))))
       = Some d.
Proof.
  destruct cover_written_verbatim as [Hexport _].
  destruct (Hexport (Sample.album_of [("01.mp3", Sample.jpeg 500 500)])
              _ _ eq_refl)
    as [name [audio [e [m [ty [desc [d [rest [Hf [Hp [Hc _]]]]]]]]]]].
  injection Hf as _ <-.
  exists e, m, ty, desc, d, rest. split; [exact Hp|exact Hc].
Defined.

(** C2 as stated fails: a PNG picture embedded in the first MP3 is
    exported to [cover.jpg] as it is, so is a PNG body served with the
    content type [image/png], and a transfer that breaks off leaves the
    first bytes of the body in the file. *)
Lemma cover_written_may_not_be_jpeg :
  ~ (forall (f f' : folder) (out : list ExportCoverart.message),
        ExportCoverart.export_cover_from_mp3 f = (true, f', out) ->
        exists d, cover f' = Some d /\ is_jpeg d = true)
  /\ ~ (forall (http_get : string -> result Id3tocovr.response)
               (url save_path : string) (w : Id3tocovr.world)
               (bytes : data),
          snd (fst (Id3tocovr.download_artwork http_get url save_path w))
          = Some bytes ->
          is_jpeg bytes = true)
  /\ Id3tocovr.download_artwork Sample.broken_server
       "https://example.org/front.jpg" "cover.jpg" Sample.quiet
     = ((false, Some Sample.first_bytes),
        Id3tocovr.mkWorld
          [Id3tocovr.Download "https://example.org/front.jpg"] []
          [Id3tocovr.DownloadError]).
Proof.
  split; [|split].
  - intros H.
    destruct (H (Sample.album_of [("01.mp3", Sample.png "RGBA" 500 500)])
                _ _ eq_refl) as [d [Hd Hj]].
    vm_compute in Hd. injection Hd as <-. discriminate Hj.
  - intros H.
    specialize (H Sample.png_server "https://example.org/front.png"
                  "cover.jpg" Sample.quiet _ eq_refl).
    discriminate H.
  - reflexivity.
Qed.

(** ** The first MP3 of a folder *)

Module ChoiceFacts.

Lemma insert_sorted_head (x : string) (l : list string) :
  Forall (name_le x) l ->
  Str.insert_sorted (fun name => name) x l = x :: l.
Proof.
  destruct l as [|y l]; intros H; simpl; [reflexivity|].
  inversion H as [|? ? Hxy _]; subst. unfold name_le in Hxy.
  rewrite Hxy. reflexivity.
Qed.

(** Sorting a sorted list of names changes nothing. *)
Lemma sort_by_sorted (l : list string) :
  StronglySorted name_le l -> Str.sort_by (fun name => name) l = l.
Proof.
  unfold Str.sort_by.
  induction 1 as [|x l Hs IH Hx]; simpl; [reflexivity|].
  rewrite IH. apply insert_sorted_head. exact Hx.
Qed.

Lemma filter_sorted (p : string -> bool) (l : list string) :
  StronglySorted name_le l -> StronglySorted name_le (filter p l).
Proof.
  induction 1 as [|x l Hs IH Hx]; simpl; [constructor|].
  destruct (p x); [|exact IH].
  constructor; [exact IH|].
  rewrite Forall_forall in *. intros y Hy. apply Hx.
  apply filter_In in Hy. tauto.
Qed.

Lemma hd_filter_names {A : Type} (p : string -> bool) (l : list (string * A)) :
  option_map fst (hd_error (filter (fun e => p (fst e)) l))
  = hd_error (filter p (map fst l)).
Proof.
  induction l as [|[n a] l IH]; simpl; [reflexivity|].
  destruct (p n); [reflexivity|exact IH].
Qed.

(** [first_mp3] is the first entry of the listing whose name ends in
    [.mp3]. *)
Lemma first_mp3_split (f : folder) (e : string * option ID3) :
  first_mp3 f = Some e <->
  exists pre post,
    listing f = pre ++ e :: post
    /\ Str.endswith (fst e) ".mp3" = true
    /\ Forall (fun x => Str.endswith (fst x) ".mp3" = false) pre.
Proof.
  unfold first_mp3, mp3_entries. generalize (listing f) as l.
  induction l as [|x l IH]; simpl.
  - split; [discriminate|]. intros [pre [post [H _]]].
    destruct pre; discriminate H.
  - destruct (Str.endswith (fst x) ".mp3") eqn:Hx; simpl.
    + split.
      * intros [= <-]. exists [], l. auto.
      * intros [pre [post [Hl [He Hpre]]]].
        destruct pre as [|y pre]; simpl in Hl.
        -- injection Hl as -> _. reflexivity.
        -- injection Hl as -> _. inversion Hpre; subst. congruence.
    + rewrite IH. split.
      * intros [pre [post [Hl [He Hpre]]]].
        exists (x :: pre), post. rewrite Hl. auto.
      * intros [pre [post [Hl [He Hpre]]]].
        destruct pre as [|y pre]; simpl in Hl.
        -- injection Hl as -> _. congruence.
        -- injection Hl as -> ->. inversion Hpre; subst.
           exists pre, post. auto.
Qed.

(** On a sorted listing the two rules agree. *)
Lemma first_mp3_sorted (f : folder) :
  StronglySorted name_le (map fst (listing f)) ->
  option_map fst (first_mp3 f) = sorted_first_mp3 f.
Proof.
  intros Hs. unfold first_mp3, sorted_first_mp3, mp3_entries.
  rewrite (hd_filter_names (fun name => Str.endswith name ".mp3")).
  rewrite sort_by_sorted; [reflexivity|].
  apply filter_sorted. exact Hs.
Qed.

Import ExportCoverart.

(** The export reads nothing of the listing but its first MP3. *)
Lemma export_by_first_mp3 (f1 f2 : folder) :
  path f1 = path f2 -> cover f1 = cover f2 -> first_mp3 f1 = first_mp3 f2 ->
  fst (fst (export_cover_from_mp3 f1)) = fst (fst (export_cover_from_mp3 f2))
  /\ cover (snd (fst (export_cover_from_mp3 f1)))
     = cover (snd (fst (export_cover_from_mp3 f2)))
  /\ snd (export_cover_from_mp3 f1) = snd (export_cover_from_mp3 f2).
Proof.
  intros Hp Hc Hf. rewrite !CoverFacts.export_cover_from_mp3_first.
  rewrite Hf, Hp.
  destruct (first_mp3 f2) as [[name [audio|]]|]; simpl; auto.
  destruct (first_picture (values audio)); simpl; auto.
Qed.

End ChoiceFacts.

(** ** Folders without audio files *)

Module EmptyFacts.

Lemma no_mp3_entries (f : folder) :
  mp3_entries f = [] ->
  Forall (fun e => Str.endswith (fst e) ".mp3" = false) (listing f).
Proof.
  unfold mp3_entries. generalize (listing f) as l.
  induction l as [|e l IH]; simpl; [constructor|].
  destruct (Str.endswith (fst e) ".mp3") eqn:He; [discriminate|].
  intros H. constructor; [exact He|exact (IH H)].
Qed.

Import EmbedArtwork.

(** The loop of [process_folder] passes over entries that are not MP3
    files. *)
Lemma process_music_files_none (folder_path : string) (new_cover : data)
    (entries : list (string * option ID3)) :
  Forall (fun e => Str.endswith (fst e) ".mp3" = false) entries ->
  process_music_files folder_path new_cover entries = (entries, []).
Proof.
  induction 1 as [|e l He _ IH]; simpl; [reflexivity|].
  rewrite He, IH. destruct e; reflexivity.
Qed.

Lemma process_folder_no_mp3 (writer : jpeg_writer) (TEMP_RES : Z)
    (fs : files) :
  mp3_entries (album fs) = [] ->
  album (fst (process_folder writer TEMP_RES fs)) = album fs
  /\ temp_cover (fst (process_folder writer TEMP_RES fs))
     = snd (fst (prepare_cover writer TEMP_RES fs))
  /\ snd (process_folder writer TEMP_RES fs)
     = snd (prepare_cover writer TEMP_RES fs).
Proof.
  intros H. unfold process_folder.
  destruct (prepare_cover writer TEMP_RES fs) as [[[new_cover|] tmp] out];
    [|repeat split; reflexivity].
  rewrite process_music_files_none by (apply no_mp3_entries; exact H).
  cbn. rewrite app_nil_r. destruct (album fs). repeat split; reflexivity.
Qed.

End EmptyFacts.

(** ** The fetcher *)

Module FetchFacts.

Import Id3tocovr.

Section Providers.

Variable USE_HIRES_PRIORITY : bool.
Variable USE_MUSICBRAINZ : bool.
Variable NO_LOW_RES : bool.
Variable lower : string -> string.
Variable frame_str : frame -> string.
Variable search_releases : string -> string -> result (option (list string)).
Variable caa_release : string -> result (option (list (bool * string))).
Variable search_album : string -> result (list (string * string)).
Variable lastfm_cover : string -> string -> result (option string).
Variable http_get : string -> result response.

Local Abbreviation musicbrainz :=
  (musicbrainz_artwork search_releases caa_release).
Local Abbreviation itunes := (fetch_itunes_artwork lower search_album).
Local Abbreviation lastfm := (fetch_lastfm_artwork NO_LOW_RES lastfm_cover).
Local Abbreviation resolve :=
  (resolve_artwork USE_HIRES_PRIORITY USE_MUSICBRAINZ NO_LOW_RES lower
     search_releases caa_release search_album lastfm_cover).
Local Abbreviation fetch :=
  (fetch_artwork_for_folder USE_HIRES_PRIORITY USE_MUSICBRAINZ NO_LOW_RES
     lower frame_str search_releases caa_release search_album lastfm_cover
     http_get).

Lemma steady_musicbrainz (artist album : string) :
  steady (musicbrainz artist album).
Proof.
  intros w. unfold value_of, sent_by, musicbrainz_artwork,
    fetch_musicbrainz_release_id, fetch_caa_artwork, bindM, send, log, ret.
  destruct (search_releases artist album) as [[[|id ids]|]|]; cbn;
    try (split; reflexivity).
  destruct (Str.truthy id); cbn; [|split; reflexivity].
  destruct (caa_release id) as [[images|]|]; cbn;
    rewrite <- ?app_assoc; split; reflexivity.
Qed.

Lemma steady_itunes (artist album : string) : steady (itunes artist album).
Proof.
  intros w. unfold value_of, sent_by, fetch_itunes_artwork, bindM, send, log,
    ret.
  destruct (search_album album); cbn; split; reflexivity.
Qed.

Lemma steady_lastfm (artist album : string) : steady (lastfm artist album).
Proof.
  intros w. unfold value_of, sent_by, fetch_lastfm_artwork, bindM, send, log,
    print, ret.
  destruct NO_LOW_RES; cbn; [rewrite app_nil_r; split; reflexivity|].
  destruct (lastfm_cover artist album); cbn; split; reflexivity.
Qed.

Lemma steady_ret {A : Type} (a : A) : steady (ret a).
Proof. intros w. cbn. rewrite app_nil_r. split; reflexivity. Qed.

(** Sequencing two steady steps: values and requests compose. *)
Lemma steady_bind {A B : Type} (m : M A) (k : A -> M B) :
  steady m -> (forall a, steady (k a)) ->
  steady (bindM m k)
  /\ value_of (bindM m k) = value_of (k (value_of m))
  /\ sent_by (bindM m k) = sent_by m ++ sent_by (k (value_of m)).
Proof.
  intros Hm Hk.
  assert (Hrun : forall w,
             fst (bindM m k w) = value_of (k (value_of m))
             /\ requests (snd (bindM m k w))
                = requests w ++ sent_by m ++ sent_by (k (value_of m))).
  { intros w. unfold bindM. destruct (Hm w) as [Hv Hs].
    destruct (m w) as [a w1]. cbn [fst snd] in Hv, Hs. subst a.
    destruct (Hk (value_of m) w1) as [Hv' Hs'].
    rewrite Hv', Hs', Hs, app_assoc. split; reflexivity. }
  assert (Hval : value_of (bindM m k) = value_of (k (value_of m))).
  { apply (Hrun (mkWorld [] [] [])). }
  assert (Hsent : sent_by (bindM m k) = sent_by m ++ sent_by (k (value_of m))).
  { apply (Hrun (mkWorld [] [] [])). }
  split; [|split; assumption].
  intros w. rewrite Hval, Hsent. apply Hrun.
Qed.

Lemma sent_by_itunes (artist album : string) :
  sent_by (itunes artist album) = [ITunesSearch album].
Proof.
  unfold sent_by, fetch_itunes_artwork, bindM, send, log, ret.
  destruct (search_album album); reflexivity.
Qed.

Lemma sent_by_lastfm (artist album : string) :
  sent_by (lastfm artist album)
  = if NO_LOW_RES then [] else [LastFmAlbum artist album].
Proof.
  unfold sent_by, fetch_lastfm_artwork, bindM, send, log, print, ret.
  destruct NO_LOW_RES; [reflexivity|].
  destruct (lastfm_cover artist album); reflexivity.
Qed.

Lemma sent_by_musicbrainz (artist album : string) :
  sent_by (musicbrainz artist album) = [MusicBrainzSearch artist album]
  \/ exists id,
       sent_by (musicbrainz artist album)
       = [MusicBrainzSearch artist album; CoverArtArchive id].
Proof.
  unfold sent_by, musicbrainz_artwork, fetch_musicbrainz_release_id,
    fetch_caa_artwork, bindM, send, log, ret.
  destruct (search_releases artist album) as [[[|id ids]|]|]; cbn; auto.
  destruct (Str.truthy id); cbn; auto.
  right. exists id. destruct (caa_release id) as [[images|]|]; reflexivity.
Qed.

(** The three steps of [resolve_artwork]. *)
Lemma resolve_steps (artist album : string) :
  let first :=
    if USE_MUSICBRAINZ then musicbrainz artist album else ret None in
  let second (url : option string) :=
    if negb (truthy url) && USE_HIRES_PRIORITY
    then itunes artist album else ret url in
  let third (url : option string) :=
    if negb (truthy url) && negb NO_LOW_RES
    then lastfm artist album else ret url in
  let url1 := value_of first in
  let url2 := value_of (second url1) in
  steady (resolve artist album)
  /\ value_of (resolve artist album) = value_of (third url2)
  /\ sent_by (resolve artist album)
     = sent_by first ++ sent_by (second url1) ++ sent_by (third url2).
Proof.
  intros first second third url1 url2.
  assert (H1 : steady first).
  { unfold first. destruct USE_MUSICBRAINZ;
      [apply steady_musicbrainz|apply steady_ret]. }
  assert (H2 : forall u, steady (second u)).
  { intros u. unfold second.
    destruct (negb (truthy u) && USE_HIRES_PRIORITY);
      [apply steady_itunes|apply steady_ret]. }
  assert (H3 : forall u, steady (third u)).
  { intros u. unfold third.
    destruct (negb (truthy u) && negb NO_LOW_RES);
      [apply steady_lastfm|apply steady_ret]. }
  assert (H4 : forall u, steady (bindM (third u) ret)
                         /\ value_of (bindM (third u) ret) = value_of (third u)
                         /\ sent_by (bindM (third u) ret) = sent_by (third u)).
  { intros u.
    destruct (steady_bind (third u) ret (H3 u) (fun a => steady_ret a))
      as [Ha [Hb Hc]].
    split; [exact Ha|]. split; [exact Hb|].
    rewrite Hc. apply app_nil_r. }
  assert (H5 : forall u,
             steady (bindM (second u) (fun v => bindM (third v) ret))).
  { intros u. apply steady_bind; [apply H2|]. intros v. apply H4. }
  assert (Hr : resolve artist album
               = bindM first
                   (fun u => bindM (second u) (fun v => bindM (third v) ret)))
    by reflexivity.
  rewrite Hr.
  destruct (steady_bind first _ H1 H5) as [Ha [Hb Hc]].
  destruct (steady_bind (second url1) _ (H2 url1) (fun v => proj1 (H4 v)))
    as [_ [Hb' Hc']].
  destruct (H4 url2) as [_ [Hb'' Hc'']].
  split; [exact Ha|]. split.
  - rewrite Hb. fold url1. rewrite Hb'. fold url2. exact Hb''.
  - rewrite Hc. fold url1. rewrite Hc'. fold url2. rewrite Hc''. reflexivity.
Qed.

(** C5: the sources are asked in the order MusicBrainz (with the Cover
    Art Archive), iTunes, Last.fm.  MusicBrainz is asked first, and
    exactly when it is enabled; iTunes exactly when MusicBrainz gave no
    candidate and the hi-res priority is enabled; Last.fm exactly when
    neither gave a candidate and [NO_LOW_RES] is off, so never when it is
    on; the URL returned is that of the first source that gave one. *)
Theorem sources_tried_in_priority_order (artist album : string) :
  let tried := sent_by (resolve artist album) in
  let mb := value_of (musicbrainz artist album) in
  let it := value_of (itunes artist album) in
  let lf := value_of (lastfm artist album) in
  steady (resolve artist album)
  /\ StronglySorted (fun r r' => (rank r < rank r')%nat) tried
  /\ (USE_MUSICBRAINZ = true ->
      exists rest, tried = MusicBrainzSearch artist album :: rest)
  /\ existsb to_musicbrainz tried = USE_MUSICBRAINZ
  /\ existsb to_itunes tried
     = negb (USE_MUSICBRAINZ && truthy mb) && USE_HIRES_PRIORITY
  /\ existsb to_lastfm tried
     = negb (USE_MUSICBRAINZ && truthy mb)
       && negb (USE_HIRES_PRIORITY && truthy it)
       && negb NO_LOW_RES
  /\ (NO_LOW_RES = true -> forall r, In r tried -> to_lastfm r = false)
  /\ value_of (resolve artist album)
     = if USE_MUSICBRAINZ && truthy mb then mb
       else if USE_HIRES_PRIORITY && truthy it then it
       else if negb NO_LOW_RES then lf
       else if USE_HIRES_PRIORITY then it
       else if USE_MUSICBRAINZ then mb
       else None.
Proof.
  intros tried mb it lf.
  destruct (resolve_steps artist album) as [Hst [Hv Hs]].
  cbv zeta in Hv, Hs. fold tried in Hs.
  assert (Hmb : exists rest,
             sent_by (musicbrainz artist album)
             = MusicBrainzSearch artist album :: rest
             /\ (rest = [] \/ exists id, rest = [CoverArtArchive id])).
  { destruct (sent_by_musicbrainz artist album) as [H|[id H]]; rewrite H;
      eexists; split; try reflexivity; eauto. }
  destruct Hmb as [rest [Hmb Hrest]].
  pose proof (sent_by_itunes artist album) as Hit.
  pose proof (sent_by_lastfm artist album) as Hlf.
  assert (Hret : forall u : option string, sent_by (ret u) = []) by reflexivity.
  assert (Hretv : forall u : option string, value_of (ret u) = u)
    by reflexivity.
  split; [exact Hst|].
  rewrite Hv, Hs. clear Hv Hs Hst. fold mb. fold it. fold lf.
  destruct USE_MUSICBRAINZ; fold mb; rewrite ?Hmb, ?Hret, ?Hretv;
    [destruct (truthy mb) eqn:Emb|]; cbn [negb andb truthy];
    destruct USE_HIRES_PRIORITY; fold it; rewrite ?Hit, ?Hret, ?Hretv, ?Emb;
    cbn [negb andb truthy];
    try (destruct (truthy it) eqn:Eit); cbn [negb andb truthy];
    destruct NO_LOW_RES; cbn [negb andb truthy] in *; fold lf;
    rewrite ?Hlf, ?Hret, ?Hretv, ?Emb, ?Eit;
    cbn [negb andb truthy app];
    (destruct Hrest as [->|[id ->]]);
    repeat split;
    try reflexivity;
    try (eexists; reflexivity);
    try discriminate;
    try (repeat constructor; cbn; lia);
    try (intros _ r Hr; cbn in Hr; intuition (subst; reflexivity)).
Qed.

(** The fetcher reads nothing of the listing but its first MP3. *)
Lemma fetch_by_first_mp3 (f1 f2 : folder) (w : world) :
  path f1 = path f2 -> cover f1 = cover f2 -> first_mp3 f1 = first_mp3 f2 ->
  cover_after (fst (fetch f1 w)) = cover_after (fst (fetch f2 w))
  /\ snd (fetch f1 w) = snd (fetch f2 w).
Proof.
  intros Hp Hc Hf. unfold fetch_artwork_for_folder, first_mp3 in *.
  rewrite Hp.
  destruct (cover f2) as [d|] eqn:Hc2; rewrite Hc;
    [split; cbn; rewrite ?Hc, ?Hc2; reflexivity|].
  destruct (mp3_entries f1) as [|e1 l1], (mp3_entries f2) as [|e2 l2];
    cbn in Hf; try discriminate;
    [split; cbn; rewrite ?Hc, ?Hc2; reflexivity|].
  injection Hf as ->. unfold bindM.
  destruct (get_artist_album_from_id3 frame_str (snd e2) w)
    as [[[artist album]|] w1]; [|split; reflexivity].
  destruct (print (ProcessingFolder (path f2) artist album) w1) as [[] w2].
  destruct (resolve artist album w2) as [[url|] w3];
    [|split; cbn; rewrite ?Hc, ?Hc2; reflexivity].
  destruct (Str.truthy url); [|split; cbn; rewrite ?Hc, ?Hc2; reflexivity].
  destruct (download_artwork http_get url (Str.join (path f2) "cover.jpg") w3)
    as [[[] [bytes|]] w4]; split; cbn; rewrite ?Hc, ?Hc2; reflexivity.
Qed.

(** C8, as the code has it: the file the export and the fetcher take is
    the first entry, in the order the directory is enumerated, whose name
    ends in [.mp3]; nothing else of the listing is read, so two runs over
    the same enumeration pick the same file.  The listing is not sorted;
    if the enumeration itself is sorted, the choice is the first MP3 in
    sorted filename order. *)
Theorem first_mp3_in_enumeration_order :
  (forall (f : folder) (e : string * option ID3),
      first_mp3 f = Some e <->
      exists pre post,
        listing f = pre ++ e :: post
        /\ Str.endswith (fst e) ".mp3" = true
        /\ Forall (fun x => Str.endswith (fst x) ".mp3" = false) pre)
  /\ (forall f1 f2 : folder,
         path f1 = path f2 -> cover f1 = cover f2 ->
         first_mp3 f1 = first_mp3 f2 ->
         (fst (fst (ExportCoverart.export_cover_from_mp3 f1))
          = fst (fst (ExportCoverart.export_cover_from_mp3 f2))
          /\ cover (snd (fst (ExportCoverart.export_cover_from_mp3 f1)))
             = cover (snd (fst (ExportCoverart.export_cover_from_mp3 f2)))
          /\ snd (ExportCoverart.export_cover_from_mp3 f1)
             = snd (ExportCoverart.export_cover_from_mp3 f2))
         /\ forall w : world,
              cover_after (fst (fetch f1 w)) = cover_after (fst (fetch f2 w))
              /\ snd (fetch f1 w) = snd (fetch f2 w))
  /\ (forall f : folder,
         StronglySorted name_le (map fst (listing f)) ->
         option_map fst (first_mp3 f) = sorted_first_mp3 f).
Proof.
  split; [|split].
  - exact ChoiceFacts.first_mp3_split.
  - intros f1 f2 Hp Hc Hf. split.
    + exact (ChoiceFacts.export_by_first_mp3 f1 f2 Hp Hc Hf).
    + intros w. exact (fetch_by_first_mp3 f1 f2 w Hp Hc Hf).
  - exact ChoiceFacts.first_mp3_sorted.
Qed.

(** C7, as the code has it: on a folder without audio files the
    embedding engine changes nothing in the folder and prints only what
    it prints about the cover (its one possible write is the scratch
    file of the conversion and the resize; without a cover it reports
    the missing cover); the export and the fetcher, on such a folder
    without cover, report that no MP3 file was found and leave the folder
    as it was, the fetcher logging the line and sending no request. *)
Theorem no_audio_files_folder_unchanged :
  (forall (writer : jpeg_writer) (TEMP_RES : Z) (fs : EmbedArtwork.files),
      mp3_entries (EmbedArtwork.album fs) = [] ->
      EmbedArtwork.album
        (fst (EmbedArtwork.process_folder writer TEMP_RES fs))
      = EmbedArtwork.album fs
      /\ EmbedArtwork.temp_cover
           (fst (EmbedArtwork.process_folder writer TEMP_RES fs))
         = snd (fst (EmbedArtwork.prepare_cover writer TEMP_RES fs))
      /\ snd (EmbedArtwork.process_folder writer TEMP_RES fs)
         = snd (EmbedArtwork.prepare_cover writer TEMP_RES fs)
      /\ (cover (EmbedArtwork.album fs) = None ->
          EmbedArtwork.process_folder writer TEMP_RES fs
          = (fs, [EmbedArtwork.CoverNotFound
                    (path (EmbedArtwork.album fs))])))
  /\ (forall f : folder,
         mp3_entries f = [] -> cover f = None ->
         ExportCoverart.process_folder f
         = (f, [ExportCoverart.CoverNotFound (path f);
                ExportCoverart.NoMp3Found (path f);
                ExportCoverart.CouldNotExport (path f)]))
  /\ (forall (f : folder) (w : world),
         mp3_entries f = [] -> cover f = None ->
         fetch f w
         = (Ok f,
            mkWorld (requests w)
                    (printed w ++ [NoMp3Files (path f)])
                    (logged w ++ [NoMp3Files (path f)]))).
Proof.
  split; [|split].
  - intros writer TEMP_RES fs H.
    destruct (EmptyFacts.process_folder_no_mp3 writer TEMP_RES fs H)
      as [Ha [Ht Ho]].
    split; [exact Ha|]. split; [exact Ht|]. split; [exact Ho|].
    intros Hc. unfold EmbedArtwork.process_folder, EmbedArtwork.prepare_cover.
    rewrite Hc. destruct fs. reflexivity.
  - intros f H Hc.
    unfold ExportCoverart.process_folder, ExportCoverart.export_cover_from_mp3.
    rewrite Hc, H. reflexivity.
  - intros f w H Hc. unfold fetch_artwork_for_folder. rewrite Hc, H.
    reflexivity.
Qed.

End Providers.

End FetchFacts.

Lemma first_mp3_in_enumeration_order_witness :
  StronglySorted name_le (map fst (listing Sample.a_then_b))
  /\ option_map fst (first_mp3 Sample.a_then_b)
     = sorted_first_mp3 Sample.a_then_b.
Proof.
  assert (Hs : StronglySorted name_le (map fst (listing Sample.a_then_b))).
  { repeat constructor. }
  split; [exact Hs|].
  destruct (FetchFacts.first_mp3_in_enumeration_order
              true true false Str.lower Sample.frame_name Sample.no_release
              Sample.no_images Sample.no_album Sample.no_cover
              Sample.png_server) as [_ [_ Hsorted]].
  exact (Hsorted Sample.a_then_b Hs).
Defined.

(** C8 as stated fails: with [b.mp3] enumerated before [a.mp3] the file
    taken is [b.mp3], not the first in sorted order, and the two
    enumerations of the same folder export different covers. *)
Lemma first_mp3_depends_on_enumeration :
  ~ (forall f : folder, option_map fst (first_mp3 f) = sorted_first_mp3 f)
  /\ ~ (forall f1 f2 : folder,
          path f1 = path f2 -> cover f1 = cover f2 ->
          Permutation (listing f1) (listing f2) ->
          cover (snd (fst (ExportCoverart.export_cover_from_mp3 f1)))
          = cover (snd (fst (ExportCoverart.export_cover_from_mp3 f2)))).
Proof.
  split.
  - intros H. specialize (H Sample.b_then_a). vm_compute in H. discriminate H.
  - intros H.
    specialize (H Sample.b_then_a Sample.a_then_b eq_refl eq_refl
                  (perm_swap _ _ _)).
    vm_compute in H. discriminate H.
Qed.

Lemma no_audio_files_folder_unchanged_witness :
  mp3_entries (EmbedArtwork.album (Sample.cover_only (Sample.jpeg 1400 1400)))
  = []
  /\ EmbedArtwork.album
       (fst (EmbedArtwork.process_folder pillow_writer 600
               (Sample.cover_only (Sample.jpeg 1400 1400))))
     = EmbedArtwork.album (Sample.cover_only (Sample.jpeg 1400 1400)).
Proof.
  split; [reflexivity|].
  destruct (FetchFacts.no_audio_files_folder_unchanged
              true true false Str.lower Sample.frame_name Sample.no_release
              Sample.no_images Sample.no_album Sample.no_cover
              Sample.png_server) as [Hembed _].
  destruct (Hembed pillow_writer 600
              (Sample.cover_only (Sample.jpeg 1400 1400)) eq_refl)
    as [Ha _].
  exact Ha.
Defined.

(** C7 as stated fails for the embedding engine: on a folder that holds
    a PNG cover and no audio file it writes the scratch file, and the
    lines it prints are about the cover only. *)
Lemma no_audio_files_scratch_file_written :
  ~ (forall (TEMP_RES : Z) (fs : EmbedArtwork.files),
        mp3_entries (EmbedArtwork.album fs) = [] ->
        fst (EmbedArtwork.process_folder pillow_writer TEMP_RES fs) = fs)
  /\ EmbedArtwork.process_folder pillow_writer 600
       (Sample.cover_only (Sample.png "RGB" 300 300))
     = (EmbedArtwork.mkFiles
          (mkFolder Sample.album_path (Some (Sample.png "RGB" 300 300)) [])
          (Some (Sample.jpeg 300 300)),
        [EmbedArtwork.FoundCover Sample.album_path "PNG";
         EmbedArtwork.Converting "PNG";
         EmbedArtwork.Converted;
         EmbedArtwork.AlreadySmaller Sample.album_path]).
Proof.
  split; [|reflexivity].
  intros H.
  specialize (H 600 (Sample.cover_only (Sample.png "RGB" 300 300)) eq_refl).
  vm_compute in H. discriminate H.
Qed.

(** ** The command line *)

(** C9 on the code: in [embed-artwork.py] and [export-coverart.py] the
    branch of [-a] comes before the branch of [-c], so [-a -c] walks
    every directory of the library exactly as [-a] does; only
    [id3tocovr.py] hands [-c] on and keeps to the disc folders. *)
Theorem all_flag_hides_cd_flag :
  (forall (ROOT_MUSIC_DIR : string) (tree : node) (isdir : string -> bool)
          (c : bool),
      EmbedArtwork.main ROOT_MUSIC_DIR tree isdir (mkArgs true c None)
      = Visited (walk_dirs (fun _ => true) ROOT_MUSIC_DIR tree)
      /\ ExportCoverart.main ROOT_MUSIC_DIR tree isdir (mkArgs true c None)
         = Visited (walk_dirs (fun _ => true) ROOT_MUSIC_DIR tree))
  /\ EmbedArtwork.main "/music" Sample.library Sample.everything_is_dir
       Sample.all_and_cd
     = Visited ["/music/Zac Brown Band";
                "/music/Zac Brown Band/Uncaged (2012)";
                "/music/Zac Brown Band/Uncaged (2012)/CD 1";
                "/music/Zac Brown Band/Uncaged (2012)/CD 2"]
  /\ ExportCoverart.main "/music" Sample.library Sample.everything_is_dir
       Sample.all_and_cd
     = Visited ["/music/Zac Brown Band";
                "/music/Zac Brown Band/Uncaged (2012)";
                "/music/Zac Brown Band/Uncaged (2012)/CD 1";
                "/music/Zac Brown Band/Uncaged (2012)/CD 2"]
  /\ EmbedArtwork.main "/music" Sample.library Sample.everything_is_dir
       Sample.cd_only
     = Visited ["/music/Zac Brown Band/Uncaged (2012)/CD 1";
                "/music/Zac Brown Band/Uncaged (2012)/CD 2"]
  /\ Id3tocovr.main Str.lower "/music" Sample.library
       Sample.everything_is_dir Sample.all_and_cd
     = Visited ["/music/Zac Brown Band/Uncaged (2012)/CD 1";
                "/music/Zac Brown Band/Uncaged (2012)/CD 2"].
Proof.
  split.
  - intros ROOT_MUSIC_DIR tree isdir c. split.
    + unfold EmbedArtwork.main, EmbedArtwork.embed_artwork_in_folder.
      destruct c; reflexivity.
    + unfold ExportCoverart.main. destruct c; reflexivity.
  - repeat split; vm_compute; reflexivity.
Qed.

(** ** Export, then embed *)

Module RoundTripFacts.

Import EmbedArtwork.

Lemma first_picture_some (tags : list frame) :
  filter is_APIC tags <> [] ->
  exists d, ExportCoverart.first_picture tags = Some d.
Proof.
  induction tags as [|t tags IH]; simpl; [congruence|].
  destruct t; simpl; eauto.
Qed.

(** The export and the embedding look at the same picture. *)
Lemma first_picture_size_of (tags : list frame) (d : data) :
  ExportCoverart.first_picture tags = Some d ->
  first_picture_size tags = (img <- PIL.open d ;; Ok (Some (size img))).
Proof.
  induction tags as [|t tags IH]; simpl; [discriminate|].
  destruct t; simpl; auto. intros [= ->]. reflexivity.
Qed.

Lemma create_temp_cover_not_larger (writer : jpeg_writer) (img : image)
    (temp_res : Z) (c : data) :
  create_temp_cover writer (Picture img) temp_res = Ok c ->
  exists img', c = Picture img'
               /\ width img' <= width img /\ height img' <= height img.
Proof.
  destruct ((width img >=? temp_res) && (height img >=? temp_res)) eqn:Hc.
  - destruct (Z_lt_le_dec temp_res 1) as [Hlt|Hge].
    + rewrite NormalizerFacts.create_temp_cover_no_pixel by assumption.
      discriminate.
    + rewrite NormalizerFacts.create_temp_cover_resize by assumption.
      unfold save_jpeg. cbn [mode width height].
      destruct (writer (mode_to_save img) temp_res temp_res); [|discriminate].
      intros [= <-]. eexists. split; [reflexivity|]. cbn [width height].
      apply andb_true_iff in Hc. rewrite !Z.geb_leb, !Z.leb_le in Hc. exact Hc.
  - rewrite NormalizerFacts.create_temp_cover_keep by assumption.
    unfold save_jpeg. cbn [mode width height].
    destruct (writer (mode_to_save img) (width img) (height img));
      [|discriminate].
    intros [= <-]. eexists. split; [reflexivity|]. cbn [width height]. lia.
Qed.

(** The cover [prepare_cover] hands to the loop is never larger than
    [cover.jpg]. *)
Lemma prepare_cover_not_larger (writer : jpeg_writer) (TEMP_RES : Z)
    (fs : files) (c : data) :
  fst (fst (prepare_cover writer TEMP_RES fs)) = Some c ->
  exists img img',
    cover (album fs) = Some (Picture img)
    /\ c = Picture img'
    /\ width img' <= width img /\ height img' <= height img.
Proof.
  unfold prepare_cover.
  destruct (cover (album fs)) as [[img|raw]|]; cbn [fst]; try discriminate.
  - cbn [is_empty PIL.open check_cover_resolution bind size].
    assert (Hgoal : forall tmp out,
               fst (fst
                 (if (width img <? TEMP_RES) && (height img <? TEMP_RES)
                  then (Some (Picture img), tmp,
                        out ++ [AlreadySmaller (path (album fs))])
                  else
                    match create_temp_cover writer (Picture img) TEMP_RES with
                    | Ok d => (Some d, Some d, out ++ [CreatedResized])
                    | Raise =>
                        (None, tmp, out ++ [ResizeError (path (album fs))])
                    end)) = Some c ->
               exists img0 img',
                 Some (Picture img) = Some (Picture img0)
                 /\ c = Picture img'
                 /\ width img' <= width img0 /\ height img' <= height img0).
    { intros tmp out.
      destruct ((width img <? TEMP_RES) && (height img <? TEMP_RES)).
      - cbn. intros [= <-]. exists img, img. repeat split; lia.
      - destruct (create_temp_cover writer (Picture img) TEMP_RES) as [d|]
          eqn:Hd; cbn; [|discriminate].
        intros [= ->].
        destruct (create_temp_cover_not_larger writer img TEMP_RES c Hd)
          as [img' [-> Hle]].
        exists img, img'. auto. }
    destruct (negb (String.eqb (format img) "JPEG")).
    + destruct (save_jpeg writer
                  (if needs_RGB img then convert_RGB img else img));
        cbn [bind]; [apply Hgoal|cbn; discriminate].
    + apply Hgoal.
  - destruct (is_empty (Raw raw)); cbn; discriminate.
Qed.

(** The loop keeps the entries in place; the first MP3 afterwards is the
    first MP3 before, processed. *)
Lemma process_music_files_first (folder_path : string) (new_cover : data)
    (entries : list (string * option ID3)) :
  hd_error
    (filter (fun e => Str.endswith (fst e) ".mp3")
       (fst (process_music_files folder_path new_cover entries)))
  = option_map
      (fun e => (fst e, fst (process_music_file folder_path new_cover e)))
      (hd_error (filter (fun e => Str.endswith (fst e) ".mp3") entries)).
Proof.
  induction entries as [|e l IH]; simpl; [reflexivity|].
  destruct (process_music_files folder_path new_cover l) as [rest out'].
  destruct (Str.endswith (fst e) ".mp3") eqn:He.
  - destruct (process_music_file folder_path new_cover e) as [after out]
      eqn:Hp.
    cbn. rewrite He. cbn. rewrite ?Hp. reflexivity.
  - cbn. rewrite He. exact IH.
Qed.

End RoundTripFacts.

(** C6: take a folder without [cover.jpg] whose first MP3 carries exactly
    one picture.  The export writes that picture to [cover.jpg]; the
    embedding pass that follows leaves the file's tag as it was, so it
    still holds exactly one picture, of the same dimensions. *)
Theorem export_then_embed_keeps_artwork (writer : jpeg_writer)
    (TEMP_RES : Z) (f : folder) (tmp : option data) (name : string)
    (audio : ID3) :
  cover f = None ->
  first_mp3 f = Some (name, Some audio) ->
  count_APIC audio = 1%nat ->
  let exported := fst (ExportCoverart.process_folder f) in
  let after :=
    EmbedArtwork.album
      (fst (EmbedArtwork.process_folder writer TEMP_RES
              (EmbedArtwork.mkFiles exported tmp))) in
  (exists d, ExportCoverart.first_picture (values audio) = Some d
             /\ cover exported = Some d)
  /\ exists audio',
       first_mp3 after = Some (name, Some audio')
       /\ audio' = audio
       /\ count_APIC audio' = 1%nat
       /\ EmbedArtwork.get_embedded_artwork_resolution audio'
          = EmbedArtwork.get_embedded_artwork_resolution audio.
Proof.
  intros Hcover Hfirst Hone exported after.
  destruct (RoundTripFacts.first_picture_some (values audio)) as [d Hd].
  { unfold count_APIC in Hone. intros Hnil. rewrite Hnil in Hone.
    discriminate Hone. }
  assert (Hexp : exported = mkFolder (path f) (Some d) (listing f)).
  { unfold exported, ExportCoverart.process_folder. rewrite Hcover.
    rewrite CoverFacts.export_cover_from_mp3_first, Hfirst, Hd. reflexivity. }
  split.
  { exists d. rewrite Hexp. split; [exact Hd|reflexivity]. }
  exists audio. split; [|split; [reflexivity|split; [exact Hone|reflexivity]]].
  assert (Hf' : first_mp3 exported = Some (name, Some audio)).
  { rewrite Hexp. exact Hfirst. }
  unfold after, EmbedArtwork.process_folder.
  destruct (EmbedArtwork.prepare_cover writer TEMP_RES
              (EmbedArtwork.mkFiles exported tmp))
    as [[[c|] tmp'] out] eqn:Hp; cbn [fst EmbedArtwork.album];
    [|exact Hf'].
  destruct (RoundTripFacts.prepare_cover_not_larger writer TEMP_RES
              (EmbedArtwork.mkFiles exported tmp) c)
    as [img [img' [Hc [-> [Hw Hh]]]]].
  { rewrite Hp. reflexivity. }
  cbn [EmbedArtwork.album] in Hc. rewrite Hexp in Hc. cbn [cover] in Hc.
  injection Hc as ->.
  pose proof (RoundTripFacts.process_music_files_first (path exported)
                (Picture img') (listing exported)) as Hloop.
  destruct (EmbedArtwork.process_music_files (path exported) (Picture img')
              (listing exported)) as [entries out'].
  cbn [fst EmbedArtwork.album]. unfold first_mp3, mp3_entries. cbn [listing].
  cbn [fst] in Hloop. rewrite Hloop.
  unfold first_mp3, mp3_entries in Hf'. rewrite Hf'. cbn [option_map fst].
  assert (He : EmbedArtwork.get_embedded_artwork_resolution audio
               = Ok (Some (width img, height img))).
  { unfold EmbedArtwork.get_embedded_artwork_resolution.
    rewrite (RoundTripFacts.first_picture_size_of (values audio) _ Hd).
    reflexivity. }
  rewrite (@EmbedFacts.process_music_file_compare (path exported)
             (Picture img') name audio (width img) (height img)
             (width img') (height img') He eq_refl).
  assert (Hb : (width img >=? width img') && (height img >=? height img')
               = true).
  { apply andb_true_iff. rewrite !Z.geb_leb, !Z.leb_le. split; assumption. }
  rewrite Hb. reflexivity.
Qed.

Lemma export_then_embed_keeps_artwork_witness :
  cover (Sample.album_of [("01.mp3", Sample.jpeg 1400 1400);
                          ("02.mp3", Sample.jpeg 300 300)]) = None
  /\ count_APIC (Sample.tag_with (Sample.jpeg 1400 1400)) = 1%nat
  /\ first_mp3
       (EmbedArtwork.album
          (fst (EmbedArtwork.process_folder pillow_writer 600
                  (EmbedArtwork.mkFiles
                     (fst (ExportCoverart.process_folder
                             (Sample.album_of
                                [("01.mp3", Sample.jpeg 1400 1400);
                                 ("02.mp3", Sample.jpeg 300 300)])))
                     None))))
     = Some ("01.mp3", Some (Sample.tag_with (Sample.jpeg 1400 1400))).
Proof.
  split; [reflexivity|]. split; [reflexivity|].
  destruct (@export_then_embed_keeps_artwork pillow_writer 600
              (Sample.album_of [("01.mp3", Sample.jpeg 1400 1400);
                                ("02.mp3", Sample.jpeg 300 300)])
              None "01.mp3" (Sample.tag_with (Sample.jpeg 1400 1400))
              eq_refl eq_refl eq_refl) as [_ [audio' [Hf [-> _]]]].
  exact Hf.
Defined.

(** * Further properties of the scripts *)

(** ** Removing and reading embedded artwork *)

Module ArtworkFacts.

Import EmbedArtwork.

(** The flag and the lines of [remove_artwork], by the keys walked. *)
Lemma remove_artwork_fold_report (filename : string) (ks : list string) :
  forall (b : bool) (t : ID3) (out : list message),
    let r :=
      fold_left
        (fun (acc : bool * ID3 * list message) (tag : string) =>
           let '(artwork_removed, t, out) := acc in
           if Str.startswith tag "APIC"
           then (true, delete tag t, out ++ [RemovedArtwork filename])
           else acc)
        ks (b, t, out) in
    fst (fst r) = b || existsb picture_key ks
    /\ snd r
       = out ++ map (fun _ => RemovedArtwork filename) (filter picture_key ks).
Proof.
  induction ks as [|k ks IH]; intros b t out; cbn [fold_left].
  - cbn. rewrite orb_false_r, app_nil_r. split; reflexivity.
  - cbn [existsb filter]. fold (picture_key k).
    destruct (picture_key k) eqn:Hk.
    + destruct (IH true (delete k t) (out ++ [RemovedArtwork filename]))
        as [Hf Ho].
      cbv zeta in Hf, Ho. rewrite Hf, Ho. cbn [map].
      rewrite <- app_assoc, orb_true_r. split; reflexivity.
    + destruct (IH b t out) as [Hf Ho]. cbv zeta in Hf, Ho.
      rewrite Hf, Ho. split; reflexivity.
Qed.

(** [first_picture_size] looks at the first picture only. *)
Lemma first_picture_size_pictures (tags : list frame) :
  first_picture_size tags
  = match filter is_APIC tags with
    | APIC _ _ _ _ d :: _ =>
        img <- PIL.open d ;; Ok (Some (size img))
    | _ => Ok None
    end.
Proof.
  induction tags as [|t tags IH]; [reflexivity|].
  destruct t; cbn [first_picture_size filter is_APIC]; auto.
Qed.

Lemma filter_is_APIC_head (tags : list frame) (f : frame) (rest : list frame) :
  filter is_APIC tags = f :: rest -> is_APIC f = true.
Proof.
  intros H. assert (Hin : In f (filter is_APIC tags)) by (rewrite H; left; auto).
  apply filter_In in Hin. tauto.
Qed.

End ArtworkFacts.

Module ArtworkReport.

(** [remove_artwork] in full: the tag, the flag, the lines. *)
Lemma remove_artwork_full (filename : string) (audio_file : ID3) :
  snd (fst (EmbedArtwork.remove_artwork filename audio_file))
  = filter (fun kf => negb (picture_key (fst kf))) audio_file
  /\ fst (fst (EmbedArtwork.remove_artwork filename audio_file))
     = existsb picture_key (keys audio_file)
  /\ snd (EmbedArtwork.remove_artwork filename audio_file)
     = map (fun _ => EmbedArtwork.RemovedArtwork filename)
           (filter picture_key (keys audio_file)).
Proof.
  split; [apply TagFacts.remove_artwork_tag|].
  destruct (ArtworkFacts.remove_artwork_fold_report filename (keys audio_file)
              false audio_file []) as [Hf Ho].
  cbv zeta in Hf, Ho. unfold EmbedArtwork.remove_artwork.
  split; [exact Hf|exact Ho].
Qed.

(** [get_embedded_artwork_resolution] by the pictures of the tag. *)
Lemma resolution_by_pictures (audio_file : ID3) :
  (EmbedArtwork.get_embedded_artwork_resolution audio_file = Ok None
   <-> pictures audio_file = [])
  /\ (forall e m ty desc d rest,
         pictures audio_file = APIC e m ty desc d :: rest ->
         EmbedArtwork.get_embedded_artwork_resolution audio_file
         = match d with
           | Picture img => Ok (Some (width img, height img))
           | Raw _ => Raise
           end).
Proof.
  unfold EmbedArtwork.get_embedded_artwork_resolution, pictures.
  rewrite ArtworkFacts.first_picture_size_pictures.
  split.
  - destruct (filter is_APIC (values audio_file)) as [|f rest] eqn:Hp.
    + split; reflexivity.
    + pose proof (ArtworkFacts.filter_is_APIC_head _ _ _ Hp) as Hf.
      destruct f as [e m ty desc d|id text|id]; try discriminate Hf.
      split; [|discriminate].
      destruct d as [img|raw]; cbn; discriminate.
  - intros e m ty desc d rest Hp. rewrite Hp.
    destruct d as [img|raw]; reflexivity.
Qed.

End ArtworkReport.

(** X1: [remove_artwork] keeps, in their order, exactly the frames whose
    key does not start with [APIC]; its flag tells whether a key was
    deleted, and it prints one line per deleted key. *)
Theorem remove_artwork_report (filename : string) (audio_file : ID3) :
  snd (fst (EmbedArtwork.remove_artwork filename audio_file))
  = filter (fun kf => negb (picture_key (fst kf))) audio_file
  /\ fst (fst (EmbedArtwork.remove_artwork filename audio_file))
     = existsb picture_key (keys audio_file)
  /\ snd (EmbedArtwork.remove_artwork filename audio_file)
     = map (fun _ => EmbedArtwork.RemovedArtwork filename)
           (filter picture_key (keys audio_file))
  /\ (keyed audio_file ->
      pictures (snd (fst (EmbedArtwork.remove_artwork filename audio_file)))
      = []
      /\ snd (fst (EmbedArtwork.remove_artwork filename audio_file))
         = other_frames audio_file).
Proof.
  destruct (ArtworkReport.remove_artwork_full filename audio_file)
    as [Ht [Hf Ho]].
  split; [exact Ht|]. split; [exact Hf|]. split; [exact Ho|].
  intros Hk.
  rewrite TagFacts.remove_artwork_tag, TagFacts.keyed_removed by exact Hk.
  split; [apply TagFacts.pictures_other_frames|reflexivity].
Qed.

(** A tag with one picture: the picture goes, the text frames stay. *)
Lemma remove_artwork_report_witness :
  keyed (Sample.tag_with (Sample.jpeg 300 300))
  /\ pictures
       (snd (fst (EmbedArtwork.remove_artwork "01.mp3"
                    (Sample.tag_with (Sample.jpeg 300 300))))) = [].
Proof.
  assert (Hk : keyed (Sample.tag_with (Sample.jpeg 300 300))).
  { repeat constructor. }
  split; [exact Hk|].
  destruct (remove_artwork_report "01.mp3"
              (Sample.tag_with (Sample.jpeg 300 300))) as [_ [_ [_ H]]].
  exact (proj1 (H Hk)).
Defined.

(** X2: [get_embedded_artwork_resolution] answers [None] exactly for a
    tag without picture frame; otherwise it reads the first picture
    only: its size when it decodes, an exception when it does not, also
    when a later picture would decode. *)
Theorem embedded_resolution_of_first_picture (audio_file : ID3) :
  (EmbedArtwork.get_embedded_artwork_resolution audio_file = Ok None
   <-> pictures audio_file = [])
  /\ (forall e m ty desc d rest,
         pictures audio_file = APIC e m ty desc d :: rest ->
         EmbedArtwork.get_embedded_artwork_resolution audio_file
         = match d with
           | Picture img => Ok (Some (width img, height img))
           | Raw _ => Raise
           end).
Proof.
  destruct (ArtworkReport.resolution_by_pictures audio_file) as [Hnone Hfirst].
  split; [exact Hnone|].
  intros e m ty desc d rest Hp. exact (Hfirst e m ty desc d rest Hp).
Qed.

(** A tag whose only picture is of 500 by 300 pixels. *)
Lemma embedded_resolution_of_first_picture_witness :
  EmbedArtwork.get_embedded_artwork_resolution
    (Sample.tag_with (Sample.jpeg 500 300)) = Ok (Some (500, 300)).
Proof.
  destruct (embedded_resolution_of_first_picture
              (Sample.tag_with (Sample.jpeg 500 300))) as [_ H].
  exact (H 3 "image/jpeg" 3 "" (Sample.jpeg 500 300) [] eq_refl).
Defined.

(** ** One audio file *)

Module FileFacts.

Import EmbedArtwork.

Lemma removed_lines_only (filename : string) (audio_file : ID3) (m : message) :
  In m (snd (remove_artwork filename audio_file)) ->
  m = RemovedArtwork filename.
Proof.
  destruct (ArtworkFacts.remove_artwork_fold_report filename (keys audio_file)
              false audio_file []) as [_ Ho].
  cbv zeta in Ho. unfold remove_artwork. rewrite Ho. cbn [app].
  intros Hin. apply in_map_iff in Hin. destruct Hin as [k [Hm _]].
  symmetry. exact Hm.
Qed.

(** What the embedding branch of [process_music_file] returns. *)
Lemma embed_branch (music_path : string) (new_cover : data) (audio_file : ID3)
    (printed : list message) :
  (let '(_, t, out) := remove_artwork music_path audio_file in
   (Some (add (cover_frame new_cover) t),
    printed ++ out ++ [EmbeddedArtwork music_path]))
  = (Some (embedded music_path new_cover audio_file),
     printed ++ snd (remove_artwork music_path audio_file)
     ++ [EmbeddedArtwork music_path]).
Proof.
  unfold embedded.
  destruct (remove_artwork music_path audio_file) as [[b t] out]. reflexivity.
Qed.

(** A file is left as it was, or it receives the new cover; an error is
    reported in the first case only, the embedding in the second only. *)
Lemma process_music_file_cases (folder_path : string) (new_cover : data)
    (name : string) (file : option ID3) :
  let music_path := Str.join folder_path name in
  let r := process_music_file folder_path new_cover (name, file) in
  (fst r = file /\ ~ In (EmbeddedArtwork music_path) (snd r))
  \/ (exists audio,
         file = Some audio
         /\ fst r = Some (embedded music_path new_cover audio)
         /\ ~ In (FileError music_path) (snd r)
         /\ In (EmbeddedArtwork music_path) (snd r)).
Proof.
  intros music_path r. subst r. unfold process_music_file.
  cbn [fst snd]. fold music_path.
  assert (Hembed : forall audio printed,
             ~ In (FileError music_path) printed ->
             ~ In (FileError music_path)
                 (printed ++ snd (remove_artwork music_path audio)
                  ++ [EmbeddedArtwork music_path])
             /\ In (EmbeddedArtwork music_path)
                  (printed ++ snd (remove_artwork music_path audio)
                   ++ [EmbeddedArtwork music_path])).
  { intros audio printed Hp. split.
    - intros Hin. apply in_app_or in Hin. destruct Hin as [Hin|Hin];
        [exact (Hp Hin)|].
      apply in_app_or in Hin. destruct Hin as [Hin|[Hin|[]]];
        [|discriminate Hin].
      apply removed_lines_only in Hin. discriminate Hin.
    - apply in_or_app. right. apply in_or_app. right. left. reflexivity. }
  destruct file as [audio|].
  - destruct (get_embedded_artwork_resolution audio) as [[[ew eh]|]|].
    + destruct (PIL.open new_cover) as [new_artwork|].
      * destruct (size new_artwork) as [nw nh].
        destruct ((ew >=? nw) && (eh >=? nh)).
        -- left. split; [reflexivity|].
           cbn. intros [H|[H|[H|[]]]]; discriminate H.
        -- right. exists audio. rewrite embed_branch. cbn [fst snd].
           split; [reflexivity|]. split; [reflexivity|].
           apply Hembed. cbn. intros [H|[H|[]]]; discriminate H.
      * left. split; [reflexivity|].
        cbn. intros [H|[H|[H|[]]]]; discriminate H.
    + right. exists audio. rewrite embed_branch. cbn [fst snd].
      split; [reflexivity|]. split; [reflexivity|].
      apply Hembed. cbn. intros [H|[]]; discriminate H.
    + left. split; [reflexivity|].
      cbn. intros [H|[H|[]]]; discriminate H.
  - left. split; [reflexivity|].
    cbn. intros [H|[H|[]]]; discriminate H.
Qed.

Lemma other_frames_no_picture (t : ID3) :
  pictures t = [] -> other_frames t = t.
Proof.
  unfold pictures, other_frames, values.
  induction t as [|[k f] t IH]; cbn; [reflexivity|].
  destruct (is_APIC f); cbn; [discriminate|].
  intros H. rewrite (IH H). reflexivity.
Qed.

Lemma no_picture_key (t : ID3) :
  keyed t -> pictures t = [] -> filter picture_key (keys t) = [].
Proof.
  unfold keyed, pictures, values, keys.
  induction t as [|[k f] t IH]; cbn; intros Hk Hp; [reflexivity|].
  inversion Hk as [|? ? [_ Hkf] Hk']; subst. cbn in Hkf.
  rewrite Hkf. destruct (is_APIC f); [discriminate Hp|]. exact (IH Hk' Hp).
Qed.

End FileFacts.

(** X3: an audio file without embedded artwork always receives the cover:
    the picture frame is appended to its tag, whose other frames keep
    their place, and the cover itself is not looked at. *)
Theorem file_without_artwork_gets_cover (folder_path : string)
    (new_cover : data) (name : string) (audio : ID3) :
  keyed audio ->
  pictures audio = [] ->
  EmbedArtwork.process_music_file folder_path new_cover (name, Some audio)
  = (Some (audio ++ [("APIC:Cover", EmbedArtwork.cover_frame new_cover)]),
     [EmbedArtwork.Processing (Str.join folder_path name);
      EmbedArtwork.EmbeddedArtwork (Str.join folder_path name)]).
Proof.
  intros Hk Hp.
  destruct (ArtworkReport.resolution_by_pictures audio) as [[_ Hnone] _].
  unfold EmbedArtwork.process_music_file. cbn [fst snd].
  rewrite (Hnone Hp), FileFacts.embed_branch.
  rewrite TagFacts.embedded_keyed by exact Hk.
  rewrite FileFacts.other_frames_no_picture by exact Hp.
  destruct (ArtworkReport.remove_artwork_full (Str.join folder_path name)
              audio) as [_ [_ Hout]].
  rewrite Hout, FileFacts.no_picture_key by assumption. reflexivity.
Qed.

(** A tag with two text frames and a cover that does not even decode. *)
Lemma file_without_artwork_gets_cover_witness :
  keyed [("TPE1", TextFrame "TPE1" ["Zac Brown Band"])]
  /\ pictures [("TPE1", TextFrame "TPE1" ["Zac Brown Band"])] = []
  /\ fst (EmbedArtwork.process_music_file Sample.album_path (Raw [])
            ("01.mp3", Some [("TPE1", TextFrame "TPE1" ["Zac Brown Band"])]))
     = Some [("TPE1", TextFrame "TPE1" ["Zac Brown Band"]);
             ("APIC:Cover", EmbedArtwork.cover_frame (Raw []))].
Proof.
  assert (Hk : keyed [("TPE1", TextFrame "TPE1" ["Zac Brown Band"])]).
  { repeat constructor. }
  split; [exact Hk|]. split; [reflexivity|].
  exact (f_equal fst
           (file_without_artwork_gets_cover Sample.album_path (Raw [])
              "01.mp3" [("TPE1", TextFrame "TPE1" ["Zac Brown Band"])]
              Hk eq_refl)).
Defined.

(** X4: whatever goes wrong with one audio file (no ID3 header, embedded
    artwork or cover that does not decode), the file is left as it was:
    a file for which an error is printed is unchanged, and a file that
    changes holds the new cover and is reported as embedded. *)
Theorem file_error_leaves_file_unchanged (folder_path : string)
    (new_cover : data) (name : string) (file : option ID3) :
  let music_path := Str.join folder_path name in
  let after :=
    fst (EmbedArtwork.process_music_file folder_path new_cover (name, file)) in
  let out :=
    snd (EmbedArtwork.process_music_file folder_path new_cover (name, file)) in
  (In (EmbedArtwork.FileError music_path) out -> after = file)
  /\ (after <> file ->
      In (EmbedArtwork.EmbeddedArtwork music_path) out
      /\ exists audio,
           file = Some audio
           /\ after = Some (EmbedArtwork.embedded music_path new_cover audio)).
Proof.
  intros music_path after out. subst after out music_path.
  destruct (FileFacts.process_music_file_cases folder_path new_cover name file)
    as [[Hsame _]|[audio [Hf [Ha [Hno Hin]]]]].
  - split; [intros _; exact Hsame|]. intros Hne. contradiction.
  - split.
    + intros Herr. contradiction.
    + intros _. split; [exact Hin|]. exists audio. auto.
Qed.

(** A file without ID3 header. *)
Lemma file_error_leaves_file_unchanged_witness :
  In (EmbedArtwork.FileError (Str.join Sample.album_path "01.mp3"))
     (snd (EmbedArtwork.process_music_file Sample.album_path
             (Sample.jpeg 600 600) ("01.mp3", None)))
  /\ fst (EmbedArtwork.process_music_file Sample.album_path
            (Sample.jpeg 600 600) ("01.mp3", None)) = None.
Proof.
  assert (Hin : In (EmbedArtwork.FileError
                      (Str.join Sample.album_path "01.mp3"))
                   (snd (EmbedArtwork.process_music_file Sample.album_path
                           (Sample.jpeg 600 600) ("01.mp3", None)))).
  { right. left. reflexivity. }
  split; [exact Hin|].
  exact (proj1 (file_error_leaves_file_unchanged Sample.album_path
                  (Sample.jpeg 600 600) "01.mp3" None) Hin).
Defined.

(** ** One folder *)

Module FolderFacts.

Import EmbedArtwork.

(** The loop of [process_folder], entry by entry. *)
Lemma process_music_files_map (folder_path : string) (new_cover : data)
    (entries : list (string * option ID3)) :
  fst (process_music_files folder_path new_cover entries)
  = map (fun e =>
           (fst e,
            if Str.endswith (fst e) ".mp3"
            then fst (process_music_file folder_path new_cover e)
            else snd e))
        entries.
Proof.
  induction entries as [|e l IH]; [reflexivity|].
  cbn [process_music_files map].
  destruct (process_music_files folder_path new_cover l) as [rest out'].
  cbn [fst] in IH. rewrite <- IH.
  destruct (Str.endswith (fst e) ".mp3").
  - destruct (process_music_file folder_path new_cover e) as [after out].
    reflexivity.
  - reflexivity.
Qed.

(** [process_folder] by the cover [prepare_cover] settles on. *)
Lemma process_folder_album (writer : jpeg_writer) (TEMP_RES : Z) (fs : files) :
  album (fst (process_folder writer TEMP_RES fs))
  = match fst (fst (prepare_cover writer TEMP_RES fs)) with
    | None => album fs
    | Some new_cover =>
        mkFolder (path (album fs)) (cover (album fs))
          (fst (process_music_files (path (album fs)) new_cover
                  (listing (album fs))))
    end.
Proof.
  unfold process_folder.
  destruct (prepare_cover writer TEMP_RES fs) as [[[c|] tmp] out];
    cbn [fst]; [|reflexivity].
  destruct (process_music_files (path (album fs)) c (listing (album fs)))
    as [entries out'].
  reflexivity.
Qed.

(** The cover [prepare_cover] settles on is read off [cover.jpg] alone. *)
Lemma prepare_cover_by_cover (writer : jpeg_writer) (TEMP_RES : Z)
    (fs1 fs2 : files) :
  cover (album fs1) = cover (album fs2) ->
  fst (fst (prepare_cover writer TEMP_RES fs1))
  = fst (fst (prepare_cover writer TEMP_RES fs2)).
Proof.
  intros H. unfold prepare_cover. rewrite H.
  destruct (cover (album fs2)) as [c|]; [|reflexivity].
  destruct (is_empty c); [reflexivity|].
  destruct (PIL.open c) as [img|]; [|reflexivity].
  destruct (negb (String.eqb (format img) "JPEG")).
  - destruct (save_jpeg writer
                (if needs_RGB img then convert_RGB img else img));
      cbn [bind]; [|reflexivity].
    destruct (check_cover_resolution c) as [[w h]|]; [|reflexivity].
    destruct ((w <? TEMP_RES) && (h <? TEMP_RES)); [reflexivity|].
    destruct (create_temp_cover writer c TEMP_RES); reflexivity.
  - destruct (check_cover_resolution c) as [[w h]|]; [|reflexivity].
    destruct ((w <? TEMP_RES) && (h <? TEMP_RES)); [reflexivity|].
    destruct (create_temp_cover writer c TEMP_RES); reflexivity.
Qed.

Lemma set_holds (k : string) (f : frame) (t : ID3) : In (k, f) (set k f t).
Proof.
  induction t as [|[k' f'] t IH]; cbn; [auto|].
  destruct (String.eqb k k'); cbn; auto.
Qed.

(** A tag that received the cover holds a picture. *)
Lemma embedded_has_picture (music_path : string) (new_cover : data)
    (audio : ID3) :
  pictures (embedded music_path new_cover audio) <> [].
Proof.
  unfold embedded, add, pictures, values. intros Hnil.
  assert (Hin : In (cover_frame new_cover)
                   (filter is_APIC
                      (map snd
                         (set (HashKey (cover_frame new_cover))
                            (cover_frame new_cover)
                            (snd (fst (remove_artwork music_path audio))))))).
  { apply filter_In. split; [|reflexivity].
    apply in_map_iff. eexists. split; [|apply set_holds]. reflexivity. }
  rewrite Hnil in Hin. exact Hin.
Qed.

(** Embedding twice is embedding once. *)
Lemma embedded_twice (music_path : string) (new_cover : data) (audio : ID3) :
  embedded music_path new_cover (embedded music_path new_cover audio)
  = embedded music_path new_cover audio.
Proof.
  assert (Hshape : forall t,
             embedded music_path new_cover t
             = filter (fun kf => negb (picture_key (fst kf))) t
               ++ [("APIC:Cover", cover_frame new_cover)]).
  { intros t. unfold embedded, add. rewrite TagFacts.remove_artwork_tag.
    apply TagFacts.set_fresh. intros [k f] Hin.
    apply filter_In in Hin. destruct Hin as [_ Hk]. cbn in *.
    intros ->. discriminate Hk. }
  rewrite (Hshape (embedded music_path new_cover audio)), (Hshape audio).
  rewrite filter_app. cbn. rewrite app_nil_r.
  rewrite TagFacts.filter_twice. f_equal.
  apply filter_ext. intros kf. apply andb_diag.
Qed.

(** Processing a file a second time with the same cover changes nothing
    more. *)
Lemma process_music_file_twice (folder_path : string) (new_cover : data)
    (name : string) (file : option ID3) :
  fst (process_music_file folder_path new_cover
         (name, fst (process_music_file folder_path new_cover (name, file))))
  = fst (process_music_file folder_path new_cover (name, file)).
Proof.
  destruct (FileFacts.process_music_file_cases folder_path new_cover name file)
    as [[Hsame _]|[audio [Hf [Ha _]]]].
  - rewrite Hsame. exact Hsame.
  - rewrite Ha.
    destruct (FileFacts.process_music_file_cases folder_path new_cover name
                (Some (embedded (Str.join folder_path name) new_cover audio)))
      as [[Hsame _]|[audio' [Hf' [Ha' _]]]].
    + exact Hsame.
    + rewrite Ha'. injection Hf' as <-. rewrite embedded_twice. reflexivity.
Qed.

(** A file with a tag holds a picture once it has been processed. *)
Lemma processed_file_has_picture (folder_path : string) (new_cover : data)
    (name : string) (file : option ID3) (t : ID3) :
  fst (process_music_file folder_path new_cover (name, file)) = Some t ->
  pictures t <> [].
Proof.
  unfold process_music_file. cbn [fst snd].
  destruct file as [audio|]; [|discriminate].
  destruct (ArtworkReport.resolution_by_pictures audio) as [[Hnone _] _].
  destruct (get_embedded_artwork_resolution audio) as [[[ew eh]|]|] eqn:He.
  - assert (Hp : pictures audio <> []).
    { intros Hp.
      destruct (ArtworkReport.resolution_by_pictures audio) as [[_ Hn] _].
      rewrite (Hn Hp) in He. discriminate He. }
    destruct (PIL.open new_cover) as [new_artwork|].
    + destruct (size new_artwork) as [nw nh].
      destruct ((ew >=? nw) && (eh >=? nh)).
      * cbn. intros [= <-]. exact Hp.
      * rewrite FileFacts.embed_branch. cbn. intros [= <-].
        apply embedded_has_picture.
    + cbn. intros [= <-]. exact Hp.
  - rewrite FileFacts.embed_branch. cbn. intros [= <-].
    apply embedded_has_picture.
  - cbn. intros [= <-]. intros Hp.
    destruct (ArtworkReport.resolution_by_pictures audio) as [[_ Hn] _].
    rewrite (Hn Hp) in He. discriminate He.
Qed.

End FolderFacts.

(** X5: a folder whose [cover.jpg] is missing, empty or not an image is
    skipped: no audio file and no scratch file is touched, and one line
    is printed. *)
Theorem folder_without_usable_cover_skipped (writer : jpeg_writer)
    (TEMP_RES : Z) (fs : EmbedArtwork.files) :
  cover (EmbedArtwork.album fs) = None
  \/ (exists c, cover (EmbedArtwork.album fs) = Some c
                /\ (is_empty c = true \/ PIL.open c = Raise)) ->
  fst (EmbedArtwork.process_folder writer TEMP_RES fs) = fs
  /\ exists line,
       snd (EmbedArtwork.process_folder writer TEMP_RES fs) = [line]
       /\ (line = EmbedArtwork.CoverNotFound (path (EmbedArtwork.album fs))
           \/ line = EmbedArtwork.CoverEmpty (path (EmbedArtwork.album fs))
           \/ line = EmbedArtwork.CoverInvalid (path (EmbedArtwork.album fs))).
Proof.
  intros H. unfold EmbedArtwork.process_folder, EmbedArtwork.prepare_cover.
  destruct fs as [a tmp]. cbn [EmbedArtwork.album EmbedArtwork.temp_cover] in *.
  destruct H as [H|[c [H Hc]]]; rewrite H.
  - split; [reflexivity|]. eexists. split; [reflexivity|]. auto.
  - destruct (is_empty c) eqn:He.
    + split; [reflexivity|]. eexists. split; [reflexivity|]. auto.
    + destruct Hc as [Hc|Hc]; [discriminate|]. rewrite Hc.
      split; [reflexivity|]. eexists. split; [reflexivity|]. auto.
Qed.

(** A folder whose cover file has no byte. *)
Lemma folder_without_usable_cover_skipped_witness :
  fst (EmbedArtwork.process_folder pillow_writer 600
         (EmbedArtwork.mkFiles
            (mkFolder Sample.album_path (Some (Raw []))
               [("01.mp3", Some (Sample.tag_with (Sample.jpeg 300 300)))])
            None))
  = EmbedArtwork.mkFiles
      (mkFolder Sample.album_path (Some (Raw []))
         [("01.mp3", Some (Sample.tag_with (Sample.jpeg 300 300)))])
      None.
Proof.
  apply (folder_without_usable_cover_skipped pillow_writer 600).
  right. exists (Raw []). split; [reflexivity|]. left. reflexivity.
Defined.

(** X6: the embedding pass never touches [cover.jpg], the folder's path,
    or the names and the order of its entries; an entry that is not an
    MP3 keeps its contents, and an MP3 either keeps its tag or holds the
    tag it had with the artwork replaced by the prepared cover. *)
Theorem embedding_pass_changes_only_mp3_tags (writer : jpeg_writer)
    (TEMP_RES : Z) (fs : EmbedArtwork.files) :
  let folder_path := path (EmbedArtwork.album fs) in
  let after :=
    EmbedArtwork.album (fst (EmbedArtwork.process_folder writer TEMP_RES fs)) in
  path after = folder_path
  /\ cover after = cover (EmbedArtwork.album fs)
  /\ Forall2
       (fun e e' =>
          fst e' = fst e
          /\ (snd e' = snd e
              \/ (Str.endswith (fst e) ".mp3" = true
                  /\ exists audio new_cover,
                       snd e = Some audio
                       /\ fst (fst (EmbedArtwork.prepare_cover writer
                                      TEMP_RES fs)) = Some new_cover
                       /\ snd e'
                          = Some (EmbedArtwork.embedded
                                    (Str.join folder_path (fst e))
                                    new_cover audio))))
       (listing (EmbedArtwork.album fs)) (listing after).
Proof.
  intros folder_path after. subst after.
  rewrite FolderFacts.process_folder_album.
  destruct (fst (fst (EmbedArtwork.prepare_cover writer TEMP_RES fs)))
    as [c|].
  - cbn [path cover listing]. split; [reflexivity|]. split; [reflexivity|].
    rewrite FolderFacts.process_music_files_map.
    fold folder_path.
    induction (listing (EmbedArtwork.album fs)) as [|[name file] l IH];
      cbn [map]; constructor; [|exact IH].
    cbn [fst snd]. split; [reflexivity|].
    destruct (Str.endswith name ".mp3") eqn:Hn; [|left; reflexivity].
    destruct (FileFacts.process_music_file_cases folder_path c name file)
      as [[Hsame _]|[audio [Hf [Ha _]]]].
    + left. exact Hsame.
    + right. split; [reflexivity|]. exists audio, c. auto.
  - split; [reflexivity|]. split; [reflexivity|].
    induction (listing (EmbedArtwork.album fs)) as [|e l IH];
      constructor; auto.
Qed.

(** X7: when the pass has a cover to embed, every MP3 of the folder that
    has an ID3 tag carries artwork afterwards. *)
Theorem embedding_pass_leaves_artwork_everywhere (writer : jpeg_writer)
    (TEMP_RES : Z) (fs : EmbedArtwork.files) (new_cover : data)
    (name : string) (t : ID3) :
  fst (fst (EmbedArtwork.prepare_cover writer TEMP_RES fs)) = Some new_cover ->
  In (name, Some t)
     (listing (EmbedArtwork.album
                 (fst (EmbedArtwork.process_folder writer TEMP_RES fs)))) ->
  Str.endswith name ".mp3" = true ->
  (1 <= count_APIC t)%nat.
Proof.
  intros Hc Hin Hn.
  rewrite FolderFacts.process_folder_album, Hc in Hin. cbn [listing] in Hin.
  rewrite FolderFacts.process_music_files_map in Hin.
  apply in_map_iff in Hin. destruct Hin as [[name' file] [Heq _]].
  cbn [fst snd] in Heq. injection Heq as -> Ht. rewrite Hn in Ht.
  pose proof (FolderFacts.processed_file_has_picture _ _ _ _ _ Ht) as Hp.
  unfold count_APIC. fold (pictures t).
  destruct (pictures t); [contradiction|cbn; lia].
Qed.

(** A folder with a cover and a file without artwork. *)
Lemma embedding_pass_leaves_artwork_everywhere_witness :
  (1 <= count_APIC
          [("TPE1", TextFrame "TPE1" ["Zac Brown Band"]);
           ("APIC:Cover", EmbedArtwork.cover_frame (Sample.jpeg 300 300))])%nat.
Proof.
  apply (embedding_pass_leaves_artwork_everywhere pillow_writer 600
           (EmbedArtwork.mkFiles
              (mkFolder Sample.album_path (Some (Sample.jpeg 300 300))
                 [("01.mp3",
                   Some [("TPE1", TextFrame "TPE1" ["Zac Brown Band"])])])
              None)
           (Sample.jpeg 300 300) "01.mp3").
  - reflexivity.
  - left. reflexivity.
  - reflexivity.
Defined.

(** X8: the embedding pass is idempotent on the folder: a second pass
    right after the first leaves every audio file as the first left
    it. *)
Theorem embedding_pass_idempotent (writer : jpeg_writer) (TEMP_RES : Z)
    (fs : EmbedArtwork.files) :
  EmbedArtwork.album
    (fst (EmbedArtwork.process_folder writer TEMP_RES
            (fst (EmbedArtwork.process_folder writer TEMP_RES fs))))
  = EmbedArtwork.album (fst (EmbedArtwork.process_folder writer TEMP_RES fs)).
Proof.
  set (fs1 := fst (EmbedArtwork.process_folder writer TEMP_RES fs)).
  assert (H1 : EmbedArtwork.album fs1
               = match fst (fst (EmbedArtwork.prepare_cover writer
                                   TEMP_RES fs)) with
                 | None => EmbedArtwork.album fs
                 | Some new_cover =>
                     mkFolder (path (EmbedArtwork.album fs))
                       (cover (EmbedArtwork.album fs))
                       (fst (EmbedArtwork.process_music_files
                               (path (EmbedArtwork.album fs)) new_cover
                               (listing (EmbedArtwork.album fs))))
                 end).
  { apply FolderFacts.process_folder_album. }
  assert (Hcov : cover (EmbedArtwork.album fs1)
                 = cover (EmbedArtwork.album fs)).
  { rewrite H1.
    destruct (fst (fst (EmbedArtwork.prepare_cover writer TEMP_RES fs)));
      reflexivity. }
  rewrite FolderFacts.process_folder_album.
  rewrite (FolderFacts.prepare_cover_by_cover writer TEMP_RES fs1 fs Hcov).
  rewrite H1.
  destruct (fst (fst (EmbedArtwork.prepare_cover writer TEMP_RES fs)))
    as [c|]; [|reflexivity].
  cbn [path cover listing]. f_equal.
  rewrite !FolderFacts.process_music_files_map, map_map.
  apply map_ext. intros [name file]. cbn [fst snd].
  destruct (Str.endswith name ".mp3"); [|reflexivity].
  f_equal. apply FolderFacts.process_music_file_twice.
Qed.

(** ** The normalizer and the export *)

(** X9: whenever [create_temp_cover] returns, its input was an image and
    its output is a JPEG that is never larger than the input in either
    dimension: [temp_res] by [temp_res] when both sides reach [temp_res]
    (then [temp_res] is at least one pixel), the original size
    otherwise. *)
Theorem normalized_cover_never_larger (writer : jpeg_writer) (d : data)
    (temp_res : Z) (out : data) :
  EmbedArtwork.create_temp_cover writer d temp_res = Ok out ->
  exists img m w h,
    d = Picture img
    /\ out = Picture (mkImage "JPEG" m w h)
    /\ writer (EmbedArtwork.mode_to_save img) w h = Some m
    /\ w <= width img /\ h <= height img
    /\ ((temp_res <= width img /\ temp_res <= height img
         /\ 1 <= temp_res /\ w = temp_res /\ h = temp_res)
        \/ ((width img < temp_res \/ height img < temp_res)
            /\ w = width img /\ h = height img)).
Proof.
  destruct d as [img|raw]; [|discriminate].
  destruct ((width img >=? temp_res) && (height img >=? temp_res)) eqn:Hc.
  - assert (Hge : temp_res <= width img /\ temp_res <= height img).
    { apply andb_true_iff in Hc. rewrite !Z.geb_leb, !Z.leb_le in Hc.
      exact Hc. }
    destruct (Z_lt_le_dec temp_res 1) as [Hlt|HR].
    + rewrite NormalizerFacts.create_temp_cover_no_pixel by assumption.
      discriminate.
    + rewrite NormalizerFacts.create_temp_cover_resize by assumption.
      unfold save_jpeg. cbn [mode width height].
      destruct (writer (EmbedArtwork.mode_to_save img) temp_res temp_res)
        as [m|] eqn:Hm; [|discriminate].
      intros [= <-]. exists img, m, temp_res, temp_res.
      split; [reflexivity|]. split; [reflexivity|]. split; [exact Hm|].
      split; [tauto|]. split; [tauto|]. left. tauto.
  - assert (Hlt : width img < temp_res \/ height img < temp_res).
    { apply andb_false_iff in Hc. rewrite !Z.geb_leb, !Z.leb_gt in Hc.
      exact Hc. }
    rewrite NormalizerFacts.create_temp_cover_keep by assumption.
    unfold save_jpeg. cbn [mode width height].
    destruct (writer (EmbedArtwork.mode_to_save img) (width img) (height img))
      as [m|] eqn:Hm; [|discriminate].
    intros [= <-]. exists img, m, (width img), (height img).
    split; [reflexivity|]. split; [reflexivity|]. split; [exact Hm|].
    split; [lia|]. split; [lia|]. right. tauto.
Qed.

(** A wide cover: 1400 by 400 pixels stays 1400 by 400. *)
Lemma normalized_cover_never_larger_witness :
  EmbedArtwork.create_temp_cover pillow_writer (Sample.jpeg 1400 400) 600
  = Ok (Sample.jpeg 1400 400)
  /\ exists img m w h,
       Sample.jpeg 1400 400 = Picture img
       /\ Sample.jpeg 1400 400 = Picture (mkImage "JPEG" m w h)
       /\ w <= width img /\ h <= height img.
Proof.
  split; [reflexivity|].
  destruct (normalized_cover_never_larger pillow_writer (Sample.jpeg 1400 400)
              600 (Sample.jpeg 1400 400) eq_refl)
    as [img [m [w [h [Hd [Ho [_ [Hw [Hh _]]]]]]]]].
  exists img, m, w, h. auto.
Defined.

Module ExportFacts.

Import ExportCoverart.

Lemma first_picture_pictures (tags : list frame) :
  first_picture tags
  = match filter is_APIC tags with
    | APIC _ _ _ _ d :: _ => Some d
    | _ => None
    end.
Proof.
  induction tags as [|t tags IH]; [reflexivity|].
  destruct t; cbn [first_picture filter is_APIC]; auto.
Qed.

Lemma first_picture_none (tags : list frame) :
  first_picture tags = None <-> filter is_APIC tags = [].
Proof.
  rewrite first_picture_pictures.
  destruct (filter is_APIC tags) as [|f rest] eqn:Hp; [tauto|].
  pose proof (ArtworkFacts.filter_is_APIC_head _ _ _ Hp) as Hf.
  destruct f; try discriminate Hf. split; discriminate.
Qed.

(** The folder [process_folder] leaves. *)
Lemma process_folder_folder (f : folder) :
  fst (process_folder f)
  = match cover f with
    | Some _ => f
    | None =>
        match first_mp3 f with
        | Some (_, Some audio) =>
            match first_picture (values audio) with
            | Some d => mkFolder (path f) (Some d) (listing f)
            | None => f
            end
        | _ => f
        end
    end.
Proof.
  unfold process_folder. destruct (cover f); [reflexivity|].
  rewrite CoverFacts.export_cover_from_mp3_first.
  destruct (first_mp3 f) as [[name [audio|]]|]; try reflexivity.
  destruct (first_picture (values audio)); reflexivity.
Qed.

End ExportFacts.

(** X10: the export never overwrites a [cover.jpg] that is there, never
    changes an audio file or the folder's entries, and is idempotent: a
    second run on the folder it leaves changes nothing. *)
Theorem export_keeps_existing_cover_and_files (f : folder) :
  let f' := fst (ExportCoverart.process_folder f) in
  path f' = path f
  /\ listing f' = listing f
  /\ (forall c, cover f = Some c -> f' = f)
  /\ (cover f' = None -> f' = f)
  /\ fst (ExportCoverart.process_folder f') = f'.
Proof.
  intros f'. subst f'. rewrite !ExportFacts.process_folder_folder.
  destruct (cover f) as [c|] eqn:Hc.
  - rewrite Hc. split; [reflexivity|]. split; [reflexivity|].
    split; [reflexivity|]. split; [intros H; congruence|reflexivity].
  - destruct (first_mp3 f) as [[name [audio|]]|] eqn:Hf.
    + destruct (ExportCoverart.first_picture (values audio)) as [d|] eqn:Hd.
      * cbn [path listing cover].
        split; [reflexivity|]. split; [reflexivity|].
        split; [intros c H; discriminate H|].
        split; [intros H; discriminate H|reflexivity].
      * rewrite Hc, Hf, Hd. split; [reflexivity|]. split; [reflexivity|].
        split; [intros c H; discriminate H|]. split; reflexivity.
    + rewrite Hc, Hf. split; [reflexivity|]. split; [reflexivity|].
      split; [intros c H; discriminate H|]. split; reflexivity.
    + rewrite Hc, Hf. split; [reflexivity|]. split; [reflexivity|].
      split; [intros c H; discriminate H|]. split; reflexivity.
Qed.

(** X11: the export succeeds exactly when the first MP3 of the listing
    has an ID3 tag with a picture frame; no later MP3 is consulted.  On
    success the cover is the data of that file's first picture. *)
Theorem export_succeeds_iff_first_mp3_has_picture (f : folder) :
  (fst (fst (ExportCoverart.export_cover_from_mp3 f)) = true
   <-> exists name audio,
         first_mp3 f = Some (name, Some audio) /\ pictures audio <> [])
  /\ (forall name audio e m ty desc d rest,
         first_mp3 f = Some (name, Some audio) ->
         pictures audio = APIC e m ty desc d :: rest ->
         cover (snd (fst (ExportCoverart.export_cover_from_mp3 f))) = Some d).
Proof.
  rewrite CoverFacts.export_cover_from_mp3_first. split.
  - destruct (first_mp3 f) as [[name [audio|]]|].
    + destruct (ExportCoverart.first_picture (values audio)) as [d|] eqn:Hd.
      * cbn. split; [|reflexivity]. intros _. exists name, audio.
        split; [reflexivity|]. intros Hp.
        apply ExportFacts.first_picture_none in Hp. congruence.
      * cbn. split; [discriminate|].
        intros [name' [audio' [[= _ <-] Hp]]]. exfalso. apply Hp.
        apply ExportFacts.first_picture_none. exact Hd.
    + cbn. split; [discriminate|]. intros [n [a [H _]]]. discriminate H.
    + cbn. split; [discriminate|]. intros [n [a [H _]]]. discriminate H.
  - intros name audio e m ty desc d rest Hf Hp. rewrite Hf.
    rewrite ExportFacts.first_picture_pictures. fold (pictures audio).
    rewrite Hp. reflexivity.
Qed.

(** The first MP3 has no picture, the second has one: nothing is
    exported. *)
Lemma export_succeeds_iff_first_mp3_has_picture_witness :
  fst (fst (ExportCoverart.export_cover_from_mp3
              (mkFolder Sample.album_path None
                 [("01.mp3", Some [("TPE1", TextFrame "TPE1" ["Zac Brown Band"])]);
                  ("02.mp3", Some (Sample.tag_with (Sample.jpeg 300 300)))])))
  <> true.
Proof.
  intros H.
  apply (proj1 (proj1 (export_succeeds_iff_first_mp3_has_picture _))) in H.
  destruct H as [name [audio [[= _ <-] Hp]]]. apply Hp. reflexivity.
Defined.

(** ** The fetcher, source by source *)

Module SourceFacts.

Import Id3tocovr.

Section Providers.

Variable USE_HIRES_PRIORITY : bool.
Variable USE_MUSICBRAINZ : bool.
Variable NO_LOW_RES : bool.
Variable lower : string -> string.
Variable frame_str : frame -> string.
Variable search_releases : string -> string -> result (option (list string)).
Variable caa_release : string -> result (option (list (bool * string))).
Variable search_album : string -> result (list (string * string)).
Variable lastfm_cover : string -> string -> result (option string).
Variable http_get : string -> result response.

Local Abbreviation resolve :=
  (resolve_artwork USE_HIRES_PRIORITY USE_MUSICBRAINZ NO_LOW_RES lower
     search_releases caa_release search_album lastfm_cover).
Local Abbreviation fetch :=
  (fetch_artwork_for_folder USE_HIRES_PRIORITY USE_MUSICBRAINZ NO_LOW_RES
     lower frame_str search_releases caa_release search_album lastfm_cover
     http_get).

(** X12: [download_artwork] sends one request, prints nothing and logs
    one line.  It reaches [open(save_path, "wb")] exactly for an answer
    that has no error status and whose content type mentions "image" (a
    missing header counts as empty); otherwise it returns [False] and
    leaves the path as it was.  Past that point it returns [True] exactly
    when the whole body arrived, and the file then holds that body; when
    the transfer breaks off it logs the failure, returns [False] and
    leaves the part received in the file. *)
Theorem download_writes_only_image_answers (url save_path : string)
    (w : world) :
  let r := download_artwork http_get url save_path w in
  requests (snd r) = requests w ++ [Download url]
  /\ printed (snd r) = printed w
  /\ (exists l, logged (snd r) = logged w ++ [l])
  /\ (snd (fst r) = None <->
      http_get url = Raise
      \/ exists resp,
           http_get url = Ok resp
           /\ ((400 <= status resp /\ status resp < 600)
               \/ content_type resp = None
               \/ exists c, content_type resp = Some c
                            /\ Str.contains c "image" = false))
  /\ (snd (fst r) = None -> fst (fst r) = false)
  /\ (forall resp,
         http_get url = Ok resp -> snd (fst r) <> None ->
         match body resp with
         | Complete content =>
             fst r = (true, Some content)
             /\ logged (snd r) = logged w ++ [SavedTo save_path]
         | Interrupted received =>
             fst r = (false, Some received)
             /\ logged (snd r) = logged w ++ [DownloadError]
         end)
  /\ (fst (fst r) = true <->
      exists resp content,
        http_get url = Ok resp /\ image_answer resp
        /\ body resp = Complete content).
Proof.
  intros r. subst r. unfold download_artwork, bindM, send, log, ret.
  unfold image_answer. cbn [fst snd].
  destruct (http_get url) as [resp|].
  - destruct ((400 <=? status resp) && (status resp <? 600)) eqn:Hs.
    + assert (Hst : 400 <= status resp /\ status resp < 600).
      { apply andb_true_iff in Hs. rewrite Z.leb_le, Z.ltb_lt in Hs.
        exact Hs. }
      cbn. split; [reflexivity|]. split; [reflexivity|].
      split; [eexists; reflexivity|]. split.
      * split; [|reflexivity]. intros _. right. exists resp.
        split; [reflexivity|]. left. exact Hst.
      * split; [reflexivity|]. split.
        -- intros resp' _ H. contradiction.
        -- split; [discriminate|].
           intros [resp' [content [[= <-] [[Hn _] _]]]]. contradiction.
    + assert (Hns : ~ (400 <= status resp /\ status resp < 600)).
      { intros [H1 H2]. apply andb_false_iff in Hs.
        rewrite Z.leb_gt, Z.ltb_ge in Hs. lia. }
      destruct (content_type resp) as [c|] eqn:Hct.
      * destruct (Str.contains c "image") eqn:Hc; cbn [negb].
        -- destruct (body resp) as [content|received] eqn:Hb; cbn.
           ++ split; [reflexivity|]. split; [reflexivity|].
              split; [eexists; reflexivity|]. split.
              ** split; [discriminate|].
                 intros [H|[resp' [[= <-] [H|[H|[c' [H1 H2]]]]]]];
                   try discriminate; try contradiction; congruence.
              ** split; [discriminate|]. split.
                 --- intros resp' [= <-] _. rewrite Hb. split; reflexivity.
                 --- split; [|reflexivity]. intros _.
                     exists resp, content. rewrite Hct. auto.
           ++ split; [reflexivity|]. split; [reflexivity|].
              split; [eexists; reflexivity|]. split.
              ** split; [discriminate|].
                 intros [H|[resp' [[= <-] [H|[H|[c' [H1 H2]]]]]]];
                   try discriminate; try contradiction; congruence.
              ** split; [discriminate|]. split.
                 --- intros resp' [= <-] _. rewrite Hb. split; reflexivity.
                 --- split; [discriminate|].
                     intros [resp' [content [[= <-] [_ H]]]]. congruence.
        -- cbn. split; [reflexivity|]. split; [reflexivity|].
           split; [eexists; reflexivity|]. split.
           ++ split; [|reflexivity]. intros _. right. exists resp.
              split; [reflexivity|]. right. right. exists c. auto.
           ++ split; [reflexivity|]. split.
              ** intros resp' _ H. contradiction.
              ** split; [discriminate|].
                 intros [resp' [content [[= <-] [[_ H] _]]]].
                 rewrite Hct in H. congruence.
      * cbn. split; [reflexivity|]. split; [reflexivity|].
        split; [eexists; reflexivity|]. split.
        -- split; [|reflexivity]. intros _. right. exists resp.
           split; [reflexivity|]. right. left. exact Hct.
        -- split; [reflexivity|]. split.
           ++ intros resp' _ H. contradiction.
           ++ split; [discriminate|].
              intros [resp' [content [[= <-] [[_ H] _]]]].
              rewrite Hct in H. discriminate H.
  - cbn. split; [reflexivity|]. split; [reflexivity|].
    split; [eexists; reflexivity|]. split.
    + split; [|reflexivity]. intros _. left. reflexivity.
    + split; [reflexivity|]. split.
      * intros resp H. discriminate H.
      * split; [discriminate|]. intros [resp [content [H _]]]. discriminate H.
Qed.

(** X13: the iTunes lookup returns the artwork of the first result whose
    artist name equals the artist up to [lower]; it returns [None] when
    the search raises or no result matches, whatever the album titles, and
    sends exactly one request. *)
Theorem itunes_takes_first_matching_artist (artist album : string)
    (w : world) :
  let r := fetch_itunes_artwork lower search_album artist album w in
  requests (snd r) = requests w ++ [ITunesSearch album]
  /\ (forall url,
         fst r = Some url ->
         exists results before name rest,
           search_album album = Ok results
           /\ results = before ++ (name, url) :: rest
           /\ lower name = lower artist
           /\ forall other, In other before ->
                            lower (fst other) <> lower artist)
  /\ (forall results,
         search_album album = Ok results ->
         fst r = None ->
         forall other, In other results -> lower (fst other) <> lower artist).
Proof.
  intros r. subst r. unfold fetch_itunes_artwork, bindM, send, log, ret.
  cbn [fst snd].
  destruct (search_album album) as [results|]; cbn.
  - split; [reflexivity|].
    assert (Hfind : forall l : list (string * string),
               match find (fun r => String.eqb (lower (fst r)) (lower artist)) l
               with
               | Some (name, url) =>
                   exists before rest,
                     l = before ++ (name, url) :: rest
                     /\ lower name = lower artist
                     /\ forall other, In other before ->
                                      lower (fst other) <> lower artist
               | None =>
                   forall other, In other l -> lower (fst other) <> lower artist
               end).
    { induction l as [|[n u] l IH]; cbn; [intros other []|].
      destruct (String.eqb (lower n) (lower artist)) eqn:E.
      - exists [], l. apply String.eqb_eq in E.
        split; [reflexivity|]. split; [exact E|]. intros other [].
      - apply String.eqb_neq in E.
        destruct (find _ l) as [[name url]|].
        + destruct IH as [before [rest [-> [Hn Hb]]]].
          exists ((n, u) :: before), rest.
          split; [reflexivity|]. split; [exact Hn|].
          intros other [<-|Hin]; auto.
        + intros other [<-|Hin]; auto. }
    specialize (Hfind results).
    destruct (find _ results) as [[name url']|]; cbn; split.
    + intros url [= <-]. destruct Hfind as [before [rest H]].
      exists results, before, name, rest. tauto.
    + intros results' _ H. discriminate H.
    + intros url H. discriminate H.
    + intros results' [= <-] _. exact Hfind.
  - split; [reflexivity|]. split.
    + intros url H. discriminate H.
    + intros results H. discriminate H.
Qed.

(** X14: the Cover Art Archive lookup returns the URL of the first image
    flagged as front cover, and [None] when the request raises, the answer
    has no image list, or no image is flagged. *)
Theorem cover_art_archive_takes_first_front_image (release_id : string)
    (w : world) :
  let r := fetch_caa_artwork caa_release release_id w in
  requests (snd r) = requests w ++ [CoverArtArchive release_id]
  /\ (forall url,
         fst r = Some url ->
         exists images before rest,
           caa_release release_id = Ok (Some images)
           /\ images = before ++ (true, url) :: rest
           /\ forall other, In other before -> fst other = false)
  /\ (forall images,
         caa_release release_id = Ok (Some images) ->
         fst r = None ->
         forall other, In other images -> fst other = false).
Proof.
  intros r. subst r. unfold fetch_caa_artwork, bindM, send, log, ret.
  cbn [fst snd].
  assert (Hfind : forall l : list (bool * string),
             match find fst l with
             | Some (front, url) =>
                 exists before rest,
                   l = before ++ (true, url) :: rest
                   /\ forall other, In other before -> fst other = false
             | None => forall other, In other l -> fst other = false
             end).
  { induction l as [|[b u] l IH]; cbn; [intros other []|].
    destruct b.
    - exists [], l. split; [reflexivity|]. intros other [].
    - destruct (find fst l) as [[front url]|].
      + destruct IH as [before [rest [-> Hb]]].
        exists ((false, u) :: before), rest. split; [reflexivity|].
        intros other [<-|Hin]; auto.
      + intros other [<-|Hin]; auto. }
  destruct (caa_release release_id) as [[images|]|]; cbn.
  - split; [reflexivity|]. specialize (Hfind images).
    destruct (find fst images) as [[front url']|]; cbn; split.
    + intros url [= <-]. destruct Hfind as [before [rest H]].
      exists images, before, rest. tauto.
    + intros images' _ H. discriminate H.
    + intros url H. discriminate H.
    + intros images' [= <-] _. exact Hfind.
  - split; [reflexivity|]. split.
    + intros url H. discriminate H.
    + intros images H. discriminate H.
  - split; [reflexivity|]. split.
    + intros url H. discriminate H.
    + intros images H. discriminate H.
Qed.

Lemma download_requests (url save_path : string) (w : world) :
  requests (snd (download_artwork http_get url save_path w))
  = requests w ++ [Download url].
Proof.
  unfold download_artwork, bindM, send, log, ret.
  destruct (http_get url) as [resp|]; [|reflexivity].
  destruct ((400 <=? status resp) && (status resp <? 600)); [reflexivity|].
  destruct (negb (Str.contains _ "image")); [reflexivity|].
  destruct (body resp); reflexivity.
Qed.

(** What [download_artwork] returns and writes does not depend on what
    was requested, printed or logged before. *)
Lemma download_written_steady (url save_path : string) (w w0 : world) :
  fst (download_artwork http_get url save_path w)
  = fst (download_artwork http_get url save_path w0).
Proof.
  unfold download_artwork, bindM, send, log, ret.
  destruct (http_get url) as [resp|]; [|reflexivity].
  destruct ((400 <=? status resp) && (status resp <? 600)); [reflexivity|].
  destruct (negb (Str.contains _ "image")); [reflexivity|].
  destruct (body resp); reflexivity.
Qed.

(** In a folder without cover, the cover after the run is what the
    download of the resolved URL wrote, whatever it returned. *)
Lemma fetch_keeps_what_download_wrote (f f' : folder) (w w' : world) :
  fetch f w = (Ok f', w') ->
  cover f = None ->
  forall (name : string) (file : option ID3) (artist album url : string)
         (w0 : world),
    first_mp3 f = Some (name, file) ->
    fst (get_artist_album_from_id3 frame_str file w) = Ok (artist, album) ->
    value_of (resolve artist album) = Some url ->
    Str.truthy url = true ->
    cover f'
    = snd (fst (download_artwork http_get url
                  (Str.join (path f) "cover.jpg") w0)).
Proof.
  intros Hrun Hc name file artist album url w0 Hf Hid Hv Ht.
  unfold fetch_artwork_for_folder in Hrun. unfold first_mp3 in Hf.
  rewrite Hc in Hrun.
  destruct (mp3_entries f) as [|[n fl] rest]; [discriminate Hf|].
  cbn in Hf. injection Hf as -> ->.
  unfold bindM in Hrun. cbn [snd] in Hrun.
  destruct (get_artist_album_from_id3 frame_str file w)
    as [[[a b]|] w1]; [|discriminate Hid].
  cbn [fst] in Hid. injection Hid as -> ->.
  destruct (print (ProcessingFolder (path f) artist album) w1) as [[] w2].
  destruct (FetchFacts.resolve_steps USE_HIRES_PRIORITY
              USE_MUSICBRAINZ NO_LOW_RES lower search_releases
              caa_release search_album lastfm_cover
              artist album) as [Hsteady _].
  destruct (Hsteady w2) as [Hval _]. rewrite Hv in Hval.
  destruct (resolve artist album w2) as [u w3]. cbn [fst] in Hval. subst u.
  rewrite Ht in Hrun.
  rewrite (download_written_steady url (Str.join (path f) "cover.jpg") w0 w3).
  destruct (download_artwork http_get url (Str.join (path f) "cover.jpg") w3)
    as [[[] [bytes|]] w4]; cbn in Hrun; injection Hrun as <- <-;
    cbn; congruence.
Qed.

(** X15: [fetch_artwork_for_folder] never changes the folder's path or
    entries and never replaces a cover that is there (then it sends no
    request).  A cover appears only through the download of the URL that
    the source chain returned for the artist and album of the folder's
    first MP3: it is the whole body of the answer when the download is
    reported as saved, and the part received when the transfer broke off,
    which is reported as a failed download and stays in the folder.  A
    folder left with a cover is skipped by the next run. *)
Theorem fetched_cover_is_the_resolved_download (f f' : folder)
    (w w' : world) :
  fetch f w = (Ok f', w') ->
  path f' = path f
  /\ listing f' = listing f
  /\ (forall c, cover f = Some c -> f' = f /\ requests w' = requests w)
  /\ (cover f' = cover f
      \/ (cover f = None
          /\ exists name file artist album url resp bytes,
               first_mp3 f = Some (name, file)
               /\ fst (get_artist_album_from_id3 frame_str file w)
                  = Ok (artist, album)
               /\ value_of (resolve artist album) = Some url
               /\ Str.truthy url = true
               /\ http_get url = Ok resp
               /\ image_answer resp
               /\ cover f' = Some bytes
               /\ In (Download url) (requests w')
               /\ ((body resp = Complete bytes
                    /\ exists before,
                         printed w'
                         = before ++ [ArtworkSaved artist album
                                        (Str.join (path f) "cover.jpg")])
                   \/ (body resp = Interrupted bytes
                       /\ exists before,
                            printed w'
                            = before ++ [DownloadFailed artist album]))))
  /\ (cover f = None ->
      forall (name : string) (file : option ID3) (artist album url : string)
             (w0 : world),
        first_mp3 f = Some (name, file) ->
        fst (get_artist_album_from_id3 frame_str file w)
        = Ok (artist, album) ->
        value_of (resolve artist album) = Some url ->
        Str.truthy url = true ->
        cover f'
        = snd (fst (download_artwork http_get url
                      (Str.join (path f) "cover.jpg") w0)))
  /\ (forall c, cover f' = Some c ->
      forall w2,
        fetch f' w2
        = (Ok f',
           mkWorld (requests w2)
                   (printed w2 ++ [CoverExists (path f')])
                   (logged w2 ++ [CoverExists (path f')]))).
Proof.
  intros Hrun.
  pose proof (fetch_keeps_what_download_wrote f f' w w' Hrun) as Hkeep.
  assert (Hnext : forall c, cover f' = Some c ->
            forall w2,
              fetch f' w2
              = (Ok f',
                 mkWorld (requests w2)
                         (printed w2 ++ [CoverExists (path f')])
                         (logged w2 ++ [CoverExists (path f')]))).
  { intros c Hc w2. unfold fetch_artwork_for_folder. rewrite Hc. reflexivity. }
  assert (Hrest :
            path f' = path f
            /\ listing f' = listing f
            /\ (forall c, cover f = Some c -> f' = f /\ requests w' = requests w)
            /\ (cover f' = cover f
                \/ (cover f = None
                    /\ exists name file artist album url resp bytes,
                         first_mp3 f = Some (name, file)
                         /\ fst (get_artist_album_from_id3 frame_str file w)
                            = Ok (artist, album)
                         /\ value_of (resolve artist album) = Some url
                         /\ Str.truthy url = true
                         /\ http_get url = Ok resp
                         /\ image_answer resp
                         /\ cover f' = Some bytes
                         /\ In (Download url) (requests w')
                         /\ ((body resp = Complete bytes
                              /\ exists before,
                                   printed w'
                                   = before
                                     ++ [ArtworkSaved artist album
                                           (Str.join (path f) "cover.jpg")])
                             \/ (body resp = Interrupted bytes
                                 /\ exists before,
                                      printed w'
                                      = before
                                        ++ [DownloadFailed artist album]))))).
  2: { destruct Hrest as [H1 [H2 [H3 H4]]]. auto 6. }
  clear Hnext Hkeep. revert Hrun.
  unfold fetch_artwork_for_folder, first_mp3.
  destruct (cover f) as [c|] eqn:Hc.
  - cbn. intros [= <- <-]. rewrite Hc.
    split; [reflexivity|]. split; [reflexivity|].
    split; [intros c' _; split; reflexivity|]. left. reflexivity.
  - destruct (mp3_entries f) as [|[name file] rest].
    + cbn. intros [= <- <-]. rewrite Hc.
      split; [reflexivity|]. split; [reflexivity|].
      split; [intros c H; discriminate H|]. left. reflexivity.
    + unfold bindM. cbn [snd hd_error].
      destruct (get_artist_album_from_id3 frame_str file w)
        as [[[artist album]|] w1] eqn:Hid; [|discriminate].
      destruct (print (ProcessingFolder (path f) artist album) w1)
        as [[] w2].
      destruct (resolve artist album w2) as [[url|] w3] eqn:Hr.
      * destruct (Str.truthy url) eqn:Ht.
        -- pose proof (CoverFacts.download_artwork_cases http_get url
                         (Str.join (path f) "cover.jpg") w3) as Hcases.
           pose proof (download_requests url
                         (Str.join (path f) "cover.jpg") w3) as Hq.
           cbv zeta in Hcases.
           destruct (download_artwork http_get url
                       (Str.join (path f) "cover.jpg") w3)
             as [[b written] w4] eqn:Hd.
           cbn [fst snd] in Hcases, Hq.
           assert (Hval : value_of (resolve artist album) = Some url).
           { destruct (FetchFacts.resolve_steps USE_HIRES_PRIORITY
                         USE_MUSICBRAINZ NO_LOW_RES lower search_releases
                         caa_release search_album lastfm_cover
                         artist album) as [Hsteady _].
             destruct (Hsteady w2) as [Hv _]. rewrite Hr in Hv.
             symmetry. exact Hv. }
           destruct Hcases
             as [[[= -> ->] _]
                |[[resp [content [Hg [Hi [Hb [= -> ->]]]]]]
                 |[resp [received [Hg [Hi [Hb [= -> ->]]]]]]]].
           ++ cbn. intros [= <- <-]. rewrite Hc.
              split; [reflexivity|]. split; [reflexivity|].
              split; [intros c H; discriminate H|]. left. reflexivity.
           ++ cbn. intros [= <- <-]. cbn [path listing cover].
              split; [reflexivity|]. split; [reflexivity|].
              split; [intros c H; discriminate H|]. right.
              split; [reflexivity|].
              exists name, file, artist, album, url, resp, content.
              split; [reflexivity|]. split; [rewrite Hid; reflexivity|].
              split; [exact Hval|]. split; [exact Ht|]. split; [exact Hg|].
              split; [exact Hi|]. split; [reflexivity|]. split.
              { cbn. rewrite Hq. apply in_or_app. right. left. reflexivity. }
              left. split; [exact Hb|]. cbn. eexists. reflexivity.
           ++ cbn. intros [= <- <-]. cbn [path listing cover].
              split; [reflexivity|]. split; [reflexivity|].
              split; [intros c H; discriminate H|]. right.
              split; [reflexivity|].
              exists name, file, artist, album, url, resp, received.
              split; [reflexivity|]. split; [rewrite Hid; reflexivity|].
              split; [exact Hval|]. split; [exact Ht|]. split; [exact Hg|].
              split; [exact Hi|]. split; [reflexivity|]. split.
              { cbn. rewrite Hq. apply in_or_app. right. left. reflexivity. }
              right. split; [exact Hb|]. cbn. eexists. reflexivity.
        -- cbn. intros [= <- <-]. rewrite Hc.
           split; [reflexivity|]. split; [reflexivity|].
           split; [intros c H; discriminate H|]. left. reflexivity.
      * cbn. intros [= <- <-]. rewrite Hc.
        split; [reflexivity|]. split; [reflexivity|].
        split; [intros c H; discriminate H|]. left. reflexivity.
Qed.

(** X16: [get_artist_album_from_id3] falls back to "Unknown Artist" and
    "Unknown Album" for a file without ID3 header (the failure is
    logged).  For a file with a tag the artist depends on the frame TPE1
    alone and the album on the frame TALB alone: each is the first text
    value of its frame when the frame is there with a text value, and its
    own default when the tag lacks the frame, whatever the other frame
    is.  It sends and prints nothing, and logs nothing for a file with a
    tag. *)
Theorem identity_defaults_to_unknown (file : option ID3) (w : world) :
  let r := get_artist_album_from_id3 frame_str file w in
  requests (snd r) = requests w
  /\ printed (snd r) = printed w
  /\ (file = None ->
      fst r = Ok ("Unknown Artist", "Unknown Album")
      /\ logged (snd r) = logged w ++ [Id3Failed])
  /\ (forall audio,
         file = Some audio ->
         snd r = w
         /\ forall artist album : string,
              (~ In "TPE1" (keys audio) /\ artist = "Unknown Artist")
              \/ (exists rest,
                    get "TPE1" audio
                    = Some (TextFrame "TPE1" (artist :: rest))) ->
              (~ In "TALB" (keys audio) /\ album = "Unknown Album")
              \/ (exists rest,
                    get "TALB" audio
                    = Some (TextFrame "TALB" (album :: rest))) ->
              fst r = Ok (artist, album)).
Proof.
  intros r. subst r.
  assert (Hget : forall (k : string) (audio : ID3),
             ~ In k (keys audio) -> get k audio = None).
  { intros k audio Hk. apply TagFacts.get_none_not_key.
    intros kf Hin Heq. apply Hk. unfold keys. apply in_map_iff.
    exists kf. auto. }
  destruct file as [audio|]; cbn.
  - split; [reflexivity|]. split; [reflexivity|].
    split; [intros H; discriminate H|].
    intros audio' [= <-]. split; [reflexivity|].
    intros artist album Ha Hb.
    assert (Hta : tag_text frame_str "TPE1" "Unknown Artist" audio
                  = Ok artist).
    { unfold tag_text. destruct Ha as [[Ha ->]|[rest Ha]].
      - rewrite (Hget _ _ Ha). reflexivity.
      - rewrite Ha. reflexivity. }
    assert (Htb : tag_text frame_str "TALB" "Unknown Album" audio
                  = Ok album).
    { unfold tag_text. destruct Hb as [[Hb ->]|[rest Hb]].
      - rewrite (Hget _ _ Hb). reflexivity.
      - rewrite Hb. reflexivity. }
    rewrite Hta. cbn [bind]. rewrite Htb. reflexivity.
  - split; [reflexivity|]. split; [reflexivity|].
    split; [intros _; split; reflexivity|].
    intros audio H. discriminate H.
Qed.

End Providers.

End SourceFacts.

(** A tag with an album and no artist. *)
Lemma identity_defaults_to_unknown_witness :
  fst (Id3tocovr.get_artist_album_from_id3 Sample.frame_name
         (Some [("TALB", TextFrame "TALB" ["Uncaged"])]) Sample.quiet)
  = Ok ("Unknown Artist", "Uncaged").
Proof.
  destruct (SourceFacts.identity_defaults_to_unknown Sample.frame_name
              (Some [("TALB", TextFrame "TALB" ["Uncaged"])]) Sample.quiet)
    as [_ [_ [_ H]]].
  destruct (H _ eq_refl) as [_ H'].
  apply H'.
  - left. split; [|reflexivity]. intros [H1|[]]. discriminate H1.
  - right. exists []. reflexivity.
Defined.

(** A folder whose first MP3 names an album the providers know, fetched
    over a connection that breaks: the bytes received stay as the cover,
    and the run reports a failed download. *)
Lemma fetched_cover_is_the_resolved_download_witness :
  exists url resp,
    Sample.broken_server url = Ok resp
    /\ Id3tocovr.body resp = Id3tocovr.Interrupted Sample.first_bytes
    /\ cover
         (mkFolder Sample.album_path (Some Sample.first_bytes)
            (listing (Sample.album_of [("01.mp3", Sample.jpeg 300 300)])))
       = Some Sample.first_bytes.
Proof.
  destruct (SourceFacts.fetched_cover_is_the_resolved_download
              true true false Str.lower Sample.frame_name Sample.one_release
              Sample.back_and_front Sample.no_album Sample.no_cover
              Sample.broken_server
              (Sample.album_of [("01.mp3", Sample.jpeg 300 300)])
              _ Sample.quiet _ eq_refl)
    as [_ [_ [_ [[H|[_ [name [file [artist [album [url [resp [bytes H]]]]]]]]]
                 _]]]].
  - discriminate H.
  - destruct H as [_ [_ [_ [_ [Hg [_ [Hc [_ Hb]]]]]]]].
    exists url, resp. split; [exact Hg|].
    injection Hc as <-.
    destruct Hb as [[Hb _]|[Hb _]].
    + injection Hg as <-. discriminate Hb.
    + split; [exact Hb|reflexivity].
Defined.

(** ** Walking the library *)

Module WalkFacts.

Lemma in_walk_dirs (keep : string -> bool) (top : string) (n : node)
    (p : string) :
  In p (walk_dirs keep top n) <->
  exists root dirs name,
    In (root, dirs) (walk top n)
    /\ In name dirs /\ keep name = true /\ p = Str.join root name.
Proof.
  unfold walk_dirs. rewrite in_flat_map. split.
  - intros [[root dirs] [Hw Hp]]. cbn [fst snd] in Hp.
    apply in_map_iff in Hp. destruct Hp as [name [Hp Hn]].
    apply filter_In in Hn. exists root, dirs, name. intuition.
  - intros [root [dirs [name [Hw [Hn [Hk ->]]]]]].
    exists (root, dirs). split; [exact Hw|]. cbn [fst snd].
    apply in_map. apply filter_In. auto.
Qed.

End WalkFacts.

(** X17: in [embed-artwork.py] and [export-coverart.py], the folders of
    the CD mode are among the folders of the whole-library mode, and each
    is a directory, found by the walk, whose own name starts with "CD ";
    the two scripts walk alike. *)
Theorem cd_mode_visits_walked_cd_directories (ROOT_MUSIC_DIR : string)
    (library : node) :
  (forall p,
      In p (EmbedArtwork.process_cd_folders ROOT_MUSIC_DIR library) <->
      exists root dirs name,
        In (root, dirs) (walk ROOT_MUSIC_DIR library)
        /\ In name dirs
        /\ Str.startswith name "CD " = true
        /\ p = Str.join root name)
  /\ (forall p,
         In p (EmbedArtwork.process_cd_folders ROOT_MUSIC_DIR library) ->
         In p (EmbedArtwork.embed_artwork_in_folder ROOT_MUSIC_DIR library
                 true))
  /\ ExportCoverart.process_cd_folders ROOT_MUSIC_DIR library
     = EmbedArtwork.process_cd_folders ROOT_MUSIC_DIR library.
Proof.
  split; [|split].
  - intros p. apply WalkFacts.in_walk_dirs.
  - intros p Hp. unfold EmbedArtwork.embed_artwork_in_folder.
    apply WalkFacts.in_walk_dirs in Hp.
    destruct Hp as [root [dirs [name [Hw [Hn [_ ->]]]]]].
    apply WalkFacts.in_walk_dirs. exists root, dirs, name. auto.
  - reflexivity.
Qed.

(** The second disc of the sample library. *)
Lemma cd_mode_visits_walked_cd_directories_witness :
  In "/music/Zac Brown Band/Uncaged (2012)/CD 2"
     (EmbedArtwork.embed_artwork_in_folder "/music" Sample.library true).
Proof.
  apply (proj1 (proj2 (cd_mode_visits_walked_cd_directories
                         "/music" Sample.library))).
  right. left. reflexivity.
Defined.

(** X18: once [parse_args] has returned the arguments, each of the
    three scripts reaches [sys.exit(1)] exactly when no flag is given (an
    empty [-i] counts as none) or [-i] names no directory ([id3tocovr.py]
    also when [-a] finds no library directory), and runs to the end of
    [main] otherwise; a valid [-i] wins over [-a] and [-c]: that folder
    alone is processed.  (On [-h] and on a command line that argparse
    does not accept, [parse_args] ends the run before any of this, with
    its own status.) *)
Theorem main_exit_status (lower : string -> string) (ROOT_MUSIC_DIR : string)
    (library : node) (isdir : string -> bool) (a : args) :
  let refused :=
    any_flag a = false
    \/ (input_given a = true /\ isdir (input_value a) = false) in
  let no_library :=
    input_given a = false /\ all a = true /\ is_dir library = false in
  (EmbedArtwork.main ROOT_MUSIC_DIR library isdir a = Exit 1 <-> refused)
  /\ (ExportCoverart.main ROOT_MUSIC_DIR library isdir a = Exit 1 <-> refused)
  /\ (Id3tocovr.main lower ROOT_MUSIC_DIR library isdir a = Exit 1
      <-> refused \/ no_library)
  /\ (~ refused ->
      exists visited visited',
        EmbedArtwork.main ROOT_MUSIC_DIR library isdir a = Visited visited
        /\ ExportCoverart.main ROOT_MUSIC_DIR library isdir a
           = Visited visited')
  /\ (~ (refused \/ no_library) ->
      exists visited,
        Id3tocovr.main lower ROOT_MUSIC_DIR library isdir a = Visited visited)
  /\ (input_given a = true -> isdir (input_value a) = true ->
      EmbedArtwork.main ROOT_MUSIC_DIR library isdir a
      = Visited [input_value a]
      /\ ExportCoverart.main ROOT_MUSIC_DIR library isdir a
         = Visited [input_value a]
      /\ Id3tocovr.main lower ROOT_MUSIC_DIR library isdir a
         = Visited [input_value a]).
Proof.
  intros refused no_library. subst refused no_library.
  unfold EmbedArtwork.main, ExportCoverart.main, Id3tocovr.main,
    EmbedArtwork.embed_artwork_in_folder, any_flag.
  destruct (all a), (cd a), (input_given a), (isdir (input_value a)),
    (is_dir library); cbn;
    repeat match goal with
           | |- _ /\ _ => split
           | |- _ <-> _ => split
           | |- _ -> _ => intro
           end;
    try reflexivity; try discriminate;
    try (do 2 eexists; split; reflexivity);
    try (eexists; reflexivity);
    try (intuition discriminate);
    try (exfalso; intuition congruence).
Qed.

(** [-i] with a directory, [-a] and [-c] given as well. *)
Lemma main_exit_status_witness :
  EmbedArtwork.main "/music" Sample.library Sample.everything_is_dir
    (mkArgs true true (Some Sample.album_path))
  = Visited [Sample.album_path].
Proof.
  destruct (main_exit_status Str.lower "/music" Sample.library
              Sample.everything_is_dir
              (mkArgs true true (Some Sample.album_path)))
    as [_ [_ [_ [_ [_ H]]]]].
  exact (proj1 (H eq_refl eq_refl)).
Defined.

(** ** Configuration and resolution checks of [id3tocovr.py] *)

Module ConfigFacts.

Import Id3tocovr.

Section Parsed.

Variable has_section : string -> bool.
Variable has_option : string -> string -> bool.

Lemma check_fields_none (section : string) (fields : list string) :
  check_fields has_option section fields = None <->
  forall field, In field fields -> has_option section field = true.
Proof.
  induction fields as [|f fields IH]; cbn.
  - split; [intros _ field []|reflexivity].
  - destruct (has_option section f) eqn:Hf; cbn.
    + rewrite IH. split.
      * intros H field [<-|Hin]; auto.
      * intros H field Hin. apply H. auto.
    + split; [discriminate|]. intros H.
      specialize (H f (or_introl eq_refl)). congruence.
Qed.

Lemma check_fields_some (section : string) (fields : list string)
    (e : config_error) :
  check_fields has_option section fields = Some e ->
  exists before field rest,
    fields = before ++ field :: rest
    /\ e = MissingField field section
    /\ has_option section field = false
    /\ forall f, In f before -> has_option section f = true.
Proof.
  induction fields as [|f fields IH]; cbn; [discriminate|].
  destruct (has_option section f) eqn:Hf; cbn.
  - intros H. destruct (IH H) as [before [field [rest [-> [He [Hn Hb]]]]]].
    exists (f :: before), field, rest. split; [reflexivity|].
    split; [exact He|]. split; [exact Hn|].
    intros f' [<-|Hin]; auto.
  - intros [= <-]. exists [], f, fields. split; [reflexivity|].
    split; [reflexivity|]. split; [exact Hf|]. intros f' [].
Qed.

(** A section list passes when every section and field is there. *)
Lemma check_sections_none (required : list (string * list string)) :
  check_sections has_section has_option required = None <->
  forall section fields,
    In (section, fields) required ->
    has_section section = true
    /\ forall field, In field fields -> has_option section field = true.
Proof.
  induction required as [|[s fs] required IH]; cbn.
  - split; [intros _ section fields []|reflexivity].
  - destruct (has_section s) eqn:Hs; cbn.
    + destruct (check_fields has_option s fs) as [e|] eqn:Hf.
      * split; [discriminate|]. intros H.
        destruct (H s fs (or_introl eq_refl)) as [_ Hall].
        pose proof (proj2 (check_fields_none s fs) Hall) as Hnone. congruence.
      * rewrite IH. pose proof (proj1 (check_fields_none s fs) Hf) as Hall.
        split.
        -- intros H section fields [[= <- <-]|Hin]; auto.
        -- intros H section fields Hin. apply H. auto.
    + split; [discriminate|]. intros H.
      destruct (H s fs (or_introl eq_refl)) as [Hs' _]. congruence.
Qed.

(** The error names the first section or field that is missing. *)
Lemma check_sections_some (required : list (string * list string))
    (e : config_error) :
  check_sections has_section has_option required = Some e ->
  exists before section fields rest,
    required = before ++ (section, fields) :: rest
    /\ (forall s fs, In (s, fs) before ->
                     has_section s = true
                     /\ forall f, In f fs -> has_option s f = true)
    /\ ((e = MissingSection section /\ has_section section = false)
        \/ (has_section section = true
            /\ exists fbefore field frest,
                 fields = fbefore ++ field :: frest
                 /\ e = MissingField field section
                 /\ has_option section field = false
                 /\ forall f, In f fbefore -> has_option section f = true)).
Proof.
  induction required as [|[s fs] required IH]; cbn; [discriminate|].
  destruct (has_section s) eqn:Hs; cbn.
  - destruct (check_fields has_option s fs) as [e'|] eqn:Hf.
    + intros [= <-]. exists [], s, fs, required.
      split; [reflexivity|]. split; [intros s' fs' []|].
      right. split; [exact Hs|]. exact (check_fields_some s fs e' Hf).
    + intros H.
      destruct (IH H) as [before [section [fields [rest [-> [Hb He]]]]]].
      exists ((s, fs) :: before), section, fields, rest.
      split; [reflexivity|]. split; [|exact He].
      intros s' fs' [[= <- <-]|Hin]; [|auto].
      split; [exact Hs|]. exact (proj1 (check_fields_none s fs) Hf).
  - intros [= <-]. exists [], s, fs, required.
    split; [reflexivity|]. split; [intros s' fs' []|]. left. auto.
Qed.

End Parsed.

(** The pattern of the CD mode of [embed-artwork.py], in small letters. *)
Lemma startswith_CD_lower (name : string) :
  Str.startswith name "CD " = true ->
  Str.startswith (Str.lower name) "cd" = true.
Proof.
  unfold Str.startswith.
  destruct name as [|c1 name]; [discriminate|]. cbn [String.prefix].
  destruct (Ascii.ascii_dec "C" c1) as [<-|]; [|discriminate].
  destruct name as [|c2 name]; [discriminate|]. cbn [String.prefix].
  destruct (Ascii.ascii_dec "D" c2) as [<-|]; [|discriminate].
  intros _. cbn [Str.lower].
  change (Str.lower_ascii "C") with "c"%char.
  change (Str.lower_ascii "D") with "d"%char.
  destruct (Str.lower name); reflexivity.
Qed.

End ConfigFacts.

(** X19: [validate_config] returns, without exiting, exactly when each of
    the four required sections is there with each of its fields;
    otherwise the error names the first section, or the first field of
    the first section, that is missing in the order of
    [required_fields]. *)
Theorem validate_config_reports_first_missing
    (has_section : string -> bool) (has_option : string -> string -> bool) :
  (Id3tocovr.validate_config has_section has_option = None <->
   forall section fields,
     In (section, fields) Id3tocovr.required_fields ->
     has_section section = true
     /\ forall field, In field fields -> has_option section field = true)
  /\ (forall e,
         Id3tocovr.validate_config has_section has_option = Some e ->
         exists before section fields rest,
           Id3tocovr.required_fields = before ++ (section, fields) :: rest
           /\ (forall s fs, In (s, fs) before ->
                            has_section s = true
                            /\ forall f, In f fs -> has_option s f = true)
           /\ ((e = Id3tocovr.MissingSection section
                /\ has_section section = false)
               \/ (has_section section = true
                   /\ exists fbefore field frest,
                        fields = fbefore ++ field :: frest
                        /\ e = Id3tocovr.MissingField field section
                        /\ has_option section field = false
                        /\ forall f, In f fbefore ->
                                     has_option section f = true))).
Proof.
  unfold Id3tocovr.validate_config. split.
  - apply ConfigFacts.check_sections_none.
  - intros e He.
    exact (ConfigFacts.check_sections_some has_section has_option _ e He).
Qed.

(** A configuration that lacks [MIN_RES] only. *)
Lemma validate_config_reports_first_missing_witness :
  Id3tocovr.validate_config Sample.any_section Sample.all_but_min_res
  = Some (Id3tocovr.MissingField "MIN_RES" "settings")
  /\ exists before section fields rest,
       Id3tocovr.required_fields = before ++ (section, fields) :: rest
       /\ Sample.any_section section = true.
Proof.
  split; [reflexivity|].
  destruct (proj2 (validate_config_reports_first_missing
                     Sample.any_section Sample.all_but_min_res)
              _ eq_refl)
    as [before [section [fields [rest [Hr _]]]]].
  exists before, section, fields, rest. split; [exact Hr|reflexivity].
Defined.

(** X20: [meets_resolution] is false for a missing file and for a file
    that is no image, and for an image it holds exactly when both sides
    reach the minimum; so it also holds for every smaller minimum. *)
Theorem meets_resolution_monotone (image : option data) (min_res : Z) :
  (Id3tocovr.meets_resolution image min_res = true <->
   exists img,
     image = Some (Picture img)
     /\ min_res <= width img /\ min_res <= height img)
  /\ (forall smaller,
         smaller <= min_res ->
         Id3tocovr.meets_resolution image min_res = true ->
         Id3tocovr.meets_resolution image smaller = true).
Proof.
  assert (Hiff : forall m,
             Id3tocovr.meets_resolution image m = true <->
             exists img,
               image = Some (Picture img)
               /\ m <= width img /\ m <= height img).
  { intros m. unfold Id3tocovr.meets_resolution.
    destruct image as [[img|raw]|]; cbn.
    - rewrite andb_true_iff, !Z.geb_leb, !Z.leb_le. split.
      + intros H. exists img. auto.
      + intros [img' [[= <-] H]]. exact H.
    - split; [discriminate|]. intros [img [H _]]. discriminate H.
    - split; [discriminate|]. intros [img [H _]]. discriminate H. }
  split; [apply Hiff|].
  intros smaller Hle H. apply Hiff in H. apply Hiff.
  destruct H as [img [Hi [Hw Hh]]]. exists img. repeat split; auto; lia.
Qed.

(** A cover of 600 by 500 pixels meets 500, hence 300. *)
Lemma meets_resolution_monotone_witness :
  300 <= 500
  /\ Id3tocovr.meets_resolution (Some (Sample.jpeg 600 500)) 500 = true
  /\ Id3tocovr.meets_resolution (Some (Sample.jpeg 600 500)) 300 = true.
Proof.
  assert (Hle : 300 <= 500) by lia.
  split; [exact Hle|]. split; [reflexivity|].
  exact (proj2 (meets_resolution_monotone (Some (Sample.jpeg 600 500)) 500)
           300 Hle eq_refl).
Defined.

(** ** The order of the artists in [id3tocovr.py] *)

Module SortFacts.

Lemma compare_not_gt_trans (a b c : string) :
  String.compare a b <> Gt -> String.compare b c <> Gt ->
  String.compare a c <> Gt.
Proof.
  revert b c. induction a as [|x a IH]; intros [|y b] [|z c]; cbn;
    try congruence.
  unfold Ascii.compare.
  destruct (N.compare_spec (N_of_ascii x) (N_of_ascii y)) as [Exy|Lxy|Gxy];
    destruct (N.compare_spec (N_of_ascii y) (N_of_ascii z)) as [Eyz|Lyz|Gyz];
    try congruence.
  - rewrite Exy, Eyz, N.compare_refl. apply IH.
  - rewrite Exy. intros _ _.
    rewrite (proj2 (N.compare_lt_iff _ _) Lyz). discriminate.
  - rewrite <- Eyz. intros _ _.
    rewrite (proj2 (N.compare_lt_iff _ _) Lxy). discriminate.
  - intros _ _.
    rewrite (proj2 (N.compare_lt_iff _ _) (N.lt_trans _ _ _ Lxy Lyz)).
    discriminate.
Qed.

Lemma leb_trans (a b c : string) :
  name_le a b -> name_le b c -> name_le a c.
Proof.
  unfold name_le, String.leb. intros Hab Hbc.
  pose proof (compare_not_gt_trans a b c) as H.
  destruct (String.compare a b); try discriminate;
    destruct (String.compare b c); try discriminate;
    destruct (String.compare a c); try reflexivity;
    exfalso; apply H; congruence.
Qed.

Section ByKey.

Variable A : Type.
Variable key : A -> string.

Lemma insert_sorted_perm (x : A) (l : list A) :
  Permutation (x :: l) (Str.insert_sorted key x l).
Proof.
  induction l as [|y l IH]; cbn; [reflexivity|].
  destruct (String.leb (key x) (key y)); [reflexivity|].
  rewrite perm_swap. constructor. exact IH.
Qed.

Lemma sort_by_perm (l : list A) : Permutation l (Str.sort_by key l).
Proof.
  unfold Str.sort_by. induction l as [|x l IH]; cbn; [constructor|].
  rewrite <- insert_sorted_perm. constructor. exact IH.
Qed.

Lemma insert_sorted_sorted (x : A) (l : list A) :
  StronglySorted (key_le key) l -> StronglySorted (key_le key) (Str.insert_sorted key x l).
Proof.
  induction 1 as [|y l Hs IH Hy]; cbn.
  - constructor; constructor.
  - destruct (String.leb (key x) (key y)) eqn:Hxy.
    + constructor; [constructor; assumption|].
      constructor; [exact Hxy|].
      rewrite Forall_forall in *. intros z Hz.
      exact (leb_trans _ _ _ Hxy (Hy z Hz)).
    + constructor; [exact IH|].
      assert (Hyx : key_le key y x).
      { destruct (String.leb_total (key x) (key y)) as [H|H];
          [congruence|exact H]. }
      rewrite Forall_forall in *. intros z Hz.
      apply (Permutation_in _ (Permutation_sym (insert_sorted_perm x l)))
        in Hz.
      destruct Hz as [<-|Hz]; [exact Hyx|exact (Hy z Hz)].
Qed.

Lemma sort_by_is_sorted (l : list A) : StronglySorted (key_le key) (Str.sort_by key l).
Proof.
  unfold Str.sort_by. induction l as [|x l IH]; cbn; [constructor|].
  apply insert_sorted_sorted. exact IH.
Qed.

(** Two sorted lists with the same elements and distinct keys are the
    same list. *)
Lemma sorted_perm_unique (l1 l2 : list A) :
  StronglySorted (key_le key) l1 -> StronglySorted (key_le key) l2 ->
  Permutation l1 l2 -> NoDup (map key l1) -> l1 = l2.
Proof.
  intros H1. revert l2.
  induction H1 as [|x l1 Hs1 IH Hx]; intros l2 H2 Hp Hnd.
  - apply Permutation_nil in Hp. subst. reflexivity.
  - destruct H2 as [|y l2 Hs2 Hy].
    + apply Permutation_sym, Permutation_nil in Hp. discriminate Hp.
    + assert (Hxy : x = y).
      { rewrite Forall_forall in Hx, Hy.
        assert (Hyin : In y (x :: l1)).
        { apply (Permutation_in _ (Permutation_sym Hp)). left. reflexivity. }
        assert (Hxin : In x (y :: l2)).
        { apply (Permutation_in _ Hp). left. reflexivity. }
        destruct Hyin as [Heq|Hyin]; [exact Heq|].
        destruct Hxin as [Heq|Hxin]; [symmetry; exact Heq|].
        exfalso.
        assert (Hk : key x = key y).
        { apply String.leb_antisym; [exact (Hx y Hyin)|exact (Hy x Hxin)]. }
        cbn in Hnd. inversion Hnd as [|? ? Hnotin _]; subst.
        apply Hnotin. rewrite Hk. apply in_map. exact Hyin. }
      subst y. f_equal. apply IH.
      * exact Hs2.
      * exact (Permutation_cons_inv Hp).
      * cbn in Hnd. inversion Hnd; assumption.
Qed.

(** Sorting forgets the order in which the elements came. *)
Lemma sort_by_perm_eq (l1 l2 : list A) :
  Permutation l1 l2 -> NoDup (map key l1) ->
  Str.sort_by key l1 = Str.sort_by key l2.
Proof.
  intros Hp Hnd. apply sorted_perm_unique.
  - apply sort_by_is_sorted.
  - apply sort_by_is_sorted.
  - rewrite <- (sort_by_perm l1), <- (sort_by_perm l2). exact Hp.
  - apply (Permutation_NoDup (l := map key l1)); [|exact Hnd].
    apply Permutation_map. apply sort_by_perm.
Qed.

End ByKey.

End SortFacts.

Module ArtistFacts.

Lemma filter_perm {A : Type} (p : A -> bool) (l1 l2 : list A) :
  Permutation l1 l2 -> Permutation (filter p l1) (filter p l2).
Proof.
  induction 1 as [|x l1 l2 _ IH|x y l|l1 l2 l3 _ IH1 _ IH2]; cbn.
  - constructor.
  - destruct (p x); [constructor|]; exact IH.
  - destruct (p x), (p y); try reflexivity. apply perm_swap.
  - exact (Permutation_trans IH1 IH2).
Qed.

Lemma filter_keys_nodup {A : Type} (key : A -> string) (p : A -> bool)
    (l : list A) :
  NoDup (map key l) -> NoDup (map key (filter p l)).
Proof.
  induction l as [|x l IH]; cbn; intros H; [constructor|].
  inversion H as [|? ? Hnotin Hnd]; subst.
  destruct (p x); cbn; [|exact (IH Hnd)].
  constructor; [|exact (IH Hnd)].
  intros Hin. apply Hnotin. apply in_map_iff in Hin.
  destruct Hin as [y [Hk Hy]]. apply filter_In in Hy.
  apply in_map_iff. exists y. tauto.
Qed.

End ArtistFacts.

(** X21: [process_folder] of [id3tocovr.py] goes through the artist
    folders in sorted order of their names, whatever the order in which
    the library root enumerates them: two enumerations of the same
    (distinctly named) entries give the same folders in the same
    order. *)
Theorem artists_fetched_in_sorted_order (lower : string -> string)
    (root_folder : string) (entries : list (string * node))
    (process_cd_folders : bool) :
  (exists artists,
      Permutation (filter (fun e => is_dir (snd e)) entries) artists
      /\ StronglySorted (key_le fst) artists
      /\ Id3tocovr.process_folder lower root_folder (Dir entries)
           process_cd_folders
         = flat_map
             (fun artist =>
                match snd artist with
                | File => []
                | Dir albums =>
                    flat_map
                      (Id3tocovr.process_album lower
                         (Str.join root_folder (fst artist))
                         process_cd_folders)
                      albums
                end)
             artists)
  /\ (forall entries',
         Permutation entries entries' ->
         NoDup (map fst entries) ->
         Id3tocovr.process_folder lower root_folder (Dir entries')
           process_cd_folders
         = Id3tocovr.process_folder lower root_folder (Dir entries)
             process_cd_folders).
Proof.
  split.
  - exists (Str.sort_by fst (filter (fun e => is_dir (snd e)) entries)).
    split; [apply SortFacts.sort_by_perm|].
    split; [apply SortFacts.sort_by_is_sorted|reflexivity].
  - intros entries' Hp Hnd. unfold Id3tocovr.process_folder.
    rewrite (SortFacts.sort_by_perm_eq _ fst
               (filter (fun e => is_dir (snd e)) entries)
               (filter (fun e => is_dir (snd e)) entries')).
    + reflexivity.
    + apply ArtistFacts.filter_perm. exact Hp.
    + apply ArtistFacts.filter_keys_nodup. exact Hnd.
Qed.

(** Two artists, enumerated in reverse order. *)
Lemma artists_fetched_in_sorted_order_witness :
  Id3tocovr.process_folder Str.lower "/music"
    (Dir [("Zac Brown Band", Dir [("Uncaged (2012)", Dir [])]);
          ("Alabama", Dir [("Feels So Right", Dir [])])])
    false
  = ["/music/Alabama/Feels So Right"; "/music/Zac Brown Band/Uncaged (2012)"].
Proof.
  rewrite (proj2 (artists_fetched_in_sorted_order Str.lower "/music"
                    [("Alabama", Dir [("Feels So Right", Dir [])]);
                     ("Zac Brown Band", Dir [("Uncaged (2012)", Dir [])])]
                    false)).
  - reflexivity.
  - apply perm_swap.
  - repeat constructor; cbn; intuition discriminate.
Defined.

(** X22: for an album folder, [id3tocovr.py] without CD mode fetches for
    the album folder itself, and so it does in CD mode when no
    subdirectory passes its test (name starting with "cd" in any case);
    a subdirectory that passes the test of the two other scripts (name
    starting with "CD ") passes this one too and is fetched for in CD
    mode. *)
Theorem cd_subfolders_fetched_in_cd_mode (artist_path album : string)
    (entries : list (string * node)) :
  let album_path := Str.join artist_path album in
  Id3tocovr.process_album Str.lower artist_path false (album, Dir entries)
  = [album_path]
  /\ (filter (fun f => Str.startswith (Str.lower f) "cd") (dirnames entries)
      = [] ->
      Id3tocovr.process_album Str.lower artist_path true (album, Dir entries)
      = [album_path])
  /\ (forall name,
         In name (dirnames entries) ->
         Str.startswith name "CD " = true ->
         In (Str.join album_path name)
            (Id3tocovr.process_album Str.lower artist_path true
               (album, Dir entries)))
  /\ (forall p,
         In p (Id3tocovr.process_album Str.lower artist_path true
                 (album, Dir entries)) ->
         p = album_path
         \/ exists name,
              In name (dirnames entries)
              /\ Str.startswith (Str.lower name) "cd" = true
              /\ p = Str.join album_path name).
Proof.
  intros album_path. unfold Id3tocovr.process_album. cbn [fst snd].
  fold album_path.
  split; [|split; [|split]].
  - destruct (filter _ (dirnames entries)); reflexivity.
  - intros H. rewrite H. reflexivity.
  - intros name Hin Hcd.
    assert (Hf : In name
                   (filter (fun f => Str.startswith (Str.lower f) "cd")
                      (dirnames entries))).
    { apply filter_In. split; [exact Hin|].
      apply ConfigFacts.startswith_CD_lower. exact Hcd. }
    destruct (filter _ (dirnames entries)) as [|c cs] eqn:Hcds;
      [contradiction|].
    apply in_map. exact Hf.
  - intros p.
    destruct (filter _ (dirnames entries)) as [|c cs] eqn:Hcds.
    + intros [<-|[]]. left. reflexivity.
    + intros Hp. apply in_map_iff in Hp. destruct Hp as [name [<- Hn]].
      rewrite <- Hcds in Hn. apply filter_In in Hn.
      right. exists name. tauto.
Qed.

(** The first disc of an album with two discs. *)
Lemma cd_subfolders_fetched_in_cd_mode_witness :
  In (Str.join (Str.join "/music/Zac Brown Band" "Uncaged (2012)") "CD 1")
     (Id3tocovr.process_album Str.lower "/music/Zac Brown Band" true
        ("Uncaged (2012)",
         Dir [("CD 1", Dir []); ("CD 2", Dir []); ("cover.jpg", File)])).
Proof.
  destruct (cd_subfolders_fetched_in_cd_mode "/music/Zac Brown Band"
              "Uncaged (2012)"
              [("CD 1", Dir []); ("CD 2", Dir []); ("cover.jpg", File)])
    as [_ [_ [H _]]].
  apply H; [left; reflexivity|reflexivity].
Defined.
